(** * A limit order book with price-time matching: model and properties

    Shallow embedding of [order_book/order_book.h] and
    [order_book/order_book.cpp].

    - [uint64_t] fields are integers in [Z]; arithmetic that can leave the
      range [0, 2^64) is wrapped with [wrap64].
    - An [Order*] is a [handle]: the index of a slot of the pool's block of
      storage.  The slot contents live in [memory], so two containers that
      hold the same pointer see the same order.
    - Prices are [double]s.  The source only copies and compares them
      ([<] in [try_match], [std::less] and [std::greater] in the maps, [!=]
      in [amend_order]); it never computes with them.  A [double] is
      modelled by what these comparisons can tell apart: NaN, for which
      every [<] is false and every [!=] is true, or a number.  The numbers
      (the finite values and the two infinities, [-0.0] and [+0.0] being one
      number since they compare equal) are totally ordered by [<]; they are
      written as integers, a price in ticks, which keep that order.
    - [std::map<double, std::list<Order*>, Cmp>] is a list of levels kept in
      the order of [Cmp]; [begin()] is the head of the list.  [operator[]]
      and [find] walk it with [Cmp] alone, as the tree search does: the level
      they reach is the first one whose key is not before the key looked
      for.  With a NaN on either side of [Cmp] no key is before the other, so
      a NaN key is only ever entered into an empty map, where it is then the
      one key, and a search with NaN, or on a map whose key is NaN, stops at
      the first level.
    - [std::unordered_map<uint64_t, Order*>] is a [gmap Z handle].
    - The [[MATCH]] lines written to [std::cout] are the list of [Trade]s an
      operation returns next to the new state.
    - [get_timestamp_ns] reads the clock; a call that may read it takes the
      reading as an argument.
    - The [while] loop of [try_match] is run with fuel; [try_match] gives it
      as much as a loop that ends can use, and says [Diverged] otherwise. *)

From Stdlib Require Import ZArith List Lia.
From stdpp Require Import base tactics option list functions sorting gmap.

Local Open Scope Z_scope.

(** ** Machine integers *)

Definition wrap64 (z : Z) : Z := z mod 2 ^ 64.

(** ** Prices *)

Inductive double : Type :=
| Num (value : Z)
| NaN.
Coercion Num : Z >-> double.

#[global] Instance double_eq_dec : EqDecision double.
Proof. solve_decision. Defined.

(** [a < b], [a <= b] and [a != b] on [double]. *)
Definition double_lt (a b : double) : bool :=
  match a, b with
  | Num x, Num y => x <? y
  | _, _ => false
  end.

Definition double_le (a b : double) : bool :=
  match a, b with
  | Num x, Num y => x <=? y
  | _, _ => false
  end.

Definition double_ne (a b : double) : bool :=
  match a, b with
  | Num x, Num y => negb (x =? y)
  | _, _ => true
  end.

Declare Scope double_scope.
Delimit Scope double_scope with D.
Notation "a < b" := (double_lt a b = true) : double_scope.
Notation "a <= b" := (double_le a b = true) : double_scope.

(** ** Data model ([order_book.h]) *)

Record Order := mkOrder {
  order_id : Z;
  is_buy : bool;
  price : double;
  quantity : Z;
  timestamp_ns : Z
}.

Record PriceLevel := mkPriceLevel {
  level_price : double;
  total_quantity : Z
}.

(** One [[MATCH]] line: quantity, price, buy order id, sell order id. *)
Record Trade := mkTrade {
  match_qty : Z;
  match_price : double;
  buy_id : Z;
  sell_id : Z
}.

Abbreviation handle := nat (only parsing).

Record MemoryPool := mkPool {
  memory : handle -> Order;
  capacity : nat;
  free_list : list handle
}.

(** A side of the book: price levels in comparator order, each with the
    FIFO of the orders resting at that price. *)
Definition side_book := list (double * list handle).

Record OrderBook := mkBook {
  pool : MemoryPool;
  bids : side_book;
  asks : side_book;
  order_lookup : gmap Z handle
}.

Definition set_quantity (q : Z) (o : Order) : Order :=
  mkOrder (order_id o) (is_buy o) (price o) q (timestamp_ns o).

Definition set_timestamp (t : Z) (o : Order) : Order :=
  mkOrder (order_id o) (is_buy o) (price o) (quantity o) t.

Definition set_price (p : double) (o : Order) : Order :=
  mkOrder (order_id o) (is_buy o) p (quantity o) (timestamp_ns o).

Definition with_memory (m : handle -> Order) (ob : OrderBook) : OrderBook :=
  mkBook (mkPool m (capacity (pool ob)) (free_list (pool ob)))
         (bids ob) (asks ob) (order_lookup ob).

Definition with_free_list (fl : list handle) (ob : OrderBook) : OrderBook :=
  mkBook (mkPool (memory (pool ob)) (capacity (pool ob)) fl)
         (bids ob) (asks ob) (order_lookup ob).

Definition with_bids (b : side_book) (ob : OrderBook) : OrderBook :=
  mkBook (pool ob) b (asks ob) (order_lookup ob).

Definition with_asks (a : side_book) (ob : OrderBook) : OrderBook :=
  mkBook (pool ob) (bids ob) a (order_lookup ob).

Definition with_lookup (m : gmap Z handle) (ob : OrderBook) : OrderBook :=
  mkBook (pool ob) (bids ob) (asks ob) m.

(** The order a handle points to. *)
Definition deref (ob : OrderBook) (h : handle) : Order := memory (pool ob) h.

(** [*h = o] *)
Definition store (h : handle) (o : Order) (ob : OrderBook) : OrderBook :=
  with_memory (<[h := o]> (memory (pool ob))) ob.

(** ** Outcomes of a call

    A call returns, or leaves with the [std::runtime_error] of
    [MemoryPool::allocate], or never comes back from the matching loop.  The
    first two carry the state of the book at that point and the trades
    printed so far. *)

Inductive outcome (A : Type) : Type :=
| Returned (a : A) (ob : OrderBook) (out : list Trade)
| Thrown (ob : OrderBook) (out : list Trade)
| Diverged.
Arguments Returned {A} a ob out.
Arguments Thrown {A} ob out.
Arguments Diverged {A}.

Definition M (A : Type) : Type := OrderBook -> outcome A.

Definition ret {A} (a : A) : M A := fun ob => Returned a ob [].

Definition bind {A B} (m : M A) (k : A -> M B) : M B :=
  fun ob =>
    match m ob with
    | Returned a ob1 out1 =>
        match k a ob1 with
        | Returned b ob2 out2 => Returned b ob2 (out1 ++ out2)
        | Thrown ob2 out2 => Thrown ob2 (out1 ++ out2)
        | Diverged => Diverged
        end
    | Thrown ob1 out1 => Thrown ob1 out1
    | Diverged => Diverged
    end.

Notation "'let*' x := m 'in' k" := (bind m (fun x => k))
  (at level 10, x name, m at level 100, k at level 200).
Notation "m >> k" := (bind m (fun _ => k))
  (at level 90, right associativity).

Definition get : M OrderBook := fun ob => Returned ob ob [].
Definition modify (f : OrderBook -> OrderBook) : M unit :=
  fun ob => Returned tt (f ob) [].
Definition throw {A} : M A := fun ob => Thrown ob [].
Definition diverge {A} : M A := fun _ => Diverged.
Definition emit (t : Trade) : M unit := fun ob => Returned tt ob [t].

(** The state an outcome ends in, when it ends. *)
Definition final_state {A} (r : outcome A) : option OrderBook :=
  match r with
  | Returned _ ob _ => Some ob
  | Thrown ob _ => Some ob
  | Diverged => None
  end.

Definition trades_of {A} (r : outcome A) : list Trade :=
  match r with
  | Returned _ _ out => out
  | Thrown _ out => out
  | Diverged => []
  end.

(** ** Memory pool *)

(** [MemoryPool::MemoryPool]: slot [i] is [memory + i * sizeof(Order)]; the
    free list receives the slots in index order.  The block is not
    initialised: [garbage] is whatever it holds. *)
Definition new_pool (garbage : handle -> Order) (size : nat) : MemoryPool :=
  mkPool garbage size (seq 0 size).

(** [MemoryPool::allocate]: throws when the free list is empty, otherwise
    takes the slot at the back of the vector. *)
Definition allocate : M handle :=
  fun ob =>
    match last (free_list (pool ob)) with
    | None => throw ob
    | Some order =>
        Returned order (with_free_list (removelast (free_list (pool ob))) ob) []
    end.

(** [MemoryPool::deallocate] *)
Definition deallocate (order : handle) : M unit :=
  modify (fun ob => with_free_list (free_list (pool ob) ++ [order]) ob).

(** ** Side books *)

(** The comparators of the two maps: [std::greater<double>] for bids,
    [std::less<double>] for asks. *)
Definition greater (a b : double) : bool := double_lt b a.
Definition less (a b : double) : bool := double_lt a b.

(** [if (orders.empty()) m.erase(level)] for the level [(k, orders)] that
    stands before [rest]. *)
Definition erase_if_empty (k : double) (orders : list handle) (rest : side_book) : side_book :=
  match orders with
  | [] => rest
  | _ => (k, orders) :: rest
  end.

Section SideBook.
Variable before : double -> double -> bool.

(** [m[p].push_back(h)]: [operator[]] finds the level whose key is
    equivalent to [p] or inserts an empty one at its place in the order. *)
Fixpoint level_push_back (p : double) (h : handle) (m : side_book) : side_book :=
  match m with
  | [] => [(p, [h])]
  | (k, q) :: rest =>
      if before k p then (k, q) :: level_push_back p h rest
      else if before p k then (p, [h]) :: (k, q) :: rest
      else (k, q ++ [h]) :: rest
  end.

(** [m.find(p)], then [remove(h)] on the level's list (every element equal
    to [h] goes) and [erase] of the level when the list is empty.  Nothing
    happens when [find] returns [end()]. *)
Fixpoint level_remove (p : double) (h : handle) (m : side_book) : side_book :=
  match m with
  | [] => []
  | (k, q) :: rest =>
      if before k p then (k, q) :: level_remove p h rest
      else if before p k then (k, q) :: rest
      else erase_if_empty k (filter (λ x, x ≠ h) q) rest
  end.
End SideBook.

(** ** Order book operations *)

(** [OrderBook::OrderBook] *)
Definition new_book (garbage : handle -> Order) (pool_size : nat) : OrderBook :=
  mkBook (new_pool garbage pool_size) [] [] ∅.

(** [OrderBook::remove_order_from_book] *)
Definition remove_order_from_book (order : handle) : M unit :=
  modify (fun ob =>
    if is_buy (deref ob order)
    then with_bids (level_remove greater (price (deref ob order)) order (bids ob)) ob
    else with_asks (level_remove less (price (deref ob order)) order (asks ob)) ob).

(** One pass through the body of the [while] loop of [OrderBook::try_match].
    [None] is a [break] or a false loop condition; otherwise the trade
    printed and the state at the end of the body. *)
Definition try_match_iter (ob : OrderBook) : option (Trade * OrderBook) :=
  match bids ob, asks ob with
  | (best_bid_price, bid_orders) :: bids_rest,
    (best_ask_price, ask_orders) :: asks_rest =>
      if double_lt best_bid_price best_ask_price then None
      else
        match bid_orders, ask_orders with
        | bid_order :: bid_tail, ask_order :: ask_tail =>
            let match_price :=
              if timestamp_ns (deref ob bid_order) <? timestamp_ns (deref ob ask_order)
              then price (deref ob bid_order) else price (deref ob ask_order) in
            let match_qty :=
              Z.min (quantity (deref ob bid_order)) (quantity (deref ob ask_order)) in
            let trade :=
              mkTrade match_qty match_price
                      (order_id (deref ob bid_order)) (order_id (deref ob ask_order)) in
            (* Reduce quantities *)
            let ob := store bid_order
                        (set_quantity (wrap64 (quantity (deref ob bid_order) - match_qty))
                                      (deref ob bid_order)) ob in
            let ob := store ask_order
                        (set_quantity (wrap64 (quantity (deref ob ask_order) - match_qty))
                                      (deref ob ask_order)) ob in
            (* Remove filled orders *)
            let '(bid_orders, ob) :=
              if quantity (deref ob bid_order) =? 0
              then (bid_tail,
                    with_free_list (free_list (pool ob) ++ [bid_order])
                      (with_lookup (delete (order_id (deref ob bid_order)) (order_lookup ob)) ob))
              else (bid_orders, ob) in
            let '(ask_orders, ob) :=
              if quantity (deref ob ask_order) =? 0
              then (ask_tail,
                    with_free_list (free_list (pool ob) ++ [ask_order])
                      (with_lookup (delete (order_id (deref ob ask_order)) (order_lookup ob)) ob))
              else (ask_orders, ob) in
            (* Remove empty price levels *)
            let ob := with_bids (erase_if_empty best_bid_price bid_orders bids_rest) ob in
            let ob := with_asks (erase_if_empty best_ask_price ask_orders asks_rest) ob in
            Some (trade, ob)
        | _, _ => None
        end
  | _, _ => None
  end.

(** The loop, run for at most [fuel] passes. *)
Fixpoint try_match_loop (fuel : nat) : M unit :=
  match fuel with
  | O => diverge
  | S fuel' =>
      fun ob =>
        match try_match_iter ob with
        | None => ret tt ob
        | Some (trade, ob') => (emit trade >> try_match_loop fuel') ob'
        end
  end.

(** Number of entries of the FIFOs of a side, and of the book. *)
Definition side_handles (m : side_book) : list handle := concat (m.*2).
Definition book_handles (ob : OrderBook) : list handle :=
  side_handles (bids ob) ++ side_handles (asks ob).
Definition book_size (ob : OrderBook) : nat := length (book_handles ob).

(** [OrderBook::try_match].  A pass that does not leave the loop takes at
    least one entry out of a FIFO, unless both heads are the same slot with
    a quantity that is not zero, and then the loop never ends
    ([try_match_iter_progress_or_stuck], [stuck_diverges]).  So one pass more
    than there are entries is all a loop that ends can use: with this fuel
    the result is [Diverged] exactly when it is [Diverged] with every fuel
    ([try_match_fuel_exact], [try_match_loop_more]). *)
Definition try_match : M unit :=
  fun ob => try_match_loop (S (book_size ob)) ob.

(** [OrderBook::add_order].  [now] is what [get_timestamp_ns] returns if it
    is called. *)
Definition add_order (now : Z) (order : Order) : M unit :=
  let* new_order := allocate in
  modify (store new_order order) >>
  modify (fun ob =>
    if timestamp_ns (deref ob new_order) =? 0
    then store new_order (set_timestamp now (deref ob new_order)) ob
    else ob) >>
  modify (fun ob =>
    with_lookup (<[order_id (deref ob new_order) := new_order]> (order_lookup ob)) ob) >>
  modify (fun ob =>
    if is_buy (deref ob new_order)
    then with_bids (level_push_back greater (price (deref ob new_order)) new_order (bids ob)) ob
    else with_asks (level_push_back less (price (deref ob new_order)) new_order (asks ob)) ob) >>
  try_match.

(** [OrderBook::cancel_order] *)
Definition cancel_order (id : Z) : M bool :=
  let* ob := get in
  match order_lookup ob !! id with
  | None => ret false
  | Some order =>
      remove_order_from_book order >>
      deallocate order >>
      modify (fun ob => with_lookup (delete id (order_lookup ob)) ob) >>
      ret true
  end.

(** [OrderBook::amend_order].  [now] is the reading of the clock taken on
    the price-change path, [now'] the one [add_order] would take. *)
Definition amend_order (now now' : Z) (id : Z) (new_price : double) (new_quantity : Z)
    : M bool :=
  let* ob := get in
  match order_lookup ob !! id with
  | None => ret false
  | Some order =>
      (if double_ne (price (deref ob order)) new_price
       then
         let amended_order :=
           set_timestamp now (set_quantity new_quantity (set_price new_price (deref ob order))) in
         cancel_order id >>
         add_order now' amended_order
       else
         modify (fun ob => store order (set_quantity new_quantity (deref ob order)) ob)) >>
      ret true
  end.

(** The loop body of [get_snapshot] over one side: [count] levels are
    already in [out]. *)
Fixpoint snapshot_side (ob : OrderBook) (depth count : Z) (m : side_book)
    (out : list PriceLevel) : list PriceLevel :=
  match m with
  | [] => out
  | (p, orders) :: rest =>
      if depth <=? count then out
      else
        let total_qty :=
          fold_left (fun acc order => wrap64 (acc + quantity (deref ob order))) orders 0 in
        snapshot_side ob depth (wrap64 (count + 1)) rest (out ++ [mkPriceLevel p total_qty])
  end.

(** [OrderBook::get_snapshot].  [bids_out] and [asks_out] are the vectors the
    caller passes by reference; the result is their contents on return. *)
Definition get_snapshot (depth : Z) (bids_out asks_out : list PriceLevel)
    : M (list PriceLevel * list PriceLevel) :=
  let* ob := get in
  let bids_out : list PriceLevel := [] in
  let asks_out : list PriceLevel := [] in
  let bids_out := snapshot_side ob depth 0 (bids ob) bids_out in
  let asks_out := snapshot_side ob depth 0 (asks ob) asks_out in
  ret (bids_out, asks_out).

(** ** The public interface as data *)

Inductive op : Type :=
| Add (now : Z) (order : Order)
| Cancel (id : Z)
| Amend (now now' : Z) (id : Z) (new_price : double) (new_quantity : Z)
| Snapshot (depth : Z) (bids_out asks_out : list PriceLevel).

Definition run_op (o : op) : M unit :=
  match o with
  | Add now order => add_order now order
  | Cancel id => cancel_order id >> ret tt
  | Amend now now' id p q => amend_order now now' id p q >> ret tt
  | Snapshot depth b a => get_snapshot depth b a >> ret tt
  end.

(** A sequence of calls.  A caller that catches the exception of a full pool
    goes on with the book as the throw left it. *)
Fixpoint exec (ops : list op) (ob : OrderBook) : option OrderBook :=
  match ops with
  | [] => Some ob
  | o :: rest =>
      match final_state (run_op o ob) with
      | Some ob' => exec rest ob'
      | None => None
      end
  end.

(** ** Predicates on books *)

(** Keys of a side in strict comparator order. *)
Definition keys_sorted (before : double -> double -> bool) (m : side_book) : Prop :=
  StronglySorted (λ a b, before a b = true) (m.*1).

(** No level is empty and every entry of a level satisfies [P] at the
    level's key. *)
Definition levels_ok (P : double -> handle -> Prop) (m : side_book) : Prop :=
  Forall (λ l, l.2 ≠ [] ∧ Forall (P l.1) l.2) m.

(** The order behind [h] belongs on side [side] at price [k]. *)
Definition order_at (ob : OrderBook) (side : bool) (k : double) (h : handle) : Prop :=
  price (deref ob h) = k ∧ is_buy (deref ob h) = side.

(** Consistency of the three structures and the pool. *)
Record wf (ob : OrderBook) : Prop := mk_wf {
  wf_bids_sorted : keys_sorted greater (bids ob);
  wf_asks_sorted : keys_sorted less (asks ob);
  wf_bids_ok : levels_ok (order_at ob true) (bids ob);
  wf_asks_ok : levels_ok (order_at ob false) (asks ob);
  wf_nodup : NoDup (book_handles ob ++ free_list (pool ob));
  wf_lookup : ∀ id h, order_lookup ob !! id = Some h →
                      h ∈ book_handles ob ∧ order_id (deref ob h) = id
}.

(** P2: every bid price is below every ask price. *)
Definition uncrossed (ob : OrderBook) : Prop :=
  ∀ b a, b ∈ (bids ob).*1 → a ∈ (asks ob).*1 → (b < a)%D.

(** No price level has the key NaN. *)
Definition no_nan_level (ob : OrderBook) : Prop :=
  NaN ∉ (bids ob).*1 ∧ NaN ∉ (asks ob).*1.

(** What the two maps keep whatever the prices are: the keys of each side in
    strict comparator order, and no level with an empty FIFO. *)
Record shaped (ob : OrderBook) : Prop := mk_shaped {
  shaped_bids_sorted : keys_sorted greater (bids ob);
  shaped_asks_sorted : keys_sorted less (asks ob);
  shaped_bids_nonempty : Forall (λ l, l.2 ≠ []) (bids ob);
  shaped_asks_nonempty : Forall (λ l, l.2 ≠ []) (asks ob)
}.

(** P4, with the range of the field's type: every order of a FIFO has a
    remaining quantity [q] with [0 < q < 2^64]. *)
Definition quantities_positive (ob : OrderBook) : Prop :=
  ∀ h, h ∈ book_handles ob → 0 < quantity (deref ob h) < 2 ^ 64.

(** The heads the matching loop looks at. *)
Definition best_bid_head (ob : OrderBook) : option handle :=
  match bids ob with (_, h :: _) :: _ => Some h | _ => None end.
Definition best_ask_head (ob : OrderBook) : option handle :=
  match asks ob with (_, h :: _) :: _ => Some h | _ => None end.


(** [order] does not cross the other side of [ob]. *)
Definition rests (order : Order) (ob : OrderBook) : Prop :=
  if is_buy order
  then ∀ a, a ∈ (asks ob).*1 → (price order < a)%D
  else ∀ b, b ∈ (bids ob).*1 → (b < price order)%D.

(** The level a snapshot reports for a level of the book: its price and the
    sum of the quantities of its FIFO, in 64-bit arithmetic. *)
Definition level_sum (ob : OrderBook) (orders : list handle) : Z :=
  foldr (λ h acc, quantity (deref ob h) + acc) 0 orders.
Definition level_report (ob : OrderBook) (l : double * list handle) : PriceLevel :=
  mkPriceLevel l.1 (wrap64 (level_sum ob l.2)).

(** ** The states the operations pass through *)

(** The order as [add_order] leaves it in its slot. *)
Definition stamped (now : Z) (order : Order) : Order :=
  if timestamp_ns order =? 0 then set_timestamp now order else order.

(** The book when [add_order] has filled slot [h] and linked it into the
    index and its side, before [try_match] runs. *)
Definition inserted (now : Z) (order : Order) (h : handle) (ob : OrderBook) : OrderBook :=
  let ob := store h order ob in
  let ob := if timestamp_ns (deref ob h) =? 0
            then store h (set_timestamp now (deref ob h)) ob else ob in
  let ob := with_lookup (<[order_id (deref ob h) := h]> (order_lookup ob)) ob in
  if is_buy (deref ob h)
  then with_bids (level_push_back greater (price (deref ob h)) h (bids ob)) ob
  else with_asks (level_push_back less (price (deref ob h)) h (asks ob)) ob.

(** The book when [cancel_order id] has found slot [h] and returns. *)
Definition cancelled (id : Z) (h : handle) (ob : OrderBook) : OrderBook :=
  let ob := if is_buy (deref ob h)
            then with_bids (level_remove greater (price (deref ob h)) h (bids ob)) ob
            else with_asks (level_remove less (price (deref ob h)) h (asks ob)) ob in
  let ob := with_free_list (free_list (pool ob) ++ [h]) ob in
  with_lookup (delete id (order_lookup ob)) ob.

(** The quantities a call brings into the book. *)
Definition op_positive (o : op) : Prop :=
  match o with
  | Add _ order => 0 < quantity order < 2 ^ 64
  | Amend _ _ _ _ q => 0 < q < 2 ^ 64
  | _ => True
  end.

(** The prices a call brings into the book are numbers. *)
Definition op_numeric (o : op) : Prop :=
  match o with
  | Add _ order => price order ≠ NaN
  | Amend _ _ _ new_price _ => new_price ≠ NaN
  | _ => True
  end.

(** ** Concrete books *)

Definition blank : Order := mkOrder 0 false 0 0 0.

Definition empty_book (pool_size : nat) : OrderBook := new_book (λ _, blank) pool_size.

(** The book after a sequence of calls. *)
Definition after (ops : list op) (ob : OrderBook) : OrderBook :=
  default ob (exec ops ob).

(** What a call hands back to its caller. *)
Definition returned {A} (r : outcome A) : option A :=
  match r with
  | Returned a _ _ => Some a
  | _ => None
  end.

(** A sell order rests at 100; a buy order at 101 arrives with the same
    timestamp. *)
Definition tie_sell : Order := mkOrder 1 false 100 10 5.
Definition tie_buy : Order := mkOrder 2 true 101 10 5.
Definition tie_resting : OrderBook := after [Add 0 tie_sell] (empty_book 2).

(** The book inside [add_order tie_buy], when the loop is entered, and after
    the first pass. *)
Definition tie_crossed : OrderBook :=
  inserted 0 tie_buy 0 (with_free_list [] tie_resting).
Definition tie_matched : OrderBook :=
  match try_match_iter tie_crossed with
  | Some (_, ob) => ob
  | None => tie_crossed
  end.

(** Three buy orders at 95 and a sell order that fills the first and half
    of the second (scenario S1). *)
Definition fifo_ops : list op :=
  [ Add 1 (mkOrder 20 true 95 100 0);
    Add 2 (mkOrder 21 true 95 200 0);
    Add 3 (mkOrder 22 true 95 300 0);
    Add 4 (mkOrder 23 false 95 250 0) ].

(** Two buy orders of [2^63] each at the same price. *)
Definition overflow_book : OrderBook :=
  after [ Add 1 (mkOrder 1 true 100 (2 ^ 63) 1);
          Add 2 (mkOrder 2 true 100 (2 ^ 63) 2) ] (empty_book 2).

(** A buy order with price NaN joins the level at 100; a better bid is
    added and the NaN order cancelled: [find] looks in the level at 101, the
    slot stays queued at 100 and goes to the free list as well. *)
Definition nan_ops : list op :=
  [ Add 1 (mkOrder 1 true 100 10 0);
    Add 2 (mkOrder 2 true NaN 10 0);
    Add 3 (mkOrder 3 true 101 10 0);
    Cancel 2 ].
Definition nan_book : OrderBook := after nan_ops (empty_book 3).


(** The same calls on a pool of four slots, then a buy order at 99 that
    takes the queued slot, and a sell order that fills the three orders
    queued above 99. *)
Definition nan_fill_ops : list op :=
  nan_ops ++ [ Add 5 (mkOrder 5 true 99 7 0); Add 6 (mkOrder 6 false 100 27 0) ].

(** A buy order with price NaN on an empty side, and a second buy order,
    which joins its level. *)
Definition nan_resting : OrderBook :=
  after [ Add 1 (mkOrder 1 true NaN 10 7);
          Add 2 (mkOrder 2 true 100 20 8) ] (empty_book 2).

(** ** The rest of the class *)

(** The body of the loop of [OrderBook::~OrderBook] over the entries of the
    index. *)
Fixpoint deallocate_all (entries : list (Z * handle)) : M unit :=
  match entries with
  | [] => ret tt
  | (_, order_ptr) :: rest => deallocate order_ptr >> deallocate_all rest
  end.

(** [OrderBook::~OrderBook], up to the release of the pool's storage.  The
    order in which a [std::unordered_map] is walked is not specified; the
    entries are taken in the order of [map_to_list]. *)
Definition destroy : M unit :=
  let* ob := get in
  deallocate_all (map_to_list (order_lookup ob)).

(** A line [OrderBook::print_book] writes: one of its fixed texts, or a row
    with the price and the total quantity of a level (the layout of the
    numbers, [setw] and [setprecision], is not modelled).  [Blank] is an empty
    line, [Banner] the line [========== ORDER BOOK ==========], [Dashes] and
    [Equals] the rules of 32 [-] and of 32 [=]. *)
Inductive line : Type :=
| Blank
| Banner
| AsksTitle
| ColumnTitles
| Dashes
| Equals
| BidsTitle
| Row (level : PriceLevel).

(** [OrderBook::print_book]: the lines written to [std::cout], in order. *)
Definition print_book (depth : Z) : M (list line) :=
  let* snapshot := get_snapshot depth [] [] in
  let bids_snapshot := snapshot.1 in
  let asks_snapshot := snapshot.2 in
  ret ([Blank; Banner; AsksTitle; ColumnTitles; Dashes]
       ++ (Row <$> reverse asks_snapshot)
       ++ [Equals]
       ++ (Row <$> bids_snapshot)
       ++ [Dashes; BidsTitle; Equals; Blank]).

(** The rows among the lines of a printout. *)
Definition rows (ls : list line) : list PriceLevel :=
  omap (λ l, match l with Row level => Some level | _ => None end) ls.

(** ** Observations used by the further properties *)

(** The FIFO found under key [k] in a side, empty when there is no such
    level. *)
Fixpoint fifo_at (k : double) (m : side_book) : list handle :=
  match m with
  | [] => []
  | (k0, q) :: rest => if decide (k0 = k) then q else fifo_at k rest
  end.

(** Every slot of the pool that is in a FIFO or in the free list. *)
Definition slots (ob : OrderBook) : list handle :=
  book_handles ob ++ free_list (pool ob).

(** The quantity resting in the book. *)
Definition resting_quantity (ob : OrderBook) : Z :=
  level_sum ob (book_handles ob).

(** The quantity traded by a list of trades. *)
Definition traded (out : list Trade) : Z :=
  foldr (λ t acc, match_qty t + acc) 0 out.

(** P1: the index and the FIFOs hold the same orders; every order of a FIFO
    is found in the index under its own id. *)
Definition indexed (ob : OrderBook) : Prop :=
  ∀ h, h ∈ book_handles ob → order_lookup ob !! order_id (deref ob h) = Some h.

(** A condition on the orders brought by [add_order], checked on the book at
    the time of each call. *)
Definition op_ok (ok : Order -> OrderBook -> Prop) (o : op) (ob : OrderBook) : Prop :=
  match o with
  | Add _ order => ok order ob
  | _ => True
  end.

Fixpoint ops_ok (ok : Order -> OrderBook -> Prop) (ops : list op) (ob : OrderBook) : Prop :=
  match ops with
  | [] => True
  | o :: rest =>
      op_ok ok o ob ∧
      ∀ ob', final_state (run_op o ob) = Some ob' → ops_ok ok rest ob'
  end.

(** The id of [order] is not live in [ob]. *)
Definition fresh_id (order : Order) (ob : OrderBook) : Prop :=
  order_lookup ob !! order_id order = None.

(** The bids and asks of the first test of the driver ([main], TEST 1),
    prices in hundredths. *)
Definition demo_ops : list op :=
  [ Add 1 (mkOrder 1 true 10050 100 0);
    Add 2 (mkOrder 2 true 10025 150 0);
    Add 3 (mkOrder 3 true 10050 50 0);
    Add 4 (mkOrder 4 true 9975 200 0);
    Add 5 (mkOrder 5 false 10100 100 0);
    Add 6 (mkOrder 6 false 10125 150 0);
    Add 7 (mkOrder 7 false 10100 75 0);
    Add 8 (mkOrder 8 false 10200 200 0) ].

Definition demo_book : OrderBook := after demo_ops (empty_book 10).

(** The three buy orders of [fifo_ops] resting, before the sell order
    arrives. *)
Definition fifo_resting : OrderBook := after (take 3 fifo_ops) (empty_book 5).
Definition fifo_sell : Order := mkOrder 23 false 95 250 0.

(** The book inside [add_order fifo_sell], when the loop is entered. *)
Definition fifo_crossed : OrderBook :=
  inserted 4 fifo_sell 1 (with_free_list [0%nat] fifo_resting).
Definition fifo_matched : OrderBook :=
  match try_match_iter fifo_crossed with
  | Some (_, ob) => ob
  | None => fifo_crossed
  end.

(** Every order of the bid side other than [h] is below every ask. *)
Definition others_below (h : handle) (ob : OrderBook) : Prop :=
  ∀ k q g, (k, q) ∈ bids ob → g ∈ q → g ≠ h → ∀ a, a ∈ (asks ob).*1 → (k < a)%D.

(** Every order of the ask side other than [h] is above every bid. *)
Definition others_above (h : handle) (ob : OrderBook) : Prop :=
  ∀ k q g, (k, q) ∈ asks ob → g ∈ q → g ≠ h → ∀ b, b ∈ (bids ob).*1 → (b < k)%D.

(** The quantity a list of reported levels adds up to. *)
Definition snapshot_total (levels : list PriceLevel) : Z :=
  foldr (λ l acc, total_quantity l + acc) 0 levels.

(** ** Facts about lists and side books *)

Lemma filter_all {A} (P : A -> Prop) `{∀ x, Decision (P x)} (l : list A) :
  Forall P l → filter P l = l.
Proof.
  induction 1 as [|x l Hx _ IH]; [done|].
  rewrite filter_cons_True by done. by rewrite IH.
Qed.

Lemma Forall_filter_of {A} (P Q : A -> Prop) `{∀ x, Decision (Q x)} (l : list A) :
  Forall P l → Forall P (filter Q l).
Proof.
  rewrite !Forall_forall. intros HP x Hx.
  apply list_elem_of_filter in Hx as [_ Hx]. auto.
Qed.

Lemma elem_of_side_handles (h : handle) (m : side_book) :
  h ∈ side_handles m ↔ ∃ k q, (k, q) ∈ m ∧ h ∈ q.
Proof.
  unfold side_handles. induction m as [|[k0 q0] rest IH]; simpl.
  - split; [by intros ?%elem_of_nil|]. by intros (k & q & ?%elem_of_nil & _).
  - rewrite elem_of_app, IH. split.
    + intros [Hh|(k & q & Hin & Hh)].
      * exists k0, q0. split; [by left|done].
      * exists k, q. split; [by right|done].
    + intros (k & q & Hin & Hh). apply elem_of_cons in Hin as [Heq|Hin].
      * inversion Heq; subst. by left.
      * right. eauto.
Qed.

Section SideBookFacts.
Variable before : double -> double -> bool.
Hypothesis before_irrefl : ∀ a, before a a = false.
Hypothesis before_trans :
  ∀ a b c, before a b = true → before b c = true → before a c = true.
Hypothesis before_total :
  ∀ a b, a ≠ NaN → b ≠ NaN → before a b = false → before b a = false → a = b.

Lemma level_push_back_keys p h m k :
  k ∈ (level_push_back before p h m).*1 → k = p ∨ k ∈ m.*1.
Proof.
  induction m as [|[k0 q0] rest IH]; csimpl.
  - rewrite list_elem_of_singleton. auto.
  - destruct (before k0 p); [|destruct (before p k0)]; csimpl;
      rewrite ?elem_of_cons; intuition auto.
Qed.

Lemma level_push_back_sorted p h m :
  keys_sorted before m → keys_sorted before (level_push_back before p h m).
Proof.
  unfold keys_sorted.
  induction m as [|[k0 q0] rest IH]; csimpl; intros Hs.
  - repeat constructor.
  - apply StronglySorted_inv in Hs as [Hs Hall].
    destruct (before k0 p) eqn:E1; [|destruct (before p k0) eqn:E2]; csimpl.
    + constructor; [auto|].
      apply Forall_forall. intros k Hk.
      apply level_push_back_keys in Hk as [->|Hk]; [done|].
      rewrite Forall_forall in Hall. auto.
    + constructor; [by constructor|].
      constructor; [done|].
      eapply Forall_impl; [exact Hall|]. csimpl. eauto.
    + by constructor.
Qed.

Lemma level_push_back_handles p h m :
  side_handles (level_push_back before p h m) ≡ₚ h :: side_handles m.
Proof.
  unfold side_handles.
  induction m as [|[k0 q0] rest IH]; csimpl; [done|].
  destruct (before k0 p); [|destruct (before p k0)]; csimpl.
  - rewrite IH. by rewrite Permutation_middle.
  - done.
  - rewrite <- app_assoc. csimpl. by rewrite <- Permutation_middle.
Qed.

(** When neither the key looked for nor a key of the side is NaN, the level
    [operator[]] reaches has the key looked for. *)
Lemma level_push_back_ok (P : double -> handle -> Prop) p h m :
  p ≠ NaN → NaN ∉ m.*1 →
  P p h → levels_ok P m → levels_ok P (level_push_back before p h m).
Proof.
  unfold levels_ok. intros Hnum Hkeys Hp. revert Hkeys.
  induction m as [|[k0 q0] rest IH]; csimpl; intros Hkeys Hm.
  - repeat constructor; done.
  - apply Forall_cons in Hm as [[Hne Hq] Hrest]. csimpl in *.
    apply not_elem_of_cons in Hkeys as [Hk0 Hkeys].
    destruct (before k0 p) eqn:E1; [|destruct (before p k0) eqn:E2].
    + constructor; auto.
    + repeat constructor; auto.
    + assert (k0 = p) as -> by (apply before_total; auto).
      constructor; [|done]. csimpl. split.
      * by destruct q0.
      * apply Forall_app. split; [done|]. by repeat constructor.
Qed.

(** Whatever the keys are, [operator[]] leaves no level empty. *)
Lemma level_push_back_nonempty p h m :
  Forall (λ l : double * list handle, l.2 ≠ []) m →
  Forall (λ l : double * list handle, l.2 ≠ []) (level_push_back before p h m).
Proof.
  induction m as [|[k0 q0] rest IH]; csimpl; intros Hm.
  - by repeat constructor.
  - apply Forall_cons in Hm as [Hne Hrest]. csimpl in *.
    destruct (before k0 p); [|destruct (before p k0)].
    + constructor; auto.
    + by repeat constructor.
    + constructor; [|done]. csimpl. by destruct q0.
Qed.

Lemma level_remove_nonempty p h m :
  Forall (λ l : double * list handle, l.2 ≠ []) m →
  Forall (λ l : double * list handle, l.2 ≠ []) (level_remove before p h m).
Proof.
  induction m as [|[k0 q0] rest IH]; csimpl; intros Hm; [done|].
  apply Forall_cons in Hm as [Hne Hrest]. csimpl in *.
  destruct (before k0 p); [|destruct (before p k0)].
  - constructor; auto.
  - by constructor.
  - destruct (filter (λ x, x ≠ h) q0) as [|x q'] eqn:E; csimpl; [done|].
    by constructor.
Qed.

Lemma level_remove_keys p h m k :
  k ∈ (level_remove before p h m).*1 → k ∈ m.*1.
Proof.
  induction m as [|[k0 q0] rest IH]; csimpl; [done|].
  destruct (before k0 p); [|destruct (before p k0)]; csimpl.
  - rewrite !elem_of_cons. intuition auto.
  - done.
  - destruct (filter _ q0); csimpl; rewrite ?elem_of_cons; auto.
Qed.

Lemma level_remove_sorted p h m :
  keys_sorted before m → keys_sorted before (level_remove before p h m).
Proof.
  unfold keys_sorted.
  induction m as [|[k0 q0] rest IH]; csimpl; intros Hs; [done|].
  apply StronglySorted_inv in Hs as [Hs Hall].
  destruct (before k0 p); [|destruct (before p k0)]; csimpl.
  - constructor; [auto|].
    apply Forall_forall. intros k Hk. apply level_remove_keys in Hk.
    rewrite Forall_forall in Hall. auto.
  - by constructor.
  - destruct (filter _ q0); csimpl; [done|by constructor].
Qed.

Lemma level_remove_ok (P : double -> handle -> Prop) p h m :
  levels_ok P m → levels_ok P (level_remove before p h m).
Proof.
  unfold levels_ok.
  induction m as [|[k0 q0] rest IH]; csimpl; intros Hm; [done|].
  apply Forall_cons in Hm as [[Hne Hq] Hrest]. csimpl in *.
  destruct (before k0 p); [|destruct (before p k0)].
  - constructor; auto.
  - constructor; auto.
  - destruct (filter (λ x, x ≠ h) q0) as [|x q'] eqn:E; [done|].
    constructor; [|done]. csimpl. split; [done|].
    rewrite <- E. by apply Forall_filter_of.
Qed.

(** When [h] can only sit in the level of key [p], removing it at [p]
    filters it out of the side. *)
Lemma level_remove_handles p h m :
  keys_sorted before m →
  (∀ k q, (k, q) ∈ m → h ∈ q → k = p) →
  side_handles (level_remove before p h m) = filter (λ x, x ≠ h) (side_handles m).
Proof.
  unfold keys_sorted, side_handles.
  induction m as [|[k0 q0] rest IH]; csimpl; intros Hs Hat; [done|].
  apply StronglySorted_inv in Hs as [Hs Hall].
  rewrite filter_app.
  assert (Hrest : ∀ k q, (k, q) ∈ rest → h ∈ q → k = p).
  { intros k q Hin. apply Hat. by right. }
  assert (Hskip : k0 ≠ p → filter (λ x, x ≠ h) q0 = q0).
  { intros Hne. apply filter_all, Forall_forall. intros x Hx ->.
    apply Hne. eapply Hat; [by left|done]. }
  assert (Hclean : before k0 p = false →
            filter (λ x, x ≠ h) (concat rest.*2) = concat rest.*2).
  { intros Hk. apply filter_all, Forall_forall. intros x Hx ->.
    apply elem_of_side_handles in Hx as (k & q' & Hq & Hhq).
    assert (k = p) as -> by eauto.
    rewrite Forall_forall in Hall.
    assert (before k0 p = true) as Hb.
    { apply Hall. apply list_elem_of_fmap. by exists (p, q'). }
    congruence. }
  destruct (before k0 p) eqn:E1; [|destruct (before p k0) eqn:E2]; csimpl.
  - rewrite IH by done. rewrite Hskip; [done|].
    intros ->. by rewrite before_irrefl in E1.
  - rewrite Hclean by auto. rewrite Hskip; [done|].
    intros ->. by rewrite before_irrefl in E2.
  - rewrite Hclean by auto.
    by destruct (filter (λ x, x ≠ h) q0).
Qed.

(** Pushing a fresh handle and removing it again gives the side back. *)
Lemma level_remove_push_back p h m :
  keys_sorted before m →
  Forall (λ l, l.2 ≠ []) m →
  h ∉ side_handles m →
  level_remove before p h (level_push_back before p h m) = m.
Proof.
  unfold keys_sorted, side_handles.
  induction m as [|[k0 q0] rest IH]; csimpl; intros Hs Hne Hfresh.
  - rewrite before_irrefl. csimpl. by rewrite filter_cons_False, filter_nil by (by intros []).
  - apply StronglySorted_inv in Hs as [Hs Hall].
    apply Forall_cons in Hne as [Hq0 Hne]. csimpl in *.
    rewrite not_elem_of_app in Hfresh. destruct Hfresh as [Hf0 Hfr].
    destruct (before k0 p) eqn:E1; [|destruct (before p k0) eqn:E2]; csimpl.
    + rewrite E1. by rewrite IH.
    + rewrite before_irrefl. csimpl. by rewrite filter_cons_False, filter_nil by (by intros []).
    + rewrite E1, E2. rewrite filter_app.
      rewrite filter_cons_False, filter_nil by (by intros []). rewrite app_nil_r.
      rewrite filter_all.
      * by destruct q0.
      * apply Forall_forall. by intros x Hx ->.
Qed.
End SideBookFacts.

(** [<] on [double]: a strict order, total on the numbers; NaN is below
    nothing and nothing is below it. *)
Lemma double_lt_irrefl a : double_lt a a = false.
Proof. destruct a; simpl; [lia|done]. Qed.

Lemma double_lt_trans a b c : (a < b)%D → (b < c)%D → (a < c)%D.
Proof. destruct a, b, c; simpl; try done. lia. Qed.

Lemma double_lt_total a b :
  a ≠ NaN → b ≠ NaN → double_lt a b = false → double_lt b a = false → a = b.
Proof. destruct a, b; simpl; try done. intros _ _ ? ?. f_equal. lia. Qed.

Lemma double_lt_number a b : (a < b)%D → a ≠ NaN ∧ b ≠ NaN.
Proof. by destruct a, b. Qed.

Lemma double_lt_asym a b : (a < b)%D → double_lt b a = false.
Proof. destruct a, b; simpl; try done. lia. Qed.

Lemma double_lt_le_trans a b c : (a < b)%D → double_lt c b = false → c ≠ NaN → (a < c)%D.
Proof. destruct a, b, c; simpl; try done. lia. Qed.

Lemma double_le_lt_trans a b c : double_lt b a = false → a ≠ NaN → (b < c)%D → (a < c)%D.
Proof. destruct a, b, c; simpl; try done. lia. Qed.

Lemma double_le_refl a : a ≠ NaN → (a <= a)%D.
Proof. destruct a; simpl; [lia|done]. Qed.

Lemma double_lt_le a b : (a < b)%D → (a <= b)%D.
Proof. destruct a, b; simpl; try done. lia. Qed.

Lemma double_nlt_le a b : a ≠ NaN → b ≠ NaN → double_lt b a = false → (a <= b)%D.
Proof. destruct a, b; simpl; try done. lia. Qed.

Lemma double_le_trans a b c : (a <= b)%D → (b <= c)%D → (a <= c)%D.
Proof. destruct a, b, c; simpl; try done. lia. Qed.

(** [!=] is false exactly between a number and itself. *)
Lemma double_ne_false a b : double_ne a b = false ↔ a = b ∧ a ≠ NaN.
Proof.
  destruct a as [x|], b as [y|]; simpl; try (split; [done|by intros [? ?]]).
  rewrite negb_false_iff, Z.eqb_eq. split.
  - by intros ->.
  - by intros [[= ->] _].
Qed.

(** The two comparators. *)
Lemma greater_irrefl a : greater a a = false.
Proof. apply double_lt_irrefl. Qed.
Lemma greater_trans a b c :
  greater a b = true → greater b c = true → greater a c = true.
Proof. unfold greater. eauto using double_lt_trans. Qed.
Lemma greater_total a b :
  a ≠ NaN → b ≠ NaN → greater a b = false → greater b a = false → a = b.
Proof. unfold greater. intros. by apply double_lt_total. Qed.
Lemma less_irrefl a : less a a = false.
Proof. apply double_lt_irrefl. Qed.
Lemma less_trans a b c : less a b = true → less b c = true → less a c = true.
Proof. apply double_lt_trans. Qed.
Lemma less_total a b :
  a ≠ NaN → b ≠ NaN → less a b = false → less b a = false → a = b.
Proof. apply double_lt_total. Qed.

Lemma erase_if_empty_handles k q rest :
  side_handles (erase_if_empty k q rest) = q ++ side_handles rest.
Proof. by destruct q. Qed.

Lemma erase_if_empty_keys k q rest x :
  x ∈ (erase_if_empty k q rest).*1 → x = k ∨ x ∈ rest.*1.
Proof. destruct q; csimpl; rewrite ?elem_of_cons; auto. Qed.

Lemma erase_if_empty_sorted before k q q0 rest :
  keys_sorted before ((k, q0) :: rest) → keys_sorted before (erase_if_empty k q rest).
Proof.
  unfold keys_sorted. csimpl. intros Hs. destruct q; csimpl; [|done].
  by apply StronglySorted_inv in Hs as [Hs _].
Qed.

Lemma erase_if_empty_ok P k q rest :
  Forall (P k) q → levels_ok P rest → levels_ok P (erase_if_empty k q rest).
Proof.
  unfold levels_ok. intros Hq Hrest. destruct q; csimpl; [done|].
  constructor; [|done]. by split.
Qed.

Lemma side_handles_cons k q rest :
  side_handles ((k, q) :: rest) = q ++ side_handles rest.
Proof. done. Qed.

Lemma levels_ok_handles P m h :
  levels_ok P m → h ∈ side_handles m → ∃ k, k ∈ m.*1 ∧ P k h.
Proof.
  unfold levels_ok. rewrite Forall_forall. intros Hm Hh.
  apply elem_of_side_handles in Hh as (k & q & Hin & Hh).
  exists k. split.
  - apply list_elem_of_fmap. by exists (k, q).
  - destruct (Hm _ Hin) as [_ Hq]. rewrite Forall_forall in Hq. by apply Hq.
Qed.

Lemma levels_ok_impl (P Q : double -> handle -> Prop) m :
  (∀ k h, h ∈ side_handles m → P k h → Q k h) → levels_ok P m → levels_ok Q m.
Proof.
  unfold levels_ok. rewrite !Forall_forall. intros Himp Hm [k q] Hin.
  destruct (Hm _ Hin) as [Hne Hq]. split; [done|]. simpl in *.
  rewrite Forall_forall in *. intros h Hh. apply Himp; [|auto].
  apply elem_of_side_handles. eauto.
Qed.

(** Orders whose price, side and id are untouched stay where they belong. *)
Lemma levels_ok_frame ob ob' side m :
  (∀ h, h ∈ side_handles m →
        price (deref ob' h) = price (deref ob h) ∧
        is_buy (deref ob' h) = is_buy (deref ob h)) →
  levels_ok (order_at ob side) m → levels_ok (order_at ob' side) m.
Proof.
  intros Hsame. apply levels_ok_impl. intros k h Hh [Hp Hs].
  destruct (Hsame h Hh) as [E1 E2]. unfold order_at. by rewrite E1, E2.
Qed.

(** ** The monad computes *)

Lemma bind_modify {B} f (k : unit -> M B) ob :
  bind (modify f) k ob = k tt (f ob).
Proof. unfold bind, modify. by destruct (k tt (f ob)). Qed.

Lemma bind_get {B} (k : OrderBook -> M B) ob :
  (let* x := get in k x) ob = k ob ob.
Proof. unfold bind, get. by destruct (k ob ob). Qed.

(** ** One pass of the matching loop, component by component *)

Lemma try_match_iter_spec ob t ob' :
  try_match_iter ob = Some (t, ob') →
  ∃ pb hb bt br pa ha at' ar,
    bids ob = (pb, hb :: bt) :: br ∧
    asks ob = (pa, ha :: at') :: ar ∧
    double_lt pb pa = false ∧
    let qb := quantity (deref ob hb) in
    let qa := quantity (deref ob ha) in
    let m := Z.min qb qa in
    t = mkTrade m
          (if timestamp_ns (deref ob hb) <? timestamp_ns (deref ob ha)
           then price (deref ob hb) else price (deref ob ha))
          (order_id (deref ob hb)) (order_id (deref ob ha)) ∧
    (hb ≠ ha →
     let qb' := wrap64 (qb - m) in
     let qa' := wrap64 (qa - m) in
     memory (pool ob') =
       <[ha := set_quantity qa' (deref ob ha)]>
         (<[hb := set_quantity qb' (deref ob hb)]> (memory (pool ob))) ∧
     capacity (pool ob') = capacity (pool ob) ∧
     bids ob' = (if qb' =? 0 then erase_if_empty pb bt br else bids ob) ∧
     asks ob' = (if qa' =? 0 then erase_if_empty pa at' ar else asks ob) ∧
     free_list (pool ob') =
       free_list (pool ob) ++ (if qb' =? 0 then [hb] else [])
                           ++ (if qa' =? 0 then [ha] else []) ∧
     order_lookup ob' =
       (if qa' =? 0 then delete (order_id (deref ob ha)) else id)
         ((if qb' =? 0 then delete (order_id (deref ob hb)) else id) (order_lookup ob))).
Proof.
  unfold try_match_iter. intros H.
  destruct (bids ob) as [|[pb [|hb bt]] br] eqn:Hbids; try done;
  destruct (asks ob) as [|[pa [|ha at']] ar] eqn:Hasks; try done;
  destruct (double_lt pb pa) eqn:Hcross; try done.
  exists pb, hb, bt, br, pa, ha, at', ar.
  split; [done|]. split; [done|]. split; [done|].
  cbv zeta in *.
  split.
  - repeat match type of H with context [if ?c then _ else _] => destruct c end;
      by inversion H.
  - intros Hne.
    unfold deref, store, with_memory, with_free_list, with_lookup, with_bids, with_asks in H.
    unfold deref.
    repeat first
      [ rewrite fn_lookup_insert in H
      | rewrite (fn_lookup_insert_ne _ hb ha) in H by done
      | rewrite (fn_lookup_insert_ne _ ha hb) in H by done
      | progress simpl in H
      | match type of H with
        | context [if ?c =? 0 then _ else _] => destruct (c =? 0) eqn:?
        end ];
      inversion H; subst; simpl;
      rewrite ?Hbids, ?Hasks, ?app_nil_r, <- ?app_assoc; done.
Qed.

Lemma levels_ok_pop P k h q rest :
  levels_ok P ((k, h :: q) :: rest) → levels_ok P (erase_if_empty k q rest).
Proof.
  unfold levels_ok. intros [[_ Hq] Hrest]%Forall_cons. simpl in *.
  apply Forall_cons in Hq as [_ Hq]. by apply erase_if_empty_ok.
Qed.

(** When no slot is queued twice, the two heads are different slots. *)
Lemma heads_distinct ob pb hb bt br pa ha at' ar :
  NoDup (slots ob) →
  bids ob = (pb, hb :: bt) :: br →
  asks ob = (pa, ha :: at') :: ar →
  hb ≠ ha.
Proof.
  intros Hnd Hb Ha ->.
  unfold slots, book_handles in Hnd. rewrite Hb, Ha, !side_handles_cons in Hnd.
  apply NoDup_app in Hnd as [Hnd _]. apply NoDup_app in Hnd as (_ & Hdisj & _).
  apply (Hdisj ha); by left.
Qed.

Lemma wf_heads_distinct ob pb hb bt br pa ha at' ar :
  wf ob →
  bids ob = (pb, hb :: bt) :: br →
  asks ob = (pa, ha :: at') :: ar →
  hb ≠ ha.
Proof. intros Hwf. apply heads_distinct, (wf_nodup _ Hwf). Qed.

(** A pass moves slots from the FIFOs to the free list and nowhere else. *)
Lemma try_match_iter_slots ob t ob' :
  NoDup (slots ob) → try_match_iter ob = Some (t, ob') →
  slots ob' ≡ₚ slots ob ∧ capacity (pool ob') = capacity (pool ob).
Proof.
  intros Hnd Hit.
  apply try_match_iter_spec in Hit
    as (pb & hb & bt & br & pa & ha & at' & ar & Hb & Ha & _ & _ & Hrest).
  assert (hb ≠ ha) as Hne by eauto using heads_distinct.
  destruct (Hrest Hne) as (_ & Hcap & Hb' & Ha' & Hfl & _). clear Hrest.
  cbv zeta in *. split; [|done].
  set (qb' := wrap64 (quantity (deref ob hb) - _)) in *.
  set (qa' := wrap64 (quantity (deref ob ha) - _)) in *.
  unfold slots, book_handles. rewrite Hb', Ha', Hfl, Hb, Ha.
  destruct (qb' =? 0), (qa' =? 0); cbv iota;
    rewrite ?erase_if_empty_handles, ?side_handles_cons; solve_Permutation.
Qed.

Lemma try_match_iter_distinct ob t ob' :
  NoDup (slots ob) → try_match_iter ob = Some (t, ob') → NoDup (slots ob').
Proof.
  intros Hnd Hit. destruct (try_match_iter_slots _ _ _ Hnd Hit) as [Hperm _].
  by rewrite Hperm.
Qed.

(** What one pass does to the memory: only the quantities of the two heads
    change. *)
Lemma try_match_iter_memory ob t ob' h :
  try_match_iter ob = Some (t, ob') →
  (best_bid_head ob ≠ best_ask_head ob) →
  order_id (deref ob' h) = order_id (deref ob h) ∧
  is_buy (deref ob' h) = is_buy (deref ob h) ∧
  price (deref ob' h) = price (deref ob h) ∧
  timestamp_ns (deref ob' h) = timestamp_ns (deref ob h) ∧
  (Some h ≠ best_bid_head ob → Some h ≠ best_ask_head ob →
   deref ob' h = deref ob h).
Proof.
  intros Hit Hne.
  apply try_match_iter_spec in Hit
    as (pb & hb & bt & br & pa & ha & at' & ar & Hb & Ha & _ & _ & Hrest).
  unfold best_bid_head, best_ask_head in *. rewrite Hb, Ha in *.
  destruct Hrest as (Hmem & _); [congruence|].
  unfold deref. rewrite Hmem.
  destruct (decide (ha = h)) as [->|Hha].
  { rewrite fn_lookup_insert. simpl. repeat split; congruence. }
  rewrite fn_lookup_insert_ne by done.
  destruct (decide (hb = h)) as [->|Hhb].
  { rewrite fn_lookup_insert. simpl. repeat split; congruence. }
  rewrite fn_lookup_insert_ne by done. done.
Qed.

Lemma try_match_iter_wf ob t ob' :
  wf ob → try_match_iter ob = Some (t, ob') → wf ob'.
Proof.
  intros Hwf Hit.
  pose proof Hit as Hspec.
  apply try_match_iter_spec in Hspec
    as (pb & hb & bt & br & pa & ha & at' & ar & Hb & Ha & Hcross & _ & Hrest).
  assert (hb ≠ ha) as Hne by eauto using wf_heads_distinct.
  assert (Hmem : ∀ h, order_id (deref ob' h) = order_id (deref ob h) ∧
                      is_buy (deref ob' h) = is_buy (deref ob h) ∧
                      price (deref ob' h) = price (deref ob h)).
  { intros h. eapply try_match_iter_memory in Hit as (? & ? & ? & _); [done|].
    unfold best_bid_head, best_ask_head. rewrite Hb, Ha. congruence. }
  destruct (Hrest Hne) as (_ & _ & Hb' & Ha' & Hfl & Hlk). clear Hrest.
  cbv zeta in *.
  set (qb' := wrap64 (quantity (deref ob hb) - _)) in *.
  set (qa' := wrap64 (quantity (deref ob ha) - _)) in *.
  destruct Hwf as [Hbs Has Hbok Haok Hnd Hlook].
  assert (Hbok' : levels_ok (order_at ob' true) (bids ob)).
  { eapply levels_ok_frame; [|done]. intros h _. by destruct (Hmem h) as (_ & ? & ?). }
  assert (Haok' : levels_ok (order_at ob' false) (asks ob)).
  { eapply levels_ok_frame; [|done]. intros h _. by destruct (Hmem h) as (_ & ? & ?). }
  assert (Hperm : book_handles ob' ++ free_list (pool ob')
                  ≡ₚ book_handles ob ++ free_list (pool ob)).
  { unfold book_handles. rewrite Hb', Ha', Hfl, Hb, Ha.
    destruct (qb' =? 0), (qa' =? 0); cbv iota;
      rewrite ?erase_if_empty_handles, ?side_handles_cons; solve_Permutation. }
  assert (Hsub : ∀ h, h ∈ book_handles ob →
            h ∈ book_handles ob' ∨
            (h = hb ∧ (qb' =? 0) = true) ∨ (h = ha ∧ (qa' =? 0) = true)).
  { unfold book_handles. rewrite Hb', Ha', Hb, Ha. intros h.
    destruct (qb' =? 0), (qa' =? 0); cbv iota;
      rewrite ?erase_if_empty_handles, ?side_handles_cons;
      rewrite ?elem_of_app, ?elem_of_cons, ?elem_of_app; intuition auto. }
  split.
  - rewrite Hb'. destruct (qb' =? 0); [|done].
    rewrite Hb in Hbs. by eapply erase_if_empty_sorted.
  - rewrite Ha'. destruct (qa' =? 0); [|done].
    rewrite Ha in Has. by eapply erase_if_empty_sorted.
  - rewrite Hb'. destruct (qb' =? 0); [|done].
    rewrite Hb in Hbok'. by eapply levels_ok_pop.
  - rewrite Ha'. destruct (qa' =? 0); [|done].
    rewrite Ha in Haok'. by eapply levels_ok_pop.
  - by rewrite Hperm.
  - intros id h Hid.
    assert (order_lookup ob !! id = Some h ∧
            ((qb' =? 0) = true → id ≠ order_id (deref ob hb)) ∧
            ((qa' =? 0) = true → id ≠ order_id (deref ob ha))) as (Hold & Hnb & Hna).
    { rewrite Hlk in Hid. destruct (qb' =? 0), (qa' =? 0); simpl in Hid;
        rewrite ?lookup_delete_Some in Hid; intuition congruence. }
    destruct (Hlook _ _ Hold) as [Hin Hidh].
    split; [|by destruct (Hmem h) as (-> & _)].
    destruct (Hsub _ Hin) as [?|[[-> Hq]|[-> Hq]]]; [done| |].
    + by destruct (Hnb Hq).
    + by destruct (Hna Hq).
Qed.

(** A pass that stays in the loop takes an entry out of a FIFO, unless both
    heads are the same slot. *)
Lemma try_match_iter_progress ob t ob' :
  try_match_iter ob = Some (t, ob') →
  best_bid_head ob ≠ best_ask_head ob →
  (book_size ob' < book_size ob)%nat.
Proof.
  intros Hit Hne.
  apply try_match_iter_spec in Hit
    as (pb & hb & bt & br & pa & ha & at' & ar & Hb & Ha & _ & _ & Hrest).
  unfold best_bid_head, best_ask_head in Hne. rewrite Hb, Ha in Hne.
  destruct Hrest as (_ & _ & Hb' & Ha' & _); [congruence|].
  cbv zeta in *.
  set (qb := quantity (deref ob hb)) in *.
  set (qa := quantity (deref ob ha)) in *.
  unfold book_size, book_handles. rewrite Hb', Ha', Hb, Ha.
  assert (wrap64 (qb - qb `min` qa) = 0 ∨ wrap64 (qa - qb `min` qa) = 0) as Hz.
  { unfold wrap64. destruct (Z.min_spec qb qa) as [[_ ->]|[_ ->]];
      rewrite Z.sub_diag; auto. }
  destruct Hz as [Hz|Hz]; apply Z.eqb_eq in Hz; rewrite Hz.
  - destruct (wrap64 (qa - qb `min` qa) =? 0); cbv iota;
      rewrite ?erase_if_empty_handles, ?side_handles_cons, ?length_app;
      simpl; rewrite ?length_app; lia.
  - destruct (wrap64 (qb - qb `min` qa) =? 0); cbv iota;
      rewrite ?erase_if_empty_handles, ?side_handles_cons, ?length_app;
      simpl; rewrite ?length_app; lia.
Qed.

(** The loop keeps every property that a pass keeps, comes back within the
    fuel [try_match] gives it, and comes back through a [break] or a false
    loop condition. *)
Lemma try_match_loop_inv (I : OrderBook -> Prop) :
  (∀ ob t ob', wf ob → I ob → try_match_iter ob = Some (t, ob') → I ob') →
  ∀ fuel ob,
    wf ob → I ob → (book_size ob < fuel)%nat →
    ∃ ob' out,
      try_match_loop fuel ob = Returned tt ob' out ∧
      wf ob' ∧ I ob' ∧ try_match_iter ob' = None ∧
      (length out + book_size ob' <= book_size ob)%nat.
Proof.
  intros Hstep. induction fuel as [|fuel IH]; intros ob Hwf HI Hlt; [lia|].
  simpl. destruct (try_match_iter ob) as [[t ob1]|] eqn:Hit.
  - assert (book_size ob1 < book_size ob)%nat as Hdec.
    { eapply try_match_iter_progress; [done|].
      apply try_match_iter_spec in Hit
        as (pb & hb & bt & br & pa & ha & at' & ar & Hb & Ha & _).
      unfold best_bid_head, best_ask_head. rewrite Hb, Ha.
      intros [=]. by eapply wf_heads_distinct. }
    destruct (IH ob1) as (ob' & out & Hrun & Hwf' & HI' & Hend & Hlen);
      [by eapply try_match_iter_wf|by eapply Hstep|lia|].
    exists ob', (t :: out). unfold bind, emit. rewrite Hrun.
    split_and!; try done. cbn [length]. lia.
  - exists ob, []. split_and!; try done.
Qed.

(** The same for a book that need not be consistent, as long as no slot is
    queued twice or queued while free. *)
Lemma try_match_loop_distinct (I : OrderBook -> Prop) :
  (∀ ob t ob', NoDup (slots ob) → I ob → try_match_iter ob = Some (t, ob') → I ob') →
  ∀ fuel ob,
    NoDup (slots ob) → I ob → (book_size ob < fuel)%nat →
    ∃ ob' out,
      try_match_loop fuel ob = Returned tt ob' out ∧
      NoDup (slots ob') ∧ I ob' ∧ try_match_iter ob' = None ∧
      (length out + book_size ob' <= book_size ob)%nat.
Proof.
  intros Hstep. induction fuel as [|fuel IH]; intros ob Hnd HI Hlt; [lia|].
  simpl. destruct (try_match_iter ob) as [[t ob1]|] eqn:Hit.
  - assert (book_size ob1 < book_size ob)%nat as Hdec.
    { eapply try_match_iter_progress; [done|].
      apply try_match_iter_spec in Hit
        as (pb & hb & bt & br & pa & ha & at' & ar & Hb & Ha & _).
      unfold best_bid_head, best_ask_head. rewrite Hb, Ha.
      intros [=]. by eapply heads_distinct. }
    destruct (IH ob1) as (ob' & out & Hrun & Hnd' & HI' & Hend & Hlen);
      [by eapply try_match_iter_distinct|by eapply Hstep|lia|].
    exists ob', (t :: out). unfold bind, emit. rewrite Hrun.
    split_and!; try done. cbn [length]. lia.
  - exists ob, []. split_and!; try done.
Qed.


(** *** The fuel of [try_match] is exact *)

Lemma wrap64_idemp z : wrap64 (wrap64 z) = wrap64 z.
Proof. unfold wrap64. by rewrite Z.mod_mod. Qed.






Lemma try_match_inv (I : OrderBook -> Prop) ob :
  (∀ ob t ob', wf ob → I ob → try_match_iter ob = Some (t, ob') → I ob') →
  wf ob → I ob →
  ∃ ob' out,
    try_match ob = Returned tt ob' out ∧
    wf ob' ∧ I ob' ∧ try_match_iter ob' = None ∧
    (length out + book_size ob' <= book_size ob)%nat.
Proof. intros Hstep Hwf HI. apply try_match_loop_inv; auto. Qed.

(** *** What the loop keeps whatever the prices are *)

(** What one pass does to the two sides, on any book: each side loses the
    head of its best level, and the level with it when that was its only
    order, or stays as it is. *)
Lemma try_match_iter_levels ob t ob' :
  try_match_iter ob = Some (t, ob') →
  ∃ pb hb bt br pa ha at' ar,
    bids ob = (pb, hb :: bt) :: br ∧ asks ob = (pa, ha :: at') :: ar ∧
    (bids ob' = erase_if_empty pb bt br ∨ bids ob' = bids ob) ∧
    (asks ob' = erase_if_empty pa at' ar ∨ asks ob' = asks ob).
Proof.
  unfold try_match_iter. intros H.
  destruct (bids ob) as [|[pb [|hb bt]] br] eqn:Hbids; try done;
  destruct (asks ob) as [|[pa [|ha at']] ar] eqn:Hasks; try done;
  destruct (double_lt pb pa) eqn:Hcross; try done.
  exists pb, hb, bt, br, pa, ha, at', ar. split; [done|]. split; [done|].
  cbv zeta in H.
  repeat match type of H with
         | context [if ?c =? 0 then _ else _] => destruct (c =? 0)
         end;
    simpl in H; injection H as _ <-; simpl; auto.
Qed.

Lemma try_match_iter_keys ob t ob' :
  try_match_iter ob = Some (t, ob') →
  (∀ k, k ∈ (bids ob').*1 → k ∈ (bids ob).*1) ∧
  (∀ k, k ∈ (asks ob').*1 → k ∈ (asks ob).*1).
Proof.
  intros Hit.
  apply try_match_iter_levels in Hit
    as (pb & hb & bt & br & pa & ha & at' & ar & Hb & Ha & Hb' & Ha').
  split; intros k.
  - destruct Hb' as [->| ->]; [|done]. rewrite Hb.
    intros [->|Hk]%erase_if_empty_keys; csimpl; rewrite elem_of_cons; auto.
  - destruct Ha' as [->| ->]; [|done]. rewrite Ha.
    intros [->|Hk]%erase_if_empty_keys; csimpl; rewrite elem_of_cons; auto.
Qed.

Lemma try_match_iter_no_nan ob t ob' :
  try_match_iter ob = Some (t, ob') → no_nan_level ob → no_nan_level ob'.
Proof.
  intros Hit [Hb Ha]. destruct (try_match_iter_keys _ _ _ Hit) as [Hkb Hka].
  split; auto.
Qed.

Lemma wf_shaped ob : wf ob → shaped ob.
Proof.
  intros [Hbs Has Hbok Haok _ _].
  split; try done; (eapply Forall_impl; [eassumption|]; by intros l [? _]).
Qed.

Lemma shaped_frame ob ob' :
  bids ob' = bids ob → asks ob' = asks ob → shaped ob → shaped ob'.
Proof. intros Hb Ha [? ? ? ?]. split; by rewrite ?Hb, ?Ha. Qed.

Lemma erase_if_empty_nonempty k q (q0 : list handle) rest :
  Forall (λ l : double * list handle, l.2 ≠ []) ((k, q0) :: rest) →
  Forall (λ l : double * list handle, l.2 ≠ []) (erase_if_empty k q rest).
Proof. intros [_ Hrest]%Forall_cons. destruct q; [done|]. by constructor. Qed.

Lemma try_match_iter_shaped ob t ob' :
  shaped ob → try_match_iter ob = Some (t, ob') → shaped ob'.
Proof.
  intros [Hbs Has Hbn Han] Hit.
  apply try_match_iter_levels in Hit
    as (pb & hb & bt & br & pa & ha & at' & ar & Hb & Ha & Hb' & Ha').
  split.
  - destruct Hb' as [->| ->]; [|done]. rewrite Hb in Hbs. by eapply erase_if_empty_sorted.
  - destruct Ha' as [->| ->]; [|done]. rewrite Ha in Has. by eapply erase_if_empty_sorted.
  - destruct Hb' as [->| ->]; [|done]. rewrite Hb in Hbn. by eapply erase_if_empty_nonempty.
  - destruct Ha' as [->| ->]; [|done]. rewrite Ha in Han. by eapply erase_if_empty_nonempty.
Qed.

Lemma try_match_loop_not_thrown fuel ob ob' out :
  try_match_loop fuel ob ≠ Thrown ob' out.
Proof.
  revert ob ob' out. induction fuel as [|fuel IH]; intros ob ob' out; [done|]. simpl.
  destruct (try_match_iter ob) as [[t ob1]|]; [|done].
  unfold bind, emit.
  destruct (try_match_loop fuel ob1) as [[] ob2 out2|ob2 out2|] eqn:Hrun; try done.
  by destruct (IH ob1 ob2 out2).
Qed.

(** When the loop comes back, it has come back through a [break] or a false
    loop condition, and the sides are still in shape. *)
Lemma try_match_loop_shaped fuel ob ob' out :
  shaped ob → try_match_loop fuel ob = Returned tt ob' out →
  shaped ob' ∧ try_match_iter ob' = None.
Proof.
  revert ob out. induction fuel as [|fuel IH]; intros ob out Hsh; [done|]. simpl.
  destruct (try_match_iter ob) as [[t ob1]|] eqn:Hit.
  - unfold bind, emit.
    destruct (try_match_loop fuel ob1) as [[] ob2 out2| |] eqn:Hrun; try done.
    intros [= <- <-]. eapply IH; [|exact Hrun]. by eapply try_match_iter_shaped.
  - by intros [= <- <-].
Qed.

(** Leaving the loop means the book is not crossed. *)
Lemma shaped_iter_None_uncrossed ob :
  shaped ob → try_match_iter ob = None → uncrossed ob.
Proof.
  intros [Hbs Has Hbok Haok]. unfold try_match_iter, uncrossed.
  destruct (bids ob) as [|[pb qb] br]; [by intros _ b a ?%elem_of_nil|].
  destruct (asks ob) as [|[pa qa] ar]; [by intros _ b a _ ?%elem_of_nil|].
  unfold keys_sorted in *. csimpl in *.
  apply StronglySorted_inv in Hbs as [_ Hbs].
  apply StronglySorted_inv in Has as [_ Has].
  rewrite Forall_forall in Hbs, Has. unfold greater, less in *.
  destruct (double_lt pb pa) eqn:Hlt.
  - intros _ b a Hb Ha.
    assert (b < pa)%D as Hbpa.
    { apply elem_of_cons in Hb as [->|Hb]; [done|]. apply Hbs in Hb.
      by eapply double_lt_trans. }
    apply elem_of_cons in Ha as [->|Ha]; [done|]. apply Has in Ha.
    by eapply double_lt_trans.
  - apply Forall_cons in Hbok as [Hqb _].
    apply Forall_cons in Haok as [Hqa _]. simpl in *.
    destruct qb as [|hb bt]; [done|]. destruct qa as [|ha at']; [done|].
    cbv zeta.
    repeat match goal with |- context [if ?c =? 0 then _ else _] => destruct (c =? 0) end;
      done.
Qed.

Lemma try_match_iter_None_uncrossed ob :
  wf ob → try_match_iter ob = None → uncrossed ob.
Proof. intros Hwf. by apply shaped_iter_None_uncrossed, wf_shaped. Qed.

Lemma add_order_unfold now order ob :
  add_order now order ob =
  match last (free_list (pool ob)) with
  | None => Thrown ob []
  | Some h =>
      try_match (inserted now order h
                   (with_free_list (removelast (free_list (pool ob))) ob))
  end.
Proof.
  unfold add_order, bind at 1, allocate.
  destruct (last (free_list (pool ob))) as [h|]; [|done].
  set (ob1 := with_free_list _ ob).
  rewrite !bind_modify. unfold inserted. by destruct (try_match _).
Qed.

Lemma cancel_order_unfold id ob :
  cancel_order id ob =
  match order_lookup ob !! id with
  | None => Returned false ob []
  | Some h => Returned true (cancelled id h ob) []
  end.
Proof.
  unfold cancel_order. rewrite bind_get.
  destruct (order_lookup ob !! id) as [h|]; [|done].
  unfold remove_order_from_book, deallocate. by rewrite !bind_modify.
Qed.

Lemma amend_order_unfold now now' id p q ob :
  amend_order now now' id p q ob =
  match order_lookup ob !! id with
  | None => Returned false ob []
  | Some h =>
      if double_ne (price (deref ob h)) p
      then
        match add_order now'
                (set_timestamp now (set_quantity q (set_price p (deref ob h))))
                (cancelled id h ob) with
        | Returned _ ob' out => Returned true ob' out
        | Thrown ob' out => Thrown ob' out
        | Diverged => Diverged
        end
      else Returned true (store h (set_quantity q (deref ob h)) ob) []
  end.
Proof.
  unfold amend_order. rewrite bind_get.
  destruct (order_lookup ob !! id) as [h|] eqn:Hid; [|done].
  destruct (double_ne (price (deref ob h)) p); simpl.
  - unfold bind at 1. unfold bind at 1. rewrite cancel_order_unfold, Hid.
    destruct (add_order _ _ _) as [[] ob' out| |]; simpl; try done.
    by rewrite app_nil_r.
  - by rewrite bind_modify.
Qed.

Lemma get_snapshot_unfold depth b a ob :
  get_snapshot depth b a ob =
  Returned (snapshot_side ob depth 0 (bids ob) [],
            snapshot_side ob depth 0 (asks ob) []) ob [].
Proof. done. Qed.

(** ** [add_order] up to the matching loop *)

(** Unfolds [inserted] down to the two cases of the timestamp test and the
    two sides. *)
Ltac inserted_cases order :=
  unfold inserted, stamped, deref, store, with_memory; simpl;
  rewrite fn_lookup_insert;
  destruct (timestamp_ns order =? 0); simpl;
  rewrite ?fn_lookup_insert; destruct (is_buy _); simpl.

Lemma inserted_deref now order h ob :
  deref (inserted now order h ob) h = stamped now order.
Proof. inserted_cases order; by rewrite ?fn_lookup_insert. Qed.

Lemma inserted_deref_ne now order h ob h' :
  h ≠ h' → deref (inserted now order h ob) h' = deref ob h'.
Proof. intros Hne. inserted_cases order; by rewrite ?fn_lookup_insert_ne by done. Qed.

Lemma stamped_fields now order :
  order_id (stamped now order) = order_id order ∧
  is_buy (stamped now order) = is_buy order ∧
  price (stamped now order) = price order ∧
  quantity (stamped now order) = quantity order.
Proof. unfold stamped. by destruct (timestamp_ns order =? 0). Qed.

Lemma inserted_free_list now order h ob :
  free_list (pool (inserted now order h ob)) = free_list (pool ob).
Proof. by inserted_cases order. Qed.

Lemma inserted_capacity now order h ob :
  capacity (pool (inserted now order h ob)) = capacity (pool ob).
Proof. by inserted_cases order. Qed.

Lemma inserted_lookup now order h ob :
  order_lookup (inserted now order h ob) = <[order_id order := h]> (order_lookup ob).
Proof. by inserted_cases order. Qed.

Lemma inserted_bids now order h ob :
  bids (inserted now order h ob) =
  if is_buy order then level_push_back greater (price order) h (bids ob) else bids ob.
Proof.
  unfold inserted, deref, store, with_memory. simpl. rewrite fn_lookup_insert.
  destruct (timestamp_ns order =? 0); simpl;
    rewrite ?fn_lookup_insert; by destruct (is_buy _).
Qed.

Lemma inserted_asks now order h ob :
  asks (inserted now order h ob) =
  if is_buy order then asks ob else level_push_back less (price order) h (asks ob).
Proof.
  unfold inserted, deref, store, with_memory. simpl. rewrite fn_lookup_insert.
  destruct (timestamp_ns order =? 0); simpl;
    rewrite ?fn_lookup_insert; by destruct (is_buy _).
Qed.

Lemma inserted_handles now order h ob :
  book_handles (inserted now order h ob) ≡ₚ h :: book_handles ob.
Proof.
  unfold book_handles. rewrite inserted_bids, inserted_asks.
  destruct (is_buy order).
  - by rewrite (level_push_back_handles greater).
  - rewrite (level_push_back_handles less). solve_Permutation.
Qed.

Lemma last_removelast {A} (l : list A) x :
  last l = Some x → l = removelast l ++ [x].
Proof.
  intros [l' ->]%last_Some. by rewrite removelast_last.
Qed.

(** The keys of a side after [operator[]]. *)
Lemma inserted_keys now order h ob :
  (∀ k, k ∈ (bids (inserted now order h ob)).*1 →
        (is_buy order = true ∧ k = price order) ∨ k ∈ (bids ob).*1) ∧
  (∀ k, k ∈ (asks (inserted now order h ob)).*1 →
        (is_buy order = false ∧ k = price order) ∨ k ∈ (asks ob).*1).
Proof.
  rewrite inserted_bids, inserted_asks.
  destruct (is_buy order); split; intros k Hk; auto;
    apply level_push_back_keys in Hk as [->|Hk]; auto.
Qed.

Lemma inserted_no_nan now order h ob :
  price order ≠ NaN → no_nan_level ob → no_nan_level (inserted now order h ob).
Proof.
  intros Hp [Hb Ha]. destruct (inserted_keys now order h ob) as [Hkb Hka].
  split; intros Hin.
  - apply Hkb in Hin as [[_ Hk]|Hin]; [by apply Hp|by apply Hb].
  - apply Hka in Hin as [[_ Hk]|Hin]; [by apply Hp|by apply Ha].
Qed.

Lemma inserted_wf now order h ob :
  wf ob →
  price order ≠ NaN → no_nan_level ob →
  last (free_list (pool ob)) = Some h →
  wf (inserted now order h (with_free_list (removelast (free_list (pool ob))) ob)).
Proof.
  intros [Hbs Has Hbok Haok Hnd Hlook] Hnum [Hnb Hna] Hlast.
  set (ob1 := with_free_list _ ob). set (ob' := inserted now order h ob1).
  apply last_removelast in Hlast.
  assert (Hfresh : h ∉ book_handles ob).
  { rewrite Hlast in Hnd. apply NoDup_app in Hnd as (_ & Hdisj & _).
    intros Hin. apply (Hdisj _ Hin). rewrite elem_of_app, list_elem_of_singleton. auto. }
  assert (Hold : ∀ g, g ∈ book_handles ob → deref ob' g = deref ob g).
  { intros g Hg. unfold ob'. rewrite inserted_deref_ne; [done|]. by intros ->. }
  destruct (stamped_fields now order) as (Hsid & Hsbuy & Hsprice & _).
  assert (Hbok' : levels_ok (order_at ob' true) (bids ob)).
  { eapply levels_ok_frame; [|done]. intros g Hg. rewrite Hold; [done|].
    unfold book_handles. rewrite elem_of_app. auto. }
  assert (Haok' : levels_ok (order_at ob' false) (asks ob)).
  { eapply levels_ok_frame; [|done]. intros g Hg. rewrite Hold; [done|].
    unfold book_handles. rewrite elem_of_app. auto. }
  split.
  - unfold ob'. rewrite inserted_bids. destruct (is_buy order); [|done].
    by apply (level_push_back_sorted _ greater_trans).
  - unfold ob'. rewrite inserted_asks. destruct (is_buy order); [done|].
    by apply (level_push_back_sorted _ less_trans).
  - subst ob'. rewrite inserted_bids. destruct (is_buy order) eqn:Hside; [|done].
    apply (level_push_back_ok _ greater_total); [done..| |done].
    unfold order_at. rewrite inserted_deref. by rewrite Hsprice, Hsbuy.
  - subst ob'. rewrite inserted_asks. destruct (is_buy order) eqn:Hside; [done|].
    apply (level_push_back_ok _ less_total); [done..| |done].
    unfold order_at. rewrite inserted_deref. by rewrite Hsprice, Hsbuy.
  - unfold ob'. rewrite inserted_handles, inserted_free_list. simpl.
    rewrite Hlast in Hnd.
    eapply (NoDup_Permutation_proper); [|exact Hnd]. solve_Permutation.
  - intros id g. unfold ob'. rewrite inserted_lookup. fold ob'.
    rewrite lookup_insert_Some. intros [[<- <-]|[Hne Hid]].
    + split.
      * unfold ob'. rewrite inserted_handles. by left.
      * unfold ob'. by rewrite inserted_deref.
    + destruct (Hlook _ _ Hid) as [Hin Hidg]. split.
      * unfold ob'. rewrite inserted_handles. by right.
      * by rewrite Hold.
Qed.

(** ** [cancel_order] *)

Lemma NoDup_filter_out (h : handle) (l : list handle) :
  NoDup l → h ∈ l → l ≡ₚ h :: filter (λ x, x ≠ h) l.
Proof.
  induction 1 as [|x l Hx Hnd IH]; [by intros ?%elem_of_nil|].
  intros [->|Hin]%elem_of_cons.
  - rewrite filter_cons_False by (by intros []).
    rewrite filter_all; [done|]. apply Forall_forall. by intros y Hy ->.
  - rewrite filter_cons_True by (by intros ->).
    rewrite (IH Hin) at 1. apply perm_swap.
Qed.

Lemma filter_out_absent (h : handle) (l : list handle) :
  h ∉ l → filter (λ x, x ≠ h) l = l.
Proof. intros Hh. apply filter_all, Forall_forall. by intros x Hx ->. Qed.

Lemma cancelled_deref id h ob g : deref (cancelled id h ob) g = deref ob g.
Proof. unfold cancelled, deref. by destruct (is_buy _). Qed.

(** The slot of a live order sits on the side its [is_buy] says, and only in
    the level of its price. *)
Lemma wf_side_of ob h :
  wf ob → h ∈ book_handles ob →
  if is_buy (deref ob h)
  then h ∈ side_handles (bids ob) ∧ h ∉ side_handles (asks ob)
  else h ∈ side_handles (asks ob) ∧ h ∉ side_handles (bids ob).
Proof.
  intros [_ _ Hbok Haok Hnd _] Hin.
  apply NoDup_app in Hnd as [Hnd _]. apply NoDup_app in Hnd as (_ & Hdisj & _).
  unfold book_handles in Hin. apply elem_of_app in Hin.
  destruct (is_buy (deref ob h)) eqn:Hside.
  - destruct Hin as [Hin|Hin]; [by auto|].
    apply (levels_ok_handles _ _ _ Haok) in Hin as (k & _ & _ & Hs). congruence.
  - destruct Hin as [Hin|Hin].
    + apply (levels_ok_handles _ _ _ Hbok) in Hin as (k & _ & _ & Hs). congruence.
    + split; [done|]. intros Hb. by apply (Hdisj _ Hb).
Qed.

Lemma levels_ok_level P m k q h :
  levels_ok P m → (k, q) ∈ m → h ∈ q → P k h.
Proof.
  unfold levels_ok. rewrite Forall_forall. intros Hm Hin Hh.
  destruct (Hm _ Hin) as [_ Hq]. rewrite Forall_forall in Hq. by apply Hq.
Qed.

Lemma cancelled_handles id h ob :
  wf ob → h ∈ book_handles ob →
  book_handles (cancelled id h ob) = filter (λ x, x ≠ h) (book_handles ob).
Proof.
  intros Hwf Hin. pose proof (wf_side_of _ _ Hwf Hin) as Hside.
  destruct Hwf as [Hbs Has Hbok Haok _ _].
  unfold cancelled, book_handles. rewrite filter_app.
  destruct (is_buy (deref ob h)); simpl; destruct Hside as [_ Hout].
  - rewrite (filter_out_absent _ _ Hout). f_equal.
    apply (level_remove_handles _ greater_irrefl); [done|].
    intros k q Hkq Hh. by destruct (levels_ok_level _ _ _ _ _ Hbok Hkq Hh).
  - rewrite (filter_out_absent _ _ Hout). f_equal.
    apply (level_remove_handles _ less_irrefl); [done|].
    intros k q Hkq Hh. by destruct (levels_ok_level _ _ _ _ _ Haok Hkq Hh).
Qed.

Lemma cancelled_keys id h ob :
  (∀ k, k ∈ (bids (cancelled id h ob)).*1 → k ∈ (bids ob).*1) ∧
  (∀ k, k ∈ (asks (cancelled id h ob)).*1 → k ∈ (asks ob).*1).
Proof.
  unfold cancelled. destruct (is_buy (deref ob h)); simpl; split; try done.
  - intros k. apply level_remove_keys.
  - intros k. apply level_remove_keys.
Qed.

Lemma cancelled_wf id h ob :
  wf ob → order_lookup ob !! id = Some h → wf (cancelled id h ob).
Proof.
  intros Hwf Hid. destruct (wf_lookup _ Hwf _ _ Hid) as [Hin Hidh].
  pose proof (cancelled_handles id h ob Hwf Hin) as Hhandles.
  destruct Hwf as [Hbs Has Hbok Haok Hnd Hlook].
  split.
  - unfold cancelled. destruct (is_buy (deref ob h)); simpl; [|done].
    by apply level_remove_sorted.
  - unfold cancelled. destruct (is_buy (deref ob h)); simpl; [done|].
    by apply level_remove_sorted.
  - eapply (levels_ok_frame ob); [intros g _; by rewrite cancelled_deref|].
    unfold cancelled. destruct (is_buy (deref ob h)); simpl; [|done].
    by apply level_remove_ok.
  - eapply (levels_ok_frame ob); [intros g _; by rewrite cancelled_deref|].
    unfold cancelled. destruct (is_buy (deref ob h)); simpl; [done|].
    by apply level_remove_ok.
  - rewrite Hhandles.
    assert (free_list (pool (cancelled id h ob)) = free_list (pool ob) ++ [h]) as ->.
    { unfold cancelled. by destruct (is_buy _). }
    eapply NoDup_Permutation_proper; [|exact Hnd].
    apply NoDup_app in Hnd as [Hnd _].
    rewrite (NoDup_filter_out h (book_handles ob)) at 2 by done.
    solve_Permutation.
  - intros id' g Hg.
    assert (order_lookup (cancelled id h ob) = delete id (order_lookup ob)) as Hlk.
    { unfold cancelled. by destruct (is_buy _). }
    rewrite Hlk in Hg. apply lookup_delete_Some in Hg as [Hne Hg].
    destruct (Hlook _ _ Hg) as [Hgin Hgid].
    rewrite cancelled_deref. split; [|done].
    rewrite Hhandles. apply list_elem_of_filter. split; [|done].
    intros ->. congruence.
Qed.

Lemma cancelled_uncrossed id h ob : uncrossed ob → uncrossed (cancelled id h ob).
Proof.
  intros Hun b a Hb Ha. destruct (cancelled_keys id h ob) as [Hkb Hka]. auto.
Qed.

(** ** [amend_order] in place *)

Lemma store_quantity_wf h q ob :
  wf ob → wf (store h (set_quantity q (deref ob h)) ob).
Proof.
  intros [Hbs Has Hbok Haok Hnd Hlook].
  assert (Hsame : ∀ g, order_id (deref (store h (set_quantity q (deref ob h)) ob) g)
                       = order_id (deref ob g) ∧
                       price (deref (store h (set_quantity q (deref ob h)) ob) g)
                       = price (deref ob g) ∧
                       is_buy (deref (store h (set_quantity q (deref ob h)) ob) g)
                       = is_buy (deref ob g)).
  { intros g. unfold deref, store, with_memory. simpl.
    destruct (decide (h = g)) as [->|Hne].
    - by rewrite fn_lookup_insert.
    - by rewrite fn_lookup_insert_ne. }
  split; try done.
  - eapply levels_ok_frame; [|exact Hbok]. intros g _. by destruct (Hsame g) as (_ & ? & ?).
  - eapply levels_ok_frame; [|exact Haok]. intros g _. by destruct (Hsame g) as (_ & ? & ?).
  - intros id g Hg. destruct (Hlook _ _ Hg) as [Hin Hid]. split; [done|].
    by destruct (Hsame g) as (-> & _).
Qed.

(** ** Quantities stay positive *)

Lemma try_match_iter_positive ob t ob' :
  NoDup (slots ob) → quantities_positive ob →
  try_match_iter ob = Some (t, ob') → quantities_positive ob'.
Proof.
  intros Hnd0 Hpos Hit.
  pose proof (try_match_iter_distinct _ _ _ Hnd0 Hit) as Hnd'.
  apply try_match_iter_spec in Hit
    as (pb & hb & bt & br & pa & ha & at' & ar & Hb & Ha & _ & _ & Hrest).
  assert (hb ≠ ha) as Hne by eauto using heads_distinct.
  destruct (Hrest Hne) as (Hmem & _ & Hb' & Ha' & Hfl & _). clear Hrest.
  cbv zeta in *.
  set (qb := quantity (deref ob hb)) in *.
  set (qa := quantity (deref ob ha)) in *.
  set (qb' := wrap64 (qb - _)) in *.
  set (qa' := wrap64 (qa - _)) in *.
  assert (0 < qb < 2 ^ 64) as Hqb.
  { apply Hpos. unfold book_handles. rewrite Hb, side_handles_cons.
    rewrite !elem_of_app, elem_of_cons. auto. }
  assert (0 < qa < 2 ^ 64) as Hqa.
  { apply Hpos. unfold book_handles. rewrite Ha, side_handles_cons.
    rewrite !elem_of_app, elem_of_cons. auto. }
  assert (qb' = qb - qb `min` qa) as Eb.
  { unfold qb', wrap64. apply Z.mod_small. lia. }
  assert (qa' = qa - qb `min` qa) as Ea.
  { unfold qa', wrap64. apply Z.mod_small. lia. }
  assert (Hsub : ∀ g, g ∈ book_handles ob' → g ∈ book_handles ob).
  { unfold book_handles. rewrite Hb', Ha', Hb, Ha. intros g.
    destruct (qb' =? 0), (qa' =? 0); cbv iota;
      rewrite ?erase_if_empty_handles, ?side_handles_cons;
      rewrite ?elem_of_app, ?elem_of_cons, ?elem_of_app; intuition auto. }
  assert (Hfree : ∀ g, g ∈ book_handles ob' → g ∉ free_list (pool ob')).
  { intros g Hg Hf. apply NoDup_app in Hnd' as (_ & Hdisj & _). by apply (Hdisj g). }
  intros g Hg. unfold deref. rewrite Hmem.
  destruct (decide (ha = g)) as [<-|Hag].
  { rewrite fn_lookup_insert. simpl.
    destruct (qa' =? 0) eqn:E; [|lia].
    destruct (Hfree _ Hg). rewrite Hfl, !elem_of_app, list_elem_of_singleton. auto. }
  rewrite fn_lookup_insert_ne by done.
  destruct (decide (hb = g)) as [<-|Hbg].
  { rewrite fn_lookup_insert. simpl.
    destruct (qb' =? 0) eqn:E; [|lia].
    destruct (Hfree _ Hg). rewrite Hfl, !elem_of_app, list_elem_of_singleton. auto. }
  rewrite fn_lookup_insert_ne by done. by apply Hpos, Hsub.
Qed.

Lemma inserted_positive now order h ob :
  NoDup (slots ob) → quantities_positive ob →
  last (free_list (pool ob)) = Some h →
  0 < quantity order < 2 ^ 64 →
  quantities_positive
    (inserted now order h (with_free_list (removelast (free_list (pool ob))) ob)).
Proof.
  intros Hnd Hpos Hlast Hq g Hg.
  rewrite inserted_handles in Hg. apply elem_of_cons in Hg as [->|Hg].
  - rewrite inserted_deref. by destruct (stamped_fields now order) as (_ & _ & _ & ->).
  - rewrite inserted_deref_ne; [by apply Hpos|].
    intros <-. apply last_removelast in Hlast.
    unfold slots in Hnd. rewrite Hlast in Hnd.
    apply NoDup_app in Hnd as (_ & Hdisj & _).
    apply (Hdisj _ Hg). rewrite elem_of_app, list_elem_of_singleton. auto.
Qed.

Lemma cancelled_positive id h ob :
  wf ob → order_lookup ob !! id = Some h →
  quantities_positive ob → quantities_positive (cancelled id h ob).
Proof.
  intros Hwf Hid Hpos g Hg. rewrite cancelled_deref. apply Hpos.
  destruct (wf_lookup _ Hwf _ _ Hid) as [Hin _].
  rewrite cancelled_handles in Hg by done.
  by apply list_elem_of_filter in Hg as [_ Hg].
Qed.

Lemma store_quantity_positive h q ob :
  quantities_positive ob → 0 < q < 2 ^ 64 →
  quantities_positive (store h (set_quantity q (deref ob h)) ob).
Proof.
  intros Hpos Hq g Hg. unfold deref, store, with_memory. simpl.
  destruct (decide (h = g)) as [->|Hne].
  - by rewrite fn_lookup_insert.
  - rewrite fn_lookup_insert_ne by done. by apply Hpos.
Qed.

(** ** Every call keeps the book consistent and uncrossed *)

Lemma cancelled_no_nan id h ob : no_nan_level ob → no_nan_level (cancelled id h ob).
Proof.
  intros [Hb Ha]. destruct (cancelled_keys id h ob) as [Hkb Hka]. split; auto.
Qed.

Lemma add_order_outcome (I : OrderBook -> Prop) now order ob :
  wf ob → no_nan_level ob → price order ≠ NaN →
  (∀ ob t ob', wf ob → I ob → try_match_iter ob = Some (t, ob') → I ob') →
  (∀ h, last (free_list (pool ob)) = Some h →
        I (inserted now order h
             (with_free_list (removelast (free_list (pool ob))) ob))) →
  (free_list (pool ob) = [] ∧ add_order now order ob = Thrown ob []) ∨
  (∃ ob' out,
      add_order now order ob = Returned tt ob' out ∧
      wf ob' ∧ I ob' ∧ uncrossed ob' ∧ no_nan_level ob').
Proof.
  intros Hwf Hnan Hnum Hstep Hins. rewrite add_order_unfold.
  destruct (last (free_list (pool ob))) as [h|] eqn:Hlast.
  - right.
    destruct (try_match_inv (λ ob, I ob ∧ no_nan_level ob)
                (inserted now order h
                   (with_free_list (removelast (free_list (pool ob))) ob)))
      as (ob' & out & Hrun & Hwf' & [HI' Hnan'] & Hend & _).
    + intros ob0 t ob1 Hwf0 [HI0 Hnan0] Hit. split; [by eapply Hstep|].
      by eapply try_match_iter_no_nan.
    + by apply inserted_wf.
    + split; [by apply Hins|]. by apply inserted_no_nan.
    + exists ob', out. split_and!; try done.
      by apply try_match_iter_None_uncrossed.
  - left. by apply last_None in Hlast.
Qed.

Lemma run_op_inv o ob :
  wf ob → uncrossed ob → no_nan_level ob → op_numeric o →
  ∃ ob', final_state (run_op o ob) = Some ob' ∧
         wf ob' ∧ uncrossed ob' ∧ no_nan_level ob'.
Proof.
  intros Hwf Hun Hnan Hnum.
  destruct o as [now order|id|now now' id p q|depth b a]; simpl in *.
  - destruct (add_order_outcome (λ _, True) now order ob)
      as [[_ ->]|(ob' & out & -> & ? & _ & ? & ?)]; try done.
    + by exists ob.
    + by exists ob'.
  - unfold bind. rewrite cancel_order_unfold.
    destruct (order_lookup ob !! id) as [h|] eqn:Hid; simpl.
    + exists (cancelled id h ob).
      split_and!; eauto using cancelled_wf, cancelled_uncrossed, cancelled_no_nan.
    + by exists ob.
  - unfold bind. rewrite amend_order_unfold.
    destruct (order_lookup ob !! id) as [h|] eqn:Hid; simpl; [|by exists ob].
    destruct (double_ne (price (deref ob h)) p); simpl.
    + assert (wf (cancelled id h ob)) as Hwf1 by (by apply cancelled_wf).
      assert (uncrossed (cancelled id h ob)) as Hun1 by (by apply cancelled_uncrossed).
      assert (no_nan_level (cancelled id h ob)) as Hnan1 by (by apply cancelled_no_nan).
      destruct (add_order_outcome (λ _, True) now'
                  (set_timestamp now (set_quantity q (set_price p (deref ob h))))
                  (cancelled id h ob) Hwf1 Hnan1 Hnum)
        as [[_ ->]|(ob' & out & -> & ? & _ & ? & ?)]; try done; simpl.
      * by exists (cancelled id h ob).
      * by exists ob'.
    + eexists. split_and!; eauto using store_quantity_wf.
  - by exists ob.
Qed.

Lemma new_book_wf garbage pool_size : wf (new_book garbage pool_size).
Proof.
  split; simpl;
    first [ by constructor | apply NoDup_seq | by intros id h; rewrite lookup_empty ].
Qed.

Lemma new_book_uncrossed garbage pool_size : uncrossed (new_book garbage pool_size).
Proof. by intros b a ?%elem_of_nil. Qed.

Lemma new_book_no_nan garbage pool_size : no_nan_level (new_book garbage pool_size).
Proof. split; by intros ?%elem_of_nil. Qed.

Lemma exec_inv ops ob :
  wf ob → uncrossed ob → no_nan_level ob → Forall op_numeric ops →
  ∃ ob', exec ops ob = Some ob' ∧ wf ob' ∧ uncrossed ob' ∧ no_nan_level ob'.
Proof.
  revert ob. induction ops as [|o ops IH]; intros ob Hwf Hun Hnan Hops; simpl;
    [by eauto|].
  apply Forall_cons in Hops as [Ho Hops].
  destruct (run_op_inv o ob Hwf Hun Hnan Ho) as (ob1 & -> & Hwf1 & Hun1 & Hnan1). auto.
Qed.

Lemma add_order_positive now order ob ob' :
  wf ob → no_nan_level ob → price order ≠ NaN →
  quantities_positive ob → 0 < quantity order < 2 ^ 64 →
  final_state (add_order now order ob) = Some ob' → quantities_positive ob'.
Proof.
  intros Hwf Hnan Hnum Hpos Hq.
  destruct (add_order_outcome quantities_positive now order ob)
    as [[_ ->]|(ob1 & out & -> & _ & Hpos1 & _)]; try done.
  - intros ob0 t ob1 Hwf0 Hpos0 Hit.
    eapply try_match_iter_positive; [apply (wf_nodup _ Hwf0)|done..].
  - intros h Hlast. apply inserted_positive; try done. apply (wf_nodup _ Hwf).
  - by intros [= <-].
  - by intros [= <-].
Qed.

Lemma run_op_positive o ob ob' :
  wf ob → no_nan_level ob → op_numeric o →
  quantities_positive ob → op_positive o →
  final_state (run_op o ob) = Some ob' → quantities_positive ob'.
Proof.
  intros Hwf Hnan Hnum Hpos Hop.
  destruct o as [now order|id|now now' id p q|depth b a]; simpl in *.
  - by apply add_order_positive.
  - unfold bind. rewrite cancel_order_unfold.
    destruct (order_lookup ob !! id) as [h|] eqn:Hid; simpl; intros [= <-]; [|done].
    by apply cancelled_positive.
  - unfold bind. rewrite amend_order_unfold.
    destruct (order_lookup ob !! id) as [h|] eqn:Hid; simpl; [|by intros [= <-]].
    destruct (double_ne (price (deref ob h)) p); simpl.
    + intros Hfin.
      apply (add_order_positive now'
               (set_timestamp now (set_quantity q (set_price p (deref ob h))))
               (cancelled id h ob));
        [by apply cancelled_wf|by apply cancelled_no_nan|done
        |by apply cancelled_positive|done|].
      by destruct (add_order _ _ _) as [[] ob1 out| |].
    + intros [= <-]. by apply store_quantity_positive.
  - by intros [= <-].
Qed.

Lemma exec_positive ops ob :
  wf ob → uncrossed ob → no_nan_level ob → quantities_positive ob →
  Forall op_numeric ops → Forall op_positive ops →
  ∃ ob', exec ops ob = Some ob' ∧ wf ob' ∧ quantities_positive ob'.
Proof.
  revert ob. induction ops as [|o ops IH]; intros ob Hwf Hun Hnan Hpos Hnum Hops; simpl.
  - by exists ob.
  - apply Forall_cons in Hops as [Ho Hops]. apply Forall_cons in Hnum as [Hn Hnum].
    destruct (run_op_inv o ob Hwf Hun Hnan Hn) as (ob1 & Hrun & Hwf1 & Hun1 & Hnan1).
    rewrite Hrun. apply IH; try done.
    by apply (run_op_positive o ob ob1).
Qed.

Lemma exec_wf ops ob ob' :
  wf ob → uncrossed ob → no_nan_level ob → Forall op_numeric ops →
  exec ops ob = Some ob' → wf ob' ∧ uncrossed ob' ∧ no_nan_level ob'.
Proof.
  intros Hwf Hun Hnan Hops Hex.
  destruct (exec_inv ops ob Hwf Hun Hnan Hops) as (ob1 & Hex1 & ? & ? & ?).
  by simplify_eq.
Qed.

(** ** Orders that rest *)

Lemma uncrossed_iter_None ob : uncrossed ob → try_match_iter ob = None.
Proof.
  unfold uncrossed, try_match_iter. intros Hun.
  destruct (bids ob) as [|[pb qb] br]; [done|].
  destruct (asks ob) as [|[pa qa] ar]; [done|].
  assert (pb < pa)%D as Hlt by (apply Hun; by left).
  by rewrite Hlt.
Qed.

Lemma inserted_uncrossed now order h ob :
  uncrossed ob → rests order ob → uncrossed (inserted now order h ob).
Proof.
  unfold uncrossed, rests. intros Hun Hrest b a.
  rewrite inserted_bids, inserted_asks.
  destruct (is_buy order); intros Hb Ha.
  - apply level_push_back_keys in Hb as [->|Hb]; auto.
  - apply level_push_back_keys in Ha as [->|Ha]; auto.
Qed.

(** An order that does not cross is linked into the book and stays there:
    the loop exits on its first test and prints nothing. *)
Lemma add_order_rests now order h ob :
  uncrossed ob → rests order ob →
  last (free_list (pool ob)) = Some h →
  add_order now order ob =
  Returned tt (inserted now order h
                 (with_free_list (removelast (free_list (pool ob))) ob)) [].
Proof.
  intros Hun Hrest Hlast. rewrite add_order_unfold, Hlast.
  unfold try_match. simpl. by rewrite uncrossed_iter_None by by apply inserted_uncrossed.
Qed.

(** ** What every call keeps whatever the prices are *)

Lemma inserted_shaped now order h ob : shaped ob → shaped (inserted now order h ob).
Proof.
  intros [Hbs Has Hbn Han].
  split; rewrite ?inserted_bids, ?inserted_asks; destruct (is_buy order); try done.
  - by apply (level_push_back_sorted _ greater_trans).
  - by apply (level_push_back_sorted _ less_trans).
  - by apply level_push_back_nonempty.
  - by apply level_push_back_nonempty.
Qed.

Lemma cancelled_shaped id h ob : shaped ob → shaped (cancelled id h ob).
Proof.
  intros [Hbs Has Hbn Han].
  split; unfold cancelled; destruct (is_buy (deref ob h)); simpl; try done.
  - by apply level_remove_sorted.
  - by apply level_remove_sorted.
  - by apply level_remove_nonempty.
  - by apply level_remove_nonempty.
Qed.

Lemma add_order_shaped now order ob ob' :
  shaped ob → uncrossed ob →
  final_state (add_order now order ob) = Some ob' → shaped ob' ∧ uncrossed ob'.
Proof.
  intros Hsh Hun. rewrite add_order_unfold.
  destruct (last (free_list (pool ob))) as [h|]; [|by intros [= <-]].
  unfold try_match.
  set (ob1 := inserted now order h _).
  assert (shaped ob1) as Hsh1.
  { apply inserted_shaped. by eapply shaped_frame; [..|exact Hsh]. }
  destruct (try_match_loop _ ob1) as [[] ob2 out|ob2 out|] eqn:Hrun; simpl; try done.
  - intros [= <-]. destruct (try_match_loop_shaped _ _ _ _ Hsh1 Hrun) as [Hsh2 Hend].
    split; [done|]. by apply shaped_iter_None_uncrossed.
  - by destruct (try_match_loop_not_thrown _ _ _ _ Hrun).
Qed.

Lemma run_op_shaped o ob ob' :
  shaped ob → uncrossed ob →
  final_state (run_op o ob) = Some ob' → shaped ob' ∧ uncrossed ob'.
Proof.
  intros Hsh Hun.
  destruct o as [now order|id|now now' id p q|depth b a]; simpl.
  - by apply add_order_shaped.
  - unfold bind. rewrite cancel_order_unfold.
    destruct (order_lookup ob !! id) as [h|]; simpl; intros [= <-]; [|done].
    split; [by apply cancelled_shaped|by apply cancelled_uncrossed].
  - unfold bind. rewrite amend_order_unfold.
    destruct (order_lookup ob !! id) as [h|]; simpl; [|by intros [= <-]].
    destruct (double_ne (price (deref ob h)) p); simpl.
    + intros Hfin.
      apply (add_order_shaped now'
               (set_timestamp now (set_quantity q (set_price p (deref ob h))))
               (cancelled id h ob));
        [by apply cancelled_shaped|by apply cancelled_uncrossed|].
      by destruct (add_order _ _ _) as [[] ob1 out| |].
    + intros [= <-]. split; [by eapply shaped_frame; [..|exact Hsh]|done].
  - by intros [= <-].
Qed.

Lemma exec_shaped ops ob ob' :
  shaped ob → uncrossed ob → exec ops ob = Some ob' → shaped ob' ∧ uncrossed ob'.
Proof.
  revert ob. induction ops as [|o ops IH]; intros ob Hsh Hun; simpl.
  - by intros [= <-].
  - destruct (final_state (run_op o ob)) as [ob1|] eqn:Hrun; [|done].
    destruct (run_op_shaped _ _ _ Hsh Hun Hrun) as [Hsh1 Hun1]. by apply IH.
Qed.

(** ** The snapshot *)

Lemma fold_quantity_wrap ob orders acc :
  wrap64 acc = acc →
  fold_left (fun acc order => wrap64 (acc + quantity (deref ob order))) orders acc
  = wrap64 (acc + level_sum ob orders).
Proof.
  revert acc. induction orders as [|o orders IH]; intros acc Hacc; simpl.
  - by rewrite Z.add_0_r.
  - rewrite IH by apply wrap64_idemp. unfold wrap64.
    rewrite Zplus_mod_idemp_l. f_equal. lia.
Qed.

Lemma snapshot_side_spec ob depth m count out :
  0 <= count → depth < 2 ^ 64 →
  snapshot_side ob depth count m out
  = out ++ (level_report ob <$> take (Z.to_nat (depth - count)) m).
Proof.
  revert count out. induction m as [|[p orders] rest IH]; intros count out Hc Hd; simpl.
  - by rewrite take_nil, app_nil_r.
  - destruct (Z.leb_spec depth count) as [Hle|Hlt].
    + replace (Z.to_nat (depth - count)) with 0%nat by lia. by rewrite app_nil_r.
    + assert (wrap64 (count + 1) = count + 1) as ->.
      { unfold wrap64. apply Z.mod_small. lia. }
      rewrite IH by lia.
      replace (Z.to_nat (depth - count)) with (S (Z.to_nat (depth - (count + 1)))) by lia.
      rewrite fold_quantity_wrap by done. csimpl.
      rewrite <- app_assoc. done.
Qed.

Lemma keys_sorted_take before n m :
  keys_sorted before m → keys_sorted before (take n m).
Proof.
  unfold keys_sorted. intros Hs. rewrite fmap_take.
  apply (StronglySorted_app_1_l _ _ (drop n (m.*1))). by rewrite take_drop.
Qed.

Lemma StronglySorted_weaken {A} (R1 R2 : A -> A -> Prop) (l : list A) :
  (∀ x y, R1 x y → R2 x y) → StronglySorted R1 l → StronglySorted R2 l.
Proof.
  intros Himp. induction 1 as [|x l _ IH Hall]; constructor; [done|].
  eapply Forall_impl; [exact Hall|]. auto.
Qed.

Lemma level_report_prices ob m : level_price <$> (level_report ob <$> m) = m.*1.
Proof. rewrite <- list_fmap_compose. by apply list_fmap_ext. Qed.

(** [operator[]] followed by [push_back] puts the slot at the tail of some
    level of the side; that level has the key looked for when neither it nor
    a key of the side is NaN. *)
Lemma level_push_back_tail before p h m :
  (∀ a b, a ≠ NaN → b ≠ NaN → before a b = false → before b a = false → a = b) →
  ∃ k q, (k, q ++ [h]) ∈ level_push_back before p h m ∧
         (p ≠ NaN → NaN ∉ m.*1 → k = p).
Proof.
  intros Htotal. induction m as [|[k0 q0] rest (k & q & IH & Hk)]; csimpl.
  - exists p, []. split; [by left|done].
  - destruct (before k0 p) eqn:E1; [|destruct (before p k0) eqn:E2].
    + exists k, q. split; [by right|]. intros Hp Hkeys.
      apply not_elem_of_cons in Hkeys as [_ Hkeys]. auto.
    + exists p, []. split; [by left|done].
    + exists k0, q0. split; [by left|]. intros Hp Hkeys.
      apply not_elem_of_cons in Hkeys as [Hk0 _]. apply Htotal; auto.
Qed.

Lemma tie_resting_wf : wf tie_resting ∧ uncrossed tie_resting ∧ no_nan_level tie_resting.
Proof.
  apply (exec_wf [Add 0 tie_sell] (empty_book 2)).
  - apply new_book_wf.
  - apply new_book_uncrossed.
  - apply new_book_no_nan.
  - by repeat constructor.
  - reflexivity.
Qed.

Lemma tie_crossed_wf : wf tie_crossed.
Proof.
  apply (inserted_wf 0 tie_buy 0%nat tie_resting);
    [apply tie_resting_wf|done|apply tie_resting_wf|reflexivity].
Qed.

(** ** The claims *)

(** C1, counterexample: both orders carry timestamp 5; the bid's price is
    101, the ask's is 100, and the trade is printed at 100. *)
Lemma trade_price_tie_takes_ask :
  timestamp_ns tie_buy = timestamp_ns tie_sell ∧
  price tie_buy = 101 ∧ price tie_sell = 100 ∧
  trades_of (add_order 0 tie_buy tie_resting) = [mkTrade 10 100 2 1].
Proof. by vm_compute. Qed.

(** C1, amended: for every match between the head bid [b] and the head ask
    [a], the trade price is [b]'s price when [b]'s timestamp is strictly
    earlier than [a]'s, and [a]'s price otherwise; in particular the ask's
    price is used when the timestamps are equal. *)
Theorem try_match_trade_price ob t ob' :
  try_match_iter ob = Some (t, ob') →
  ∃ b a,
    best_bid_head ob = Some b ∧ best_ask_head ob = Some a ∧
    buy_id t = order_id (deref ob b) ∧ sell_id t = order_id (deref ob a) ∧
    (timestamp_ns (deref ob b) < timestamp_ns (deref ob a) →
     match_price t = price (deref ob b)) ∧
    (timestamp_ns (deref ob a) < timestamp_ns (deref ob b) →
     match_price t = price (deref ob a)) ∧
    (timestamp_ns (deref ob b) = timestamp_ns (deref ob a) →
     match_price t = price (deref ob a)).
Proof.
  intros Hit.
  apply try_match_iter_spec in Hit
    as (pb & hb & bt & br & pa & ha & at' & ar & Hb & Ha & _ & -> & _).
  exists hb, ha. unfold best_bid_head, best_ask_head. rewrite Hb, Ha. simpl.
  split_and!; try done;
    destruct (Z.ltb_spec (timestamp_ns (deref ob hb)) (timestamp_ns (deref ob ha)));
    intros; (done || lia).
Qed.

Lemma try_match_trade_price_witness :
  ∃ b a,
    best_bid_head tie_crossed = Some b ∧ best_ask_head tie_crossed = Some a ∧
    buy_id (mkTrade 10 100 2 1) = order_id (deref tie_crossed b) ∧
    sell_id (mkTrade 10 100 2 1) = order_id (deref tie_crossed a) ∧
    (timestamp_ns (deref tie_crossed b) < timestamp_ns (deref tie_crossed a) →
     match_price (mkTrade 10 100 2 1) = price (deref tie_crossed b)) ∧
    (timestamp_ns (deref tie_crossed a) < timestamp_ns (deref tie_crossed b) →
     match_price (mkTrade 10 100 2 1) = price (deref tie_crossed a)) ∧
    (timestamp_ns (deref tie_crossed b) = timestamp_ns (deref tie_crossed a) →
     match_price (mkTrade 10 100 2 1) = price (deref tie_crossed a)).
Proof.
  apply (try_match_trade_price tie_crossed (mkTrade 10 100 2 1) tie_matched).
  vm_compute. reflexivity.
Defined.

(** C2, counterexample, in two parts.  An order is added with quantity 10
    and amended in place to quantity 0: it is still in its FIFO and in the
    index, with remaining quantity 0.  And a positive new quantity is not
    enough: every call of [nan_fill_ops] brings a positive quantity, the
    second a price NaN, and when the last call has returned, the order of
    the slot queued at 99 has remaining quantity 0. *)
Lemma zero_quantity_stays_live :
  (exec [Add 1 (mkOrder 1 true 100 10 0); Amend 2 3 1 100 0] (empty_book 1)
     = Some (after [Add 1 (mkOrder 1 true 100 10 0); Amend 2 3 1 100 0] (empty_book 1)) ∧
   bids (after [Add 1 (mkOrder 1 true 100 10 0); Amend 2 3 1 100 0] (empty_book 1))
     = [(Num 100, [0%nat])] ∧
   order_lookup (after [Add 1 (mkOrder 1 true 100 10 0); Amend 2 3 1 100 0] (empty_book 1)) !! 1
     = Some 0%nat ∧
   quantity (deref (after [Add 1 (mkOrder 1 true 100 10 0); Amend 2 3 1 100 0] (empty_book 1)) 0)
     = 0) ∧
  (Forall op_positive nan_fill_ops ∧
   exec nan_fill_ops (empty_book 4) = Some (after nan_fill_ops (empty_book 4)) ∧
   bids (after nan_fill_ops (empty_book 4)) = [(Num 99, [2%nat])] ∧
   quantity (deref (after nan_fill_ops (empty_book 4)) 2) = 0).
Proof.
  split; [by vm_compute|].
  split; [repeat constructor; simpl; lia|by vm_compute].
Qed.

(** C2, amended: after every public operation of a sequence in which every
    [add_order] brings a quantity [q] and every [amend_order] passes a new
    quantity [q] with [0 < q] (and [q < 2^64], the range of the type), and
    no price passed to [add_order] or [amend_order] is NaN, every call has
    come back and every order that is live in the book, in a FIFO or in the
    index, has remaining quantity strictly greater than zero. *)
Theorem quantities_positive_after garbage pool_size ops :
  Forall op_positive ops → Forall op_numeric ops →
  ∃ ob,
    exec ops (new_book garbage pool_size) = Some ob ∧
    quantities_positive ob ∧
    (∀ id h, order_lookup ob !! id = Some h → 0 < quantity (deref ob h)).
Proof.
  intros Hops Hnum.
  destruct (exec_positive ops (new_book garbage pool_size))
    as (ob & Hex & Hwf & Hpos); try done.
  - apply new_book_wf.
  - apply new_book_uncrossed.
  - apply new_book_no_nan.
  - by intros h ?%elem_of_nil.
  - exists ob. split_and!; try done.
    intros id h Hid. destruct (wf_lookup _ Hwf _ _ Hid) as [Hin _].
    by apply Hpos.
Qed.

Lemma quantities_positive_after_witness :
  ∃ ob,
    exec fifo_ops (new_book (λ _, blank) 5) = Some ob ∧
    quantities_positive ob ∧
    (∀ id h, order_lookup ob !! id = Some h → 0 < quantity (deref ob h)).
Proof.
  apply (quantities_positive_after (λ _, blank) 5 fifo_ops).
  - repeat constructor; simpl; lia.
  - by repeat constructor.
Defined.

(** C3, counterexample: [add_order] with quantity 0 on an empty book with
    one free slot returns normally; the order is in the index and in the bid
    FIFO at its price, with quantity 0. *)
Lemma add_zero_quantity_is_admitted :
  returned (add_order 7 (mkOrder 1 true 100 0 0) (empty_book 1)) = Some tt ∧
  bids (after [Add 7 (mkOrder 1 true 100 0 0)] (empty_book 1)) = [(Num 100, [0%nat])] ∧
  order_lookup (after [Add 7 (mkOrder 1 true 100 0 0)] (empty_book 1)) !! 1 = Some 0%nat ∧
  quantity (deref (after [Add 7 (mkOrder 1 true 100 0 0)] (empty_book 1)) 0) = 0.
Proof. by vm_compute. Qed.

(** C3, amended: [add_order] does not look at the quantity.  For every input
    order with quantity zero that does not cross the other side, and a pool
    with a free slot [h], the call returns normally without a trade, and the
    order is in the index under its id and at the tail of a FIFO of its
    side, with quantity zero.  That FIFO is the one of its price whenever
    neither its price nor a level key of the book is NaN. *)
Theorem add_order_zero_quantity_rests now order h ob :
  uncrossed ob → rests order ob →
  last (free_list (pool ob)) = Some h →
  quantity order = 0 →
  ∃ ob',
    add_order now order ob = Returned tt ob' [] ∧
    order_lookup ob' !! order_id order = Some h ∧
    (∃ k q, (k, q ++ [h]) ∈ (if is_buy order then bids ob' else asks ob') ∧
            (price order ≠ NaN → no_nan_level ob → k = price order)) ∧
    h ∈ book_handles ob' ∧
    quantity (deref ob' h) = 0.
Proof.
  intros Hun Hrest Hlast Hq. eexists. split; [by apply add_order_rests|].
  rewrite inserted_lookup, inserted_bids, inserted_asks, inserted_deref.
  split_and!.
  - apply lookup_insert_eq.
  - destruct (is_buy order).
    + destruct (level_push_back_tail greater (price order) h (bids ob) greater_total)
        as (k & q & Hin & Hk).
      exists k, q. split; [done|]. intros Hp [Hb _]. auto.
    + destruct (level_push_back_tail less (price order) h (asks ob) less_total)
        as (k & q & Hin & Hk).
      exists k, q. split; [done|]. intros Hp [_ Ha]. auto.
  - rewrite inserted_handles. by left.
  - by destruct (stamped_fields now order) as (_ & _ & _ & ->).
Qed.

Lemma add_order_zero_quantity_rests_witness :
  ∃ ob',
    add_order 7 (mkOrder 3 false 102 0 0) tie_resting = Returned tt ob' [] ∧
    order_lookup ob' !! 3 = Some 0%nat ∧
    (∃ k q, (k, q ++ [0%nat]) ∈ asks ob' ∧
            (Num 102 ≠ NaN → no_nan_level tie_resting → k = Num 102)) ∧
    0%nat ∈ book_handles ob' ∧
    quantity (deref ob' 0) = 0.
Proof.
  apply (add_order_zero_quantity_rests 7 (mkOrder 3 false 102 0 0) 0%nat tie_resting).
  - apply tie_resting_wf.
  - by intros b ?%elem_of_nil.
  - reflexivity.
  - reflexivity.
Defined.






(** C6, counterexample: order 1 rests with price NaN and timestamp 7, ahead
    of order 2 in the same FIFO.  [amend_order] with the same price, NaN,
    and the same quantity takes the price-change path: the order goes to
    the tail of the FIFO and gets the timestamp 9. *)
Lemma amend_nan_price_requeues :
  order_lookup nan_resting !! 1 = Some 1%nat ∧
  price (deref nan_resting 1) = NaN ∧
  timestamp_ns (deref nan_resting 1) = 7 ∧
  bids nan_resting = [(NaN, [1%nat; 0%nat])] ∧
  returned (amend_order 9 9 1 NaN 10 nan_resting) = Some true ∧
  bids (after [Amend 9 9 1 NaN 10] nan_resting) = [(NaN, [0%nat; 1%nat])] ∧
  timestamp_ns (deref (after [Amend 9 9 1 NaN 10] nan_resting) 1) = 9.
Proof. by vm_compute. Qed.

(** C6, amended: for every live order whose price is a number,
    [amend_order] with a new price equal to the order's current price
    returns [true] and only overwrites the quantity in the order's slot:
    both side books (so the order's FIFO position), the index and the free
    list are the same, the order keeps its id, side, price and timestamp,
    every other slot is untouched, and no trade is printed, whatever the
    new quantity is and whether or not the book could match.  (For an order
    whose price is NaN the test [!=] is true even against the same NaN.) *)
Theorem amend_order_in_place now now' id h new_price new_quantity ob :
  order_lookup ob !! id = Some h →
  new_price = price (deref ob h) →
  new_price ≠ NaN →
  ∃ ob',
    amend_order now now' id new_price new_quantity ob = Returned true ob' [] ∧
    ob' = store h (set_quantity new_quantity (deref ob h)) ob ∧
    bids ob' = bids ob ∧ asks ob' = asks ob ∧
    order_lookup ob' = order_lookup ob ∧
    free_list (pool ob') = free_list (pool ob) ∧
    deref ob' h = set_quantity new_quantity (deref ob h) ∧
    quantity (deref ob' h) = new_quantity ∧
    price (deref ob' h) = price (deref ob h) ∧
    timestamp_ns (deref ob' h) = timestamp_ns (deref ob h) ∧
    order_id (deref ob' h) = order_id (deref ob h) ∧
    is_buy (deref ob' h) = is_buy (deref ob h) ∧
    ∀ g, g ≠ h → deref ob' g = deref ob g.
Proof.
  intros Hid -> Hnum. eexists. split.
  - rewrite amend_order_unfold, Hid.
    by rewrite (proj2 (double_ne_false _ _)) by done.
  - unfold deref, store, with_memory. simpl. rewrite fn_lookup_insert.
    split_and!; try done.
    intros g Hg. by rewrite fn_lookup_insert_ne.
Qed.

Lemma amend_order_in_place_witness :
  ∃ ob',
    amend_order 8 9 1 100 500 tie_resting = Returned true ob' [] ∧
    ob' = store 1%nat (set_quantity 500 (deref tie_resting 1)) tie_resting ∧
    bids ob' = bids tie_resting ∧ asks ob' = asks tie_resting ∧
    order_lookup ob' = order_lookup tie_resting ∧
    free_list (pool ob') = free_list (pool tie_resting) ∧
    deref ob' 1 = set_quantity 500 (deref tie_resting 1) ∧
    quantity (deref ob' 1) = 500 ∧
    price (deref ob' 1) = price (deref tie_resting 1) ∧
    timestamp_ns (deref ob' 1) = timestamp_ns (deref tie_resting 1) ∧
    order_id (deref ob' 1) = order_id (deref tie_resting 1) ∧
    is_buy (deref ob' 1) = is_buy (deref tie_resting 1) ∧
    ∀ g, g ≠ 1%nat → deref ob' g = deref tie_resting g.
Proof.
  apply (amend_order_in_place 8 9 1 1%nat 100 500 tie_resting);
    [reflexivity|reflexivity|done].
Defined.

(** C7: when [add_order] is called while the free list of the pool is
    empty, it leaves with the exception of [allocate], prints nothing, and
    the book (index, both side books, free list, slots) is the one before
    the call. *)
Theorem add_order_pool_exhausted now order ob :
  free_list (pool ob) = [] →
  add_order now order ob = Thrown ob [].
Proof. intros Hfull. by rewrite add_order_unfold, Hfull. Qed.

Lemma add_order_pool_exhausted_witness :
  add_order 0 tie_buy (empty_book 0) = Thrown (empty_book 0) [].
Proof. apply (add_order_pool_exhausted 0 tie_buy (empty_book 0)). reflexivity. Defined.

(** C8, counterexample: a sell order rests at 100; a buy order at 101 is
    added and trades with it; cancelling the buy order then returns [false]
    and the book no longer has the sell order it had before the add. *)
Lemma add_cancel_crossing_loses_resting_order :
  order_lookup tie_resting !! order_id tie_buy = None ∧
  asks tie_resting = [(Num 100, [1%nat])] ∧
  order_lookup tie_resting !! 1 = Some 1%nat ∧
  returned (cancel_order 2 (after [Add 0 tie_buy] tie_resting)) = Some false ∧
  asks (after [Add 0 tie_buy; Cancel 2] tie_resting) = [] ∧
  order_lookup (after [Add 0 tie_buy; Cancel 2] tie_resting) !! 1 = None.
Proof. by vm_compute. Qed.

(** C8, amended: for every consistent, uncrossed book and every order
    whose id is not live and which does not cross the other side,
    [add_order] followed by [cancel_order] of its id prints no trade and
    leaves the index, both side books and the free list equal to those
    before the add, and every live order as it was.  (With a free slot the
    add returns and the cancel returns [true]; with a full pool the add
    throws and changes nothing.) *)
Theorem add_then_cancel now order ob :
  wf ob → uncrossed ob →
  order_lookup ob !! order_id order = None →
  rests order ob →
  ∃ ob2,
    exec [Add now order; Cancel (order_id order)] ob = Some ob2 ∧
    trades_of (add_order now order ob) = [] ∧
    order_lookup ob2 = order_lookup ob ∧
    bids ob2 = bids ob ∧ asks ob2 = asks ob ∧
    free_list (pool ob2) = free_list (pool ob) ∧
    capacity (pool ob2) = capacity (pool ob) ∧
    (∀ g, g ∈ book_handles ob → deref ob2 g = deref ob g) ∧
    (free_list (pool ob) ≠ [] →
     ∃ ob1, add_order now order ob = Returned tt ob1 [] ∧
            cancel_order (order_id order) ob1 = Returned true ob2 []).
Proof.
  intros Hwf Hun Hfresh Hrest.
  destruct (last (free_list (pool ob))) as [h|] eqn:Hlast.
  2:{ apply last_None in Hlast. exists ob.
      simpl. rewrite (add_order_unfold now order ob), Hlast. simpl.
      unfold bind. rewrite cancel_order_unfold, Hfresh. simpl.
      split_and!; done. }
  set (ob0 := with_free_list (removelast (free_list (pool ob))) ob).
  exists (cancelled (order_id order) h (inserted now order h ob0)).
  pose proof (last_removelast _ _ Hlast) as Hfl.
  assert (Hnotin : h ∉ book_handles ob).
  { pose proof (wf_nodup _ Hwf) as Hnd. rewrite Hfl in Hnd.
    apply NoDup_app in Hnd as (_ & Hdisj & _).
    intros Hin. apply (Hdisj _ Hin). rewrite elem_of_app, list_elem_of_singleton. auto. }
  unfold book_handles in Hnotin. rewrite not_elem_of_app in Hnotin.
  destruct Hnotin as [Hnb Hna].
  destruct (stamped_fields now order) as (_ & Hsbuy & Hsprice & _).
  destruct Hwf as [Hbs Has Hbok Haok _ _].
  assert (Hbne : Forall (λ l : double * list nat, l.2 ≠ []) (bids ob)).
  { eapply Forall_impl; [exact Hbok|]. by intros l [? _]. }
  assert (Hane : Forall (λ l : double * list nat, l.2 ≠ []) (asks ob)).
  { eapply Forall_impl; [exact Haok|]. by intros l [? _]. }
  pose proof (add_order_rests now order h ob Hun Hrest Hlast) as Hadd. fold ob0 in Hadd.
  assert (Hcancel : cancel_order (order_id order) (inserted now order h ob0)
                    = Returned true (cancelled (order_id order) h (inserted now order h ob0)) []).
  { rewrite cancel_order_unfold, inserted_lookup. by rewrite lookup_insert_eq. }
  split.
  { simpl. rewrite Hadd. simpl. unfold bind. by rewrite Hcancel. }
  split; [by rewrite Hadd|].
  assert (Hlater : free_list (pool ob) ≠ [] →
            ∃ ob1, add_order now order ob = Returned tt ob1 [] ∧
                   cancel_order (order_id order) ob1
                   = Returned true (cancelled (order_id order) h (inserted now order h ob0)) []).
  { intros _. by exists (inserted now order h ob0). }
  revert Hlater. generalize (add_order now order ob). intros r Hlater.
  unfold cancelled. rewrite inserted_deref, Hsbuy, Hsprice.
  unfold cancelled in Hlater. rewrite inserted_deref, Hsbuy, Hsprice in Hlater.
  destruct (is_buy order) eqn:Hside; simpl in *;
    rewrite inserted_lookup, inserted_free_list, inserted_capacity,
      ?inserted_bids, ?inserted_asks, Hside in *;
    simpl in *; rewrite <- Hfl in *.
  - rewrite (level_remove_push_back _ greater_irrefl) in * by done.
    split_and!; try done.
    + by apply delete_insert_id.
    + intros g Hg. unfold deref. simpl. fold (deref (inserted now order h ob0) g).
      rewrite inserted_deref_ne; [done|]. intros ->.
      unfold book_handles in Hg. rewrite elem_of_app in Hg. tauto.
  - rewrite (level_remove_push_back _ less_irrefl) in * by done.
    split_and!; try done.
    + by apply delete_insert_id.
    + intros g Hg. unfold deref. simpl. fold (deref (inserted now order h ob0) g).
      rewrite inserted_deref_ne; [done|]. intros ->.
      unfold book_handles in Hg. rewrite elem_of_app in Hg. tauto.
Qed.

Lemma add_then_cancel_witness :
  ∃ ob2,
    exec [Add 9 (mkOrder 3 true 99 40 0); Cancel 3] tie_resting = Some ob2 ∧
    trades_of (add_order 9 (mkOrder 3 true 99 40 0) tie_resting) = [] ∧
    order_lookup ob2 = order_lookup tie_resting ∧
    bids ob2 = bids tie_resting ∧ asks ob2 = asks tie_resting ∧
    free_list (pool ob2) = free_list (pool tie_resting) ∧
    capacity (pool ob2) = capacity (pool tie_resting) ∧
    (∀ g, g ∈ book_handles tie_resting → deref ob2 g = deref tie_resting g) ∧
    (free_list (pool tie_resting) ≠ [] →
     ∃ ob1, add_order 9 (mkOrder 3 true 99 40 0) tie_resting = Returned tt ob1 [] ∧
            cancel_order 3 ob1 = Returned true ob2 []).
Proof.
  apply (add_then_cancel 9 (mkOrder 3 true 99 40 0) tie_resting).
  - apply tie_resting_wf.
  - apply tie_resting_wf.
  - by vm_compute.
  - intros a Ha. vm_compute in Ha. apply list_elem_of_singleton in Ha as ->.
    simpl. lia.
Defined.

(** C9, counterexample: two live buy orders of [2^63] each rest at price
    100; the snapshot reports total quantity 0 for that level, not their
    sum [2^64]. *)
Lemma snapshot_total_wraps :
  bids overflow_book = [(Num 100, [1%nat; 0%nat])] ∧
  quantity (deref overflow_book 1) = 2 ^ 63 ∧
  quantity (deref overflow_book 0) = 2 ^ 63 ∧
  returned (get_snapshot 1 [] [] overflow_book) = Some ([mkPriceLevel 100 0], []).
Proof. by vm_compute. Qed.

(** C9, amended: for every book whose sides are in comparator order and
    every depth [d], [get_snapshot d] returns, for each side, the first [d]
    levels of the side in best-first order (descending price for bids,
    ascending for asks), fewer if the side has fewer, where each returned
    level carries that level's price and the sum of the remaining quantities
    of the orders of its FIFO modulo [2^64] (the sum itself whenever it is
    below [2^64]); the call prints nothing and leaves the book as it was. *)
Theorem get_snapshot_spec depth bids_out asks_out ob :
  keys_sorted greater (bids ob) → keys_sorted less (asks ob) →
  0 <= depth < 2 ^ 64 →
  ∃ bl al,
    get_snapshot depth bids_out asks_out ob = Returned (bl, al) ob [] ∧
    bl = level_report ob <$> take (Z.to_nat depth) (bids ob) ∧
    al = level_report ob <$> take (Z.to_nat depth) (asks ob) ∧
    length bl = (Z.to_nat depth `min` length (bids ob))%nat ∧
    length al = (Z.to_nat depth `min` length (asks ob))%nat ∧
    StronglySorted (λ x y, (y < x)%D) (level_price <$> bl) ∧
    StronglySorted (λ x y, (x < y)%D) (level_price <$> al) ∧
    ∀ l, 0 <= level_sum ob l.2 < 2 ^ 64 →
         total_quantity (level_report ob l) = level_sum ob l.2.
Proof.
  intros Hbs Has Hd. do 2 eexists.
  split.
  { rewrite get_snapshot_unfold, !snapshot_side_spec by lia.
    rewrite Z.sub_0_r. simpl. reflexivity. }
  split_and!; try done.
  - by rewrite length_fmap, length_take.
  - by rewrite length_fmap, length_take.
  - rewrite level_report_prices.
    apply (keys_sorted_take _ (Z.to_nat depth)) in Hbs.
    eapply StronglySorted_weaken; [|exact Hbs]. by unfold greater.
  - rewrite level_report_prices.
    apply (keys_sorted_take _ (Z.to_nat depth)) in Has.
    eapply StronglySorted_weaken; [|exact Has]. by unfold less.
  - intros l Hl. simpl. unfold wrap64. by apply Z.mod_small.
Qed.

Lemma get_snapshot_spec_witness :
  ∃ bl al,
    get_snapshot 3 [] [] (after fifo_ops (empty_book 5))
      = Returned (bl, al) (after fifo_ops (empty_book 5)) [] ∧
    bl = level_report (after fifo_ops (empty_book 5))
           <$> take (Z.to_nat 3) (bids (after fifo_ops (empty_book 5))) ∧
    al = level_report (after fifo_ops (empty_book 5))
           <$> take (Z.to_nat 3) (asks (after fifo_ops (empty_book 5))) ∧
    length bl = (Z.to_nat 3 `min` length (bids (after fifo_ops (empty_book 5))))%nat ∧
    length al = (Z.to_nat 3 `min` length (asks (after fifo_ops (empty_book 5))))%nat ∧
    StronglySorted (λ x y, (y < x)%D) (level_price <$> bl) ∧
    StronglySorted (λ x y, (x < y)%D) (level_price <$> al) ∧
    ∀ l, 0 <= level_sum (after fifo_ops (empty_book 5)) l.2 < 2 ^ 64 →
         total_quantity (level_report (after fifo_ops (empty_book 5)) l)
         = level_sum (after fifo_ops (empty_book 5)) l.2.
Proof.
  apply (get_snapshot_spec 3 [] [] (after fifo_ops (empty_book 5))).
  - unfold keys_sorted. vm_compute. repeat constructor.
  - unfold keys_sorted. vm_compute. repeat constructor.
  - lia.
Defined.

(** C10: [get_snapshot] clears both output vectors before it fills them:
    for every book and depth, what it returns is the same whatever the
    vectors held on entry, and is what it returns for empty vectors. *)
Theorem get_snapshot_ignores_prior_contents depth b1 a1 b2 a2 ob :
  get_snapshot depth b1 a1 ob = get_snapshot depth b2 a2 ob ∧
  get_snapshot depth b1 a1 ob = get_snapshot depth [] [] ob.
Proof. done. Qed.

(** * Further properties of the order book *)

Lemma demo_ops_numeric : Forall op_numeric demo_ops.
Proof. by repeat constructor. Qed.

Lemma demo_book_wf : wf demo_book ∧ uncrossed demo_book ∧ no_nan_level demo_book.
Proof.
  apply (exec_wf demo_ops (empty_book 10)).
  - apply new_book_wf.
  - apply new_book_uncrossed.
  - apply new_book_no_nan.
  - apply demo_ops_numeric.
  - vm_compute. reflexivity.
Qed.

(** ** A property kept by every call *)

Section Preserved.
Variable I : OrderBook -> Prop.
Variable ok : Order -> OrderBook -> Prop.
Hypothesis I_iter :
  ∀ ob t ob', wf ob → I ob → try_match_iter ob = Some (t, ob') → I ob'.
Hypothesis I_inserted :
  ∀ now order h ob,
    wf ob → I ob → ok order ob →
    last (free_list (pool ob)) = Some h →
    I (inserted now order h (with_free_list (removelast (free_list (pool ob))) ob)).
Hypothesis I_cancelled :
  ∀ id h ob, wf ob → I ob → order_lookup ob !! id = Some h → I (cancelled id h ob).
Hypothesis I_store :
  ∀ h q ob, wf ob → I ob → I (store h (set_quantity q (deref ob h)) ob).
Hypothesis ok_amended :
  ∀ id h now p q ob,
    wf ob → I ob → order_lookup ob !! id = Some h →
    ok (set_timestamp now (set_quantity q (set_price p (deref ob h)))) (cancelled id h ob).

Lemma add_order_preserves now order ob ob' :
  wf ob → no_nan_level ob → price order ≠ NaN → I ob → ok order ob →
  final_state (add_order now order ob) = Some ob' → I ob'.
Proof.
  intros Hwf Hnan Hnum HI Hok.
  destruct (add_order_outcome I now order ob)
    as [[_ ->]|(ob1 & out & -> & _ & HI1 & _)]; try done.
  - intros h Hlast. by apply I_inserted.
  - by intros [= <-].
  - by intros [= <-].
Qed.

Lemma run_op_preserves o ob ob' :
  wf ob → no_nan_level ob → op_numeric o → I ob → op_ok ok o ob →
  final_state (run_op o ob) = Some ob' → I ob'.
Proof.
  intros Hwf Hnan Hnum HI Hop.
  destruct o as [now order|id|now now' id p q|depth b a]; simpl in *.
  - by apply add_order_preserves.
  - unfold bind. rewrite cancel_order_unfold.
    destruct (order_lookup ob !! id) as [h|] eqn:Hid; simpl; intros [= <-]; [|done].
    by apply I_cancelled.
  - unfold bind. rewrite amend_order_unfold.
    destruct (order_lookup ob !! id) as [h|] eqn:Hid; simpl; [|by intros [= <-]].
    destruct (double_ne (price (deref ob h)) p); simpl.
    + intros Hfin.
      apply (add_order_preserves now'
               (set_timestamp now (set_quantity q (set_price p (deref ob h))))
               (cancelled id h ob));
        [by apply cancelled_wf|by apply cancelled_no_nan|done
        |by apply I_cancelled|by apply ok_amended|].
      by destruct (add_order _ _ _) as [[] ob1 out| |].
    + intros [= <-]. by apply I_store.
  - by intros [= <-].
Qed.

Lemma exec_preserves ops ob :
  wf ob → uncrossed ob → no_nan_level ob → I ob →
  Forall op_numeric ops → ops_ok ok ops ob →
  ∃ ob', exec ops ob = Some ob' ∧ wf ob' ∧ uncrossed ob' ∧ I ob'.
Proof.
  revert ob. induction ops as [|o ops IH]; intros ob Hwf Hun Hnan HI Hnum Hops; simpl.
  - by exists ob.
  - destruct Hops as [Ho Hops]. apply Forall_cons in Hnum as [Hn Hnum].
    destruct (run_op_inv o ob Hwf Hun Hnan Hn) as (ob1 & Hrun & Hwf1 & Hun1 & Hnan1).
    rewrite Hrun. apply IH; try done; [|by apply Hops].
    by apply (run_op_preserves o ob ob1).
Qed.
End Preserved.

Lemma ops_ok_True ops ob : ops_ok (λ _ _, True) ops ob.
Proof.
  revert ob. induction ops as [|o ops IH]; intros ob; simpl; [done|].
  split; [by destruct o|auto].
Qed.

(** ** No slot is lost or handed out twice *)

Lemma inserted_slots now order h ob :
  last (free_list (pool ob)) = Some h →
  slots (inserted now order h (with_free_list (removelast (free_list (pool ob))) ob))
  ≡ₚ slots ob.
Proof.
  intros Hlast. apply last_removelast in Hlast. unfold slots.
  rewrite inserted_handles, inserted_free_list. simpl.
  set (fl := removelast (free_list (pool ob))) in *.
  rewrite Hlast. solve_Permutation.
Qed.

(** With a free slot [add_order] returns, whatever the order is, when no
    slot is queued twice or queued while free. *)
Lemma add_order_returns now order h ob :
  NoDup (slots ob) → last (free_list (pool ob)) = Some h →
  ∃ ob' out, add_order now order ob = Returned tt ob' out ∧ NoDup (slots ob').
Proof.
  intros Hnd Hlast. rewrite add_order_unfold, Hlast.
  destruct (try_match_loop_distinct (λ _, True)) with
    (fuel := S (book_size (inserted now order h
                 (with_free_list (removelast (free_list (pool ob))) ob))))
    (ob := inserted now order h (with_free_list (removelast (free_list (pool ob))) ob))
    as (ob' & out & Hrun & Hnd' & _); try done.
  - by rewrite inserted_slots.
  - lia.
  - by exists ob', out.
Qed.

Lemma cancelled_free_list id h ob :
  free_list (pool (cancelled id h ob)) = free_list (pool ob) ++ [h].
Proof. unfold cancelled. by destruct (is_buy _). Qed.

Lemma cancelled_lookup id h ob :
  order_lookup (cancelled id h ob) = delete id (order_lookup ob).
Proof. unfold cancelled. by destruct (is_buy _). Qed.

Lemma cancelled_capacity id h ob :
  capacity (pool (cancelled id h ob)) = capacity (pool ob).
Proof. unfold cancelled. by destruct (is_buy _). Qed.

Lemma cancelled_slots id h ob :
  wf ob → order_lookup ob !! id = Some h →
  slots (cancelled id h ob) ≡ₚ slots ob.
Proof.
  intros Hwf Hid. destruct (wf_lookup _ Hwf _ _ Hid) as [Hin _].
  unfold slots. rewrite cancelled_handles, cancelled_free_list by done.
  pose proof (wf_nodup _ Hwf) as Hnd. apply NoDup_app in Hnd as [Hnd _].
  rewrite (NoDup_filter_out h (book_handles ob)) at 2 by done.
  solve_Permutation.
Qed.

Lemma exec_slots garbage pool_size ops :
  Forall op_numeric ops →
  ∃ ob,
    exec ops (new_book garbage pool_size) = Some ob ∧ wf ob ∧ uncrossed ob ∧
    slots ob ≡ₚ seq 0 pool_size ∧ capacity (pool ob) = pool_size.
Proof.
  intros Hnum.
  destruct (exec_preserves
              (λ ob, slots ob ≡ₚ seq 0 pool_size ∧ capacity (pool ob) = pool_size)
              (λ _ _, True)) with (ops := ops) (ob := new_book garbage pool_size)
    as (ob & Hex & Hwf & Hun & Hslots & Hcap).
  - intros ob t ob' Hwf [HI Hcap] Hit.
    destruct (try_match_iter_slots _ _ _ (wf_nodup _ Hwf) Hit) as [-> ->]. done.
  - intros now order h ob Hwf [HI Hcap] _ Hlast.
    by rewrite inserted_slots, inserted_capacity.
  - intros id h ob Hwf [HI Hcap] Hid.
    by rewrite cancelled_slots, cancelled_capacity.
  - intros h q ob Hwf HI. exact HI.
  - done.
  - apply new_book_wf.
  - apply new_book_uncrossed.
  - apply new_book_no_nan.
  - done.
  - done.
  - apply ops_ok_True.
  - by exists ob.
Qed.

(** X1: after any sequence of public calls on a new book in which no price
    passed to [add_order] or [amend_order] is NaN, each call has come back
    and the book is consistent: the keys of each side are in strict
    comparator order (distinct, best first) and none is NaN, no level is
    empty, every order of a FIFO has the price of its level and the side of
    its book, no slot is in two places among the FIFOs and the free list,
    and every entry of the index points to an order of a FIFO whose id is
    the key. *)
Theorem consistent_after garbage pool_size ops :
  Forall op_numeric ops →
  ∃ ob,
    exec ops (new_book garbage pool_size) = Some ob ∧
    keys_sorted greater (bids ob) ∧ keys_sorted less (asks ob) ∧
    NaN ∉ (bids ob).*1 ∧ NaN ∉ (asks ob).*1 ∧
    levels_ok (order_at ob true) (bids ob) ∧
    levels_ok (order_at ob false) (asks ob) ∧
    NoDup (book_handles ob ++ free_list (pool ob)) ∧
    ∀ id h, order_lookup ob !! id = Some h →
            h ∈ book_handles ob ∧ order_id (deref ob h) = id.
Proof.
  intros Hnum.
  destruct (exec_inv ops (new_book garbage pool_size))
    as (ob & Hex & Hwf & _ & [Hnb Hna]); try done.
  - apply new_book_wf.
  - apply new_book_uncrossed.
  - apply new_book_no_nan.
  - exists ob. by destruct Hwf.
Qed.

Lemma consistent_after_witness :
  ∃ ob,
    exec demo_ops (new_book (λ _, blank) 10) = Some ob ∧
    keys_sorted greater (bids ob) ∧ keys_sorted less (asks ob) ∧
    NaN ∉ (bids ob).*1 ∧ NaN ∉ (asks ob).*1 ∧
    levels_ok (order_at ob true) (bids ob) ∧
    levels_ok (order_at ob false) (asks ob) ∧
    NoDup (book_handles ob ++ free_list (pool ob)) ∧
    ∀ id h, order_lookup ob !! id = Some h →
            h ∈ book_handles ob ∧ order_id (deref ob h) = id.
Proof. apply (consistent_after (λ _, blank) 10 demo_ops), demo_ops_numeric. Defined.

(** X2: after any sequence of public calls on a new book of [pool_size]
    slots in which no price passed is NaN, every slot of the pool is either
    in the free list or in exactly one FIFO, once: the FIFO entries and the
    free list together are a permutation of the slots, so their numbers add
    up to the capacity. *)
Theorem slots_conserved garbage pool_size ops :
  Forall op_numeric ops →
  ∃ ob,
    exec ops (new_book garbage pool_size) = Some ob ∧
    book_handles ob ++ free_list (pool ob) ≡ₚ seq 0 pool_size ∧
    capacity (pool ob) = pool_size ∧
    (book_size ob + length (free_list (pool ob)) = pool_size)%nat.
Proof.
  intros Hnum.
  destruct (exec_slots garbage pool_size ops Hnum) as (ob & Hex & _ & _ & Hslots & Hcap).
  exists ob. split_and!; try done.
  unfold book_size. rewrite <- length_app. fold (slots ob).
  by rewrite Hslots, length_seq.
Qed.

Lemma slots_conserved_witness :
  ∃ ob,
    exec demo_ops (new_book (λ _, blank) 10) = Some ob ∧
    book_handles ob ++ free_list (pool ob) ≡ₚ seq 0 10 ∧
    capacity (pool ob) = 10%nat ∧
    (book_size ob + length (free_list (pool ob)) = 10)%nat.
Proof. apply (slots_conserved (λ _, blank) 10 demo_ops), demo_ops_numeric. Defined.

(** X3: in a book reached by public calls on a new book of [pool_size]
    slots, none of which was passed a NaN price, [add_order] throws exactly
    when the number of orders resting in the FIFOs equals the capacity of
    the pool; otherwise it returns, whatever the price of the new order. *)
Theorem add_order_throws_iff_full garbage pool_size ops ob now order :
  Forall op_numeric ops →
  exec ops (new_book garbage pool_size) = Some ob →
  (book_size ob <= pool_size)%nat ∧
  (add_order now order ob = Thrown ob [] ↔ book_size ob = pool_size) ∧
  (book_size ob ≠ pool_size → ∃ ob' out, add_order now order ob = Returned tt ob' out).
Proof.
  intros Hnum Hex.
  destruct (exec_slots garbage pool_size ops Hnum) as (ob1 & Hex1 & Hwf & _ & Hslots & _).
  assert (ob1 = ob) as -> by congruence.
  assert (book_size ob + length (free_list (pool ob)) = pool_size)%nat as Hlen.
  { unfold book_size. rewrite <- length_app. fold (slots ob).
    by rewrite Hslots, length_seq. }
  assert (Hret : free_list (pool ob) ≠ [] →
                 ∃ ob' out, add_order now order ob = Returned tt ob' out).
  { intros Hfree.
    destruct (last (free_list (pool ob))) as [h|] eqn:Hlast.
    - destruct (add_order_returns now order h ob (wf_nodup _ Hwf) Hlast)
        as (ob' & out & Hadd & _). eauto.
    - by apply last_None in Hlast. }
  split_and!.
  - lia.
  - split.
    + intros Hthrown. destruct (free_list (pool ob)) as [|x fl] eqn:Hfl.
      * simpl in Hlen. lia.
      * destruct Hret as (ob' & out & Hadd); [done|]. congruence.
    + intros Hfull. rewrite add_order_unfold.
      destruct (free_list (pool ob)) as [|x fl]; [done|]. simpl in Hlen. lia.
  - intros Hne. apply Hret. intros Hnil. rewrite Hnil in Hlen. simpl in Hlen. lia.
Qed.

Lemma add_order_throws_iff_full_witness :
  (book_size demo_book <= 10)%nat ∧
  (add_order 9 tie_buy demo_book = Thrown demo_book [] ↔ book_size demo_book = 10%nat) ∧
  (book_size demo_book ≠ 10%nat →
   ∃ ob' out, add_order 9 tie_buy demo_book = Returned tt ob' out).
Proof.
  apply (add_order_throws_iff_full (λ _, blank) 10 demo_ops demo_book 9 tie_buy).
  - apply demo_ops_numeric.
  - vm_compute. reflexivity.
Defined.

(** X4: [cancel_order] and [amend_order] on an id that is not in the index
    return [false], print nothing and leave the book as it was. *)
Theorem unknown_id_is_refused id now now' new_price new_quantity ob :
  order_lookup ob !! id = None →
  cancel_order id ob = Returned false ob [] ∧
  amend_order now now' id new_price new_quantity ob = Returned false ob [].
Proof.
  intros Hid. by rewrite cancel_order_unfold, amend_order_unfold, Hid.
Qed.

Lemma unknown_id_is_refused_witness :
  cancel_order 9999 demo_book = Returned false demo_book [] ∧
  amend_order 1 2 9999 10000 100 demo_book = Returned false demo_book [].
Proof.
  apply (unknown_id_is_refused 9999 1 2 10000 100 demo_book). by vm_compute.
Defined.

(** X5: on a consistent, uncrossed book [amend_order] always returns, with
    [true] exactly when the id is in the index; it never throws, even when
    the pool is full (the price-change path frees the order's slot before
    it allocates), and it leaves the book uncrossed.  When neither a level
    key of the book nor the new price is NaN, the book it leaves is
    consistent again and has no NaN key. *)
Theorem amend_order_returns now now' id new_price new_quantity ob :
  wf ob → uncrossed ob →
  ∃ ob' out,
    amend_order now now' id new_price new_quantity ob
    = Returned (bool_decide (is_Some (order_lookup ob !! id))) ob' out ∧
    uncrossed ob' ∧
    (no_nan_level ob → new_price ≠ NaN → wf ob' ∧ no_nan_level ob').
Proof.
  intros Hwf Hun. rewrite amend_order_unfold.
  destruct (order_lookup ob !! id) as [h|] eqn:Hid.
  2:{ by exists ob, []. }
  rewrite bool_decide_eq_true_2 by eauto.
  destruct (double_ne (price (deref ob h)) new_price).
  - set (amended := set_timestamp now (set_quantity new_quantity
                      (set_price new_price (deref ob h)))).
    assert (wf (cancelled id h ob)) as Hwf1 by (by apply cancelled_wf).
    assert (uncrossed (cancelled id h ob)) as Hun1 by (by apply cancelled_uncrossed).
    destruct (add_order_returns now' amended h (cancelled id h ob))
      as (ob' & out & Hadd & _).
    { apply (wf_nodup _ Hwf1). }
    { rewrite cancelled_free_list. apply last_snoc. }
    rewrite Hadd. exists ob', out. split_and!; [done| |].
    + apply (add_order_shaped now' amended (cancelled id h ob) ob');
        [by apply wf_shaped|done|by rewrite Hadd].
    + intros Hnan Hnum.
      destruct (add_order_outcome (λ _, True) now' amended (cancelled id h ob))
        as [[_ Hthrown]|(ob2 & out2 & Hadd2 & Hwf2 & _ & _ & Hnan2)];
        try done; [by apply cancelled_no_nan|congruence|].
      rewrite Hadd in Hadd2. by injection Hadd2 as <- <-.
  - do 2 eexists. split_and!; [done|done|].
    intros Hnan _. split; [by apply store_quantity_wf|done].
Qed.

Lemma amend_order_returns_witness :
  ∃ ob' out,
    amend_order 8 9 2 10075 100 demo_book
    = Returned (bool_decide (is_Some (order_lookup demo_book !! 2))) ob' out ∧
    uncrossed ob' ∧
    (no_nan_level demo_book → Num 10075 ≠ NaN → wf ob' ∧ no_nan_level ob').
Proof.
  apply (amend_order_returns 8 9 2 10075 100 demo_book); apply demo_book_wf.
Defined.

(** ** The FIFO under a key *)

Lemma fifo_at_absent k m : k ∉ m.*1 → fifo_at k m = [].
Proof.
  induction m as [|[k0 q0] rest IH]; csimpl; [done|].
  rewrite not_elem_of_cons. intros [Hne Hrest].
  destruct (decide (k0 = k)); [congruence|auto].
Qed.

Lemma fifo_at_elem k m h : h ∈ fifo_at k m → (k, fifo_at k m) ∈ m.
Proof.
  induction m as [|[k0 q0] rest IH]; simpl; [by intros ?%elem_of_nil|].
  destruct (decide (k0 = k)) as [->|Hne]; [by left|]. intros Hh. right. auto.
Qed.

Lemma fifo_at_handles k m h : h ∈ fifo_at k m → h ∈ side_handles m.
Proof.
  intros Hh. apply elem_of_side_handles. exists k, (fifo_at k m).
  split; [by eapply fifo_at_elem|done].
Qed.

Section FifoFacts.
Variable before : double -> double -> bool.
Hypothesis before_irrefl : ∀ a, before a a = false.
Hypothesis before_trans :
  ∀ a b c, before a b = true → before b c = true → before a c = true.
Hypothesis before_total :
  ∀ a b, a ≠ NaN → b ≠ NaN → before a b = false → before b a = false → a = b.

Lemma keys_after p k0 (rest : side_book) :
  before p k0 = true ∨ p = k0 →
  Forall (λ b, before k0 b = true) rest.*1 → p ∉ rest.*1.
Proof.
  intros Hp Hall Hin. rewrite Forall_forall in Hall. apply Hall in Hin.
  destruct Hp as [Hp| ->].
  - pose proof (before_trans _ _ _ Hp Hin) as Hpp. by rewrite before_irrefl in Hpp.
  - by rewrite before_irrefl in Hin.
Qed.

(** [m[p].push_back(h)], when neither [p] nor a key of the side is NaN,
    appends [h] to the FIFO under [p] and leaves the FIFO under every other
    key as it was. *)
Lemma fifo_at_push_back k p h m :
  keys_sorted before m → p ≠ NaN → NaN ∉ m.*1 →
  fifo_at k (level_push_back before p h m)
  = if decide (k = p) then fifo_at p m ++ [h] else fifo_at k m.
Proof.
  unfold keys_sorted.
  induction m as [|[k0 q0] rest IH]; csimpl; intros Hs Hp Hkeys.
  - destruct (decide (p = k)), (decide (k = p)); congruence.
  - apply StronglySorted_inv in Hs as [Hs Hall].
    apply not_elem_of_cons in Hkeys as [Hk0 Hkeys].
    destruct (before k0 p) eqn:E1; [|destruct (before p k0) eqn:E2]; csimpl.
    + assert (k0 ≠ p) by (intros ->; by rewrite before_irrefl in E1).
      rewrite IH by done.
      destruct (decide (k0 = k)), (decide (k0 = p)), (decide (k = p)); congruence.
    + assert (k0 ≠ p) by (intros ->; by rewrite before_irrefl in E2).
      assert (fifo_at p rest = []) as Hnone.
      { apply fifo_at_absent. eapply keys_after; [|done]. auto. }
      destruct (decide (p = k)), (decide (k0 = k)), (decide (k0 = p)), (decide (k = p));
        try congruence. by rewrite Hnone.
    + assert (k0 = p) as -> by (apply before_total; auto).
      rewrite (decide_True (P := p = p)) by done.
      destruct (decide (p = k)), (decide (k = p)); congruence.
Qed.

(** [find(p)], [remove(h)] and the [erase] of an emptied level, when [h] is
    queued under [p] and nowhere else on the side, take [h] out of its FIFO
    and leave every FIFO otherwise as it was. *)
Lemma fifo_at_remove k p h m :
  keys_sorted before m →
  (∀ k q, (k, q) ∈ m → h ∈ q → k = p) →
  fifo_at k (level_remove before p h m) = filter (λ x, x ≠ h) (fifo_at k m).
Proof.
  unfold keys_sorted.
  induction m as [|[k0 q0] rest IH]; csimpl; intros Hs Hat; [done|].
  apply StronglySorted_inv in Hs as [Hs Hall].
  assert (Hrest : ∀ k q, (k, q) ∈ rest → h ∈ q → k = p).
  { intros k' q Hin. apply Hat. by right. }
  assert (Hclean : before k0 p = false → ∀ k', h ∉ fifo_at k' rest).
  { intros Hk k' Hh. apply fifo_at_elem in Hh as Hlevel.
    assert (k' = p) as -> by eauto.
    rewrite Forall_forall in Hall.
    assert (before k0 p = true) as Hb; [|congruence].
    apply Hall. apply list_elem_of_fmap. by exists (p, fifo_at p rest). }
  assert (Hskip : k0 ≠ p → h ∉ q0).
  { intros Hne Hh. apply Hne. eapply Hat; [by left|done]. }
  destruct (before k0 p) eqn:E1; [|destruct (before p k0) eqn:E2]; csimpl.
  - assert (k0 ≠ p) as Hne by (intros ->; by rewrite before_irrefl in E1).
    destruct (decide (k0 = k)); [by rewrite filter_out_absent by auto|by apply IH].
  - assert (k0 ≠ p) as Hne by (intros ->; by rewrite before_irrefl in E2).
    destruct (decide (k0 = k)); rewrite filter_out_absent; auto.
  - assert (fifo_at k0 rest = []) as Hnone.
    { apply fifo_at_absent. eapply keys_after; [|done]. auto. }
    destruct (filter (λ x, x ≠ h) q0) as [|x q'] eqn:Hf; csimpl.
    + destruct (decide (k0 = k)) as [<-|Hne]; [by rewrite Hnone|].
      rewrite filter_out_absent; auto.
    + destruct (decide (k0 = k)); [done|]. rewrite filter_out_absent; auto.
Qed.
End FifoFacts.

(** The FIFO an order of the book sits in is the one under its price. *)
Lemma levels_ok_fifo_at ob side m h k :
  levels_ok (order_at ob side) m → h ∈ fifo_at k m → price (deref ob h) = k.
Proof.
  intros Hok Hh. apply fifo_at_elem in Hh as Hlevel.
  by destruct (levels_ok_level _ _ _ _ _ Hok Hlevel Hh).
Qed.

Lemma cancelled_fifos id h ob :
  wf ob → order_lookup ob !! id = Some h →
  ∀ k, fifo_at k (bids (cancelled id h ob)) = filter (λ x, x ≠ h) (fifo_at k (bids ob)) ∧
       fifo_at k (asks (cancelled id h ob)) = filter (λ x, x ≠ h) (fifo_at k (asks ob)).
Proof.
  intros Hwf Hid k. destruct (wf_lookup _ Hwf _ _ Hid) as [Hin _].
  pose proof (wf_side_of _ _ Hwf Hin) as Hside.
  destruct Hwf as [Hbs Has Hbok Haok _ _].
  assert (Hkeep : ∀ m, h ∉ side_handles m →
            filter (λ x, x ≠ h) (fifo_at k m) = fifo_at k m).
  { intros m Hout. apply filter_out_absent. intros Hh.
    by apply Hout, (fifo_at_handles k). }
  unfold cancelled. destruct (is_buy (deref ob h)); simpl; destruct Hside as [_ Hout].
  - rewrite (Hkeep (asks ob)) by done. split; [|done].
    apply (fifo_at_remove _ greater_irrefl greater_trans); [done|].
    intros k' q Hkq Hh. by destruct (levels_ok_level _ _ _ _ _ Hbok Hkq Hh).
  - rewrite (Hkeep (bids ob)) by done. split; [done|].
    apply (fifo_at_remove _ less_irrefl less_trans); [done|].
    intros k' q Hkq Hh. by destruct (levels_ok_level _ _ _ _ _ Haok Hkq Hh).
Qed.

(** X6: [cancel_order] of a live id on a consistent book returns [true] and
    prints nothing.  It takes that order's slot, and no other, out of the
    FIFOs: at every price on both sides the FIFO is the old one without the
    slot, in the same order; a level left empty is erased, so that the book
    is consistent again.  The id leaves the index, the slot goes to the back
    of the free list, no order is written to, and a second [cancel_order]
    of the id returns [false] and changes nothing. *)
Theorem cancel_order_live id h ob :
  wf ob → order_lookup ob !! id = Some h →
  ∃ ob',
    cancel_order id ob = Returned true ob' [] ∧
    (∀ k, fifo_at k (bids ob') = filter (λ x, x ≠ h) (fifo_at k (bids ob)) ∧
          fifo_at k (asks ob') = filter (λ x, x ≠ h) (fifo_at k (asks ob))) ∧
    book_handles ob' = filter (λ x, x ≠ h) (book_handles ob) ∧
    (book_size ob' + 1 = book_size ob)%nat ∧
    order_lookup ob' = delete id (order_lookup ob) ∧
    free_list (pool ob') = free_list (pool ob) ++ [h] ∧
    (∀ g, deref ob' g = deref ob g) ∧
    cancel_order id ob' = Returned false ob' [] ∧
    wf ob'.
Proof.
  intros Hwf Hid. exists (cancelled id h ob).
  destruct (wf_lookup _ Hwf _ _ Hid) as [Hin _].
  split_and!; [| | | | | | | |by apply cancelled_wf].
  - by rewrite cancel_order_unfold, Hid.
  - by apply cancelled_fifos.
  - by apply cancelled_handles.
  - unfold book_size. rewrite cancelled_handles by done.
    pose proof (wf_nodup _ Hwf) as Hnd. apply NoDup_app in Hnd as [Hnd _].
    rewrite (NoDup_filter_out h (book_handles ob)) at 2 by done. simpl. lia.
  - apply cancelled_lookup.
  - apply cancelled_free_list.
  - apply cancelled_deref.
  - by rewrite cancel_order_unfold, cancelled_lookup, lookup_delete_eq.
Qed.

Lemma cancel_order_live_witness :
  ∃ ob',
    cancel_order 5 demo_book = Returned true ob' [] ∧
    (∀ k, fifo_at k (bids ob') = filter (λ x, x ≠ 5%nat) (fifo_at k (bids demo_book)) ∧
          fifo_at k (asks ob') = filter (λ x, x ≠ 5%nat) (fifo_at k (asks demo_book))) ∧
    book_handles ob' = filter (λ x, x ≠ 5%nat) (book_handles demo_book) ∧
    (book_size ob' + 1 = book_size demo_book)%nat ∧
    order_lookup ob' = delete 5 (order_lookup demo_book) ∧
    free_list (pool ob') = free_list (pool demo_book) ++ [5%nat] ∧
    (∀ g, deref ob' g = deref demo_book g) ∧
    cancel_order 5 ob' = Returned false ob' [] ∧
    wf ob'.
Proof.
  apply (cancel_order_live 5 5%nat demo_book); [apply demo_book_wf|by vm_compute].
Defined.

Lemma inserted_fifos now order h ob :
  keys_sorted greater (bids ob) → keys_sorted less (asks ob) →
  price order ≠ NaN → no_nan_level ob →
  ∀ k,
    fifo_at k (bids (inserted now order h ob))
    = (if decide (is_buy order = true ∧ k = price order)
       then fifo_at k (bids ob) ++ [h] else fifo_at k (bids ob)) ∧
    fifo_at k (asks (inserted now order h ob))
    = (if decide (is_buy order = false ∧ k = price order)
       then fifo_at k (asks ob) ++ [h] else fifo_at k (asks ob)).
Proof.
  intros Hbs Has Hnum [Hnb Hna] k. rewrite inserted_bids, inserted_asks.
  destruct (is_buy order).
  - rewrite (fifo_at_push_back _ greater_irrefl greater_trans greater_total) by done.
    split.
    + destruct (decide (k = price order)) as [->|Hne].
      * by rewrite decide_True.
      * rewrite decide_False; [done|]. by intros [_ ?].
    + rewrite decide_False; [done|]. by intros [? _].
  - rewrite (fifo_at_push_back _ less_irrefl less_trans less_total) by done.
    split.
    + rewrite decide_False; [done|]. by intros [? _].
    + destruct (decide (k = price order)) as [->|Hne].
      * by rewrite decide_True.
      * rewrite decide_False; [done|]. by intros [_ ?].
Qed.

(** X7: on a consistent, uncrossed book without a NaN key and with a free
    slot, [add_order] of an order whose price is not NaN and that does not
    cross the other side returns without a trade.  The order is written to
    the slot at the back of the free list, with the clock's reading as
    timestamp if it came with timestamp 0, and entered in the index under
    its id.  Its slot is appended at the tail of the FIFO under its price on
    its side; every other FIFO of the book is as it was, and so is every
    other order. *)
Theorem add_order_resting now order h ob :
  wf ob → uncrossed ob → no_nan_level ob →
  price order ≠ NaN → rests order ob →
  last (free_list (pool ob)) = Some h →
  ∃ ob',
    add_order now order ob = Returned tt ob' [] ∧
    deref ob' h = stamped now order ∧
    order_lookup ob' = <[order_id order := h]> (order_lookup ob) ∧
    free_list (pool ob') = removelast (free_list (pool ob)) ∧
    (∀ k,
      fifo_at k (bids ob')
      = (if decide (is_buy order = true ∧ k = price order)
         then fifo_at k (bids ob) ++ [h] else fifo_at k (bids ob)) ∧
      fifo_at k (asks ob')
      = (if decide (is_buy order = false ∧ k = price order)
         then fifo_at k (asks ob) ++ [h] else fifo_at k (asks ob))) ∧
    (∀ g, g ≠ h → deref ob' g = deref ob g) ∧
    wf ob' ∧ uncrossed ob' ∧ no_nan_level ob'.
Proof.
  intros Hwf Hun Hnan Hnum Hrest Hlast.
  exists (inserted now order h (with_free_list (removelast (free_list (pool ob))) ob)).
  split_and!.
  - by apply add_order_rests.
  - apply inserted_deref.
  - by rewrite inserted_lookup.
  - by rewrite inserted_free_list.
  - intros k.
    apply (inserted_fifos now order h
             (with_free_list (removelast (free_list (pool ob))) ob));
      by destruct Hwf.
  - intros g Hg. by rewrite inserted_deref_ne.
  - by apply inserted_wf.
  - by apply inserted_uncrossed.
  - by apply inserted_no_nan.
Qed.

Lemma add_order_resting_witness :
  ∃ ob',
    add_order 9 (mkOrder 30 true 10050 60 0) demo_book = Returned tt ob' [] ∧
    deref ob' 1 = stamped 9 (mkOrder 30 true 10050 60 0) ∧
    order_lookup ob' = <[30 := 1%nat]> (order_lookup demo_book) ∧
    free_list (pool ob') = removelast (free_list (pool demo_book)) ∧
    (∀ k,
      fifo_at k (bids ob')
      = (if decide (true = true ∧ k = 10050)
         then fifo_at k (bids demo_book) ++ [1%nat] else fifo_at k (bids demo_book)) ∧
      fifo_at k (asks ob')
      = (if decide (true = false ∧ k = 10050)
         then fifo_at k (asks demo_book) ++ [1%nat] else fifo_at k (asks demo_book))) ∧
    (∀ g, g ≠ 1%nat → deref ob' g = deref demo_book g) ∧
    wf ob' ∧ uncrossed ob' ∧ no_nan_level ob'.
Proof.
  apply (add_order_resting 9 (mkOrder 30 true 10050 60 0) 1%nat demo_book).
  - apply demo_book_wf.
  - apply demo_book_wf.
  - apply demo_book_wf.
  - done.
  - intros a Ha. vm_compute in Ha.
    repeat (apply elem_of_cons in Ha as [->|Ha]; [reflexivity|]).
    by apply elem_of_nil in Ha.
  - vm_compute. reflexivity.
Defined.

Lemma cancelled_rests id h order ob :
  is_buy order = is_buy (deref ob h) →
  rests order ob → rests order (cancelled id h ob).
Proof.
  unfold rests. intros Hside Hrest. destruct (cancelled_keys id h ob) as [Hkb Hka].
  destruct (is_buy order); auto.
Qed.

(** X8: [amend_order] of a live order to a different price, not NaN, at
    which it does not cross, on a consistent and uncrossed book without a
    NaN key, returns [true] without a trade.  The order keeps its slot and
    its index entry and the free list is as before; the slot now holds the
    order with the new price, the new quantity and the clock's reading as
    timestamp.  The slot leaves the FIFO
    of the old price and is appended at the tail of the FIFO under the new
    price on the same side: the order has lost its place in the queue.
    Every other order and every other FIFO entry is as it was. *)
Theorem amend_order_requeues now now' id h new_price new_quantity ob :
  wf ob → uncrossed ob → no_nan_level ob →
  order_lookup ob !! id = Some h →
  price (deref ob h) ≠ new_price → new_price ≠ NaN →
  rests (set_price new_price (deref ob h)) ob →
  ∃ ob',
    amend_order now now' id new_price new_quantity ob = Returned true ob' [] ∧
    deref ob' h
    = stamped now' (set_timestamp now
                      (set_quantity new_quantity (set_price new_price (deref ob h)))) ∧
    order_lookup ob' = order_lookup ob ∧
    free_list (pool ob') = free_list (pool ob) ∧
    (∀ k,
      fifo_at k (bids ob')
      = (if decide (is_buy (deref ob h) = true ∧ k = new_price)
         then fifo_at k (bids ob) ++ [h]
         else filter (λ x, x ≠ h) (fifo_at k (bids ob))) ∧
      fifo_at k (asks ob')
      = (if decide (is_buy (deref ob h) = false ∧ k = new_price)
         then fifo_at k (asks ob) ++ [h]
         else filter (λ x, x ≠ h) (fifo_at k (asks ob)))) ∧
    (∀ g, g ≠ h → deref ob' g = deref ob g) ∧
    wf ob' ∧ uncrossed ob' ∧ no_nan_level ob'.
Proof.
  intros Hwf Hun Hnan Hid Hprice Hnum Hrest.
  set (amended := set_timestamp now
                    (set_quantity new_quantity (set_price new_price (deref ob h)))).
  set (ob1 := cancelled id h ob).
  assert (wf ob1) as Hwf1 by (by apply cancelled_wf).
  assert (uncrossed ob1) as Hun1 by (by apply cancelled_uncrossed).
  assert (no_nan_level ob1) as Hnan1 by (by apply cancelled_no_nan).
  assert (last (free_list (pool ob1)) = Some h) as Hlast.
  { unfold ob1. rewrite cancelled_free_list. apply last_snoc. }
  assert (removelast (free_list (pool ob1)) = free_list (pool ob)) as Hfl.
  { unfold ob1. rewrite cancelled_free_list. apply removelast_last. }
  assert (rests amended ob1) as Hrest1.
  { apply cancelled_rests; [done|]. exact Hrest. }
  destruct (wf_lookup _ Hwf _ _ Hid) as [Hin Hidh].
  exists (inserted now' amended h (with_free_list (removelast (free_list (pool ob1))) ob1)).
  split.
  { rewrite amend_order_unfold, Hid.
    destruct (double_ne (price (deref ob h)) new_price) eqn:E;
      [|by apply double_ne_false in E as [? _]].
    fold amended ob1. by rewrite (add_order_rests now' amended h ob1). }
  split_and!.
  - apply inserted_deref.
  - rewrite inserted_lookup.
    change (order_lookup (with_free_list _ ob1)) with (order_lookup ob1).
    unfold ob1. rewrite cancelled_lookup.
    change (order_id amended) with (order_id (deref ob h)). rewrite Hidh.
    rewrite insert_delete_eq. by apply insert_id.
  - by rewrite inserted_free_list.
  - intros k.
    destruct (inserted_fifos now' amended h
                (with_free_list (removelast (free_list (pool ob1))) ob1)) with (k := k)
      as [-> ->]; [by destruct Hwf1|by destruct Hwf1|done|done|].
    change (bids (with_free_list _ ob1)) with (bids ob1).
    change (asks (with_free_list _ ob1)) with (asks ob1).
    change (is_buy amended) with (is_buy (deref ob h)).
    change (price amended) with new_price. unfold ob1.
    destruct (cancelled_fifos id h ob Hwf Hid k) as [-> ->].
    assert (Hkeep : ∀ side m, levels_ok (order_at ob side) m →
              filter (λ x, x ≠ h) (fifo_at new_price m) = fifo_at new_price m).
    { intros side m Hok. apply filter_out_absent. intros Hh.
      apply Hprice. by eapply levels_ok_fifo_at. }
    split.
    + destruct (decide (is_buy (deref ob h) = true ∧ k = new_price)) as [[_ ->]|]; [|done].
      by rewrite (Hkeep true) by by destruct Hwf.
    + destruct (decide (is_buy (deref ob h) = false ∧ k = new_price)) as [[_ ->]|]; [|done].
      by rewrite (Hkeep false) by by destruct Hwf.
  - intros g Hg. rewrite inserted_deref_ne by done. apply (cancelled_deref id h ob).
  - by apply inserted_wf.
  - by apply inserted_uncrossed.
  - by apply inserted_no_nan.
Qed.

Lemma amend_order_requeues_witness :
  ∃ ob',
    amend_order 8 9 2 10075 100 demo_book = Returned true ob' [] ∧
    deref ob' 8
    = stamped 9 (set_timestamp 8 (set_quantity 100 (set_price 10075 (deref demo_book 8)))) ∧
    order_lookup ob' = order_lookup demo_book ∧
    free_list (pool ob') = free_list (pool demo_book) ∧
    (∀ k,
      fifo_at k (bids ob')
      = (if decide (is_buy (deref demo_book 8) = true ∧ k = 10075)
         then fifo_at k (bids demo_book) ++ [8%nat]
         else filter (λ x, x ≠ 8%nat) (fifo_at k (bids demo_book))) ∧
      fifo_at k (asks ob')
      = (if decide (is_buy (deref demo_book 8) = false ∧ k = 10075)
         then fifo_at k (asks demo_book) ++ [8%nat]
         else filter (λ x, x ≠ 8%nat) (fifo_at k (asks demo_book)))) ∧
    (∀ g, g ≠ 8%nat → deref ob' g = deref demo_book g) ∧
    wf ob' ∧ uncrossed ob' ∧ no_nan_level ob'.
Proof.
  apply (amend_order_requeues 8 9 2 8%nat 10075 100 demo_book).
  - apply demo_book_wf.
  - apply demo_book_wf.
  - apply demo_book_wf.
  - by vm_compute.
  - by vm_compute.
  - done.
  - intros a Ha. vm_compute in Ha.
    repeat (apply elem_of_cons in Ha as [->|Ha]; [reflexivity|]).
    by apply elem_of_nil in Ha.
Defined.

(** [cancel_order] right after the insertion of the same slot finds the
    level [operator[]] reached, whatever the price is, and gives the sides
    back. *)
Lemma cancelled_inserted_sides now order h id ob :
  shaped ob → h ∉ book_handles ob →
  bids (cancelled id h (inserted now order h ob)) = bids ob ∧
  asks (cancelled id h (inserted now order h ob)) = asks ob.
Proof.
  intros [Hbs Has Hbne Hane] Hnotin.
  unfold book_handles in Hnotin. rewrite not_elem_of_app in Hnotin.
  destruct Hnotin as [Hnb Hna].
  destruct (stamped_fields now order) as (_ & Hsbuy & Hsprice & _).
  unfold cancelled. rewrite inserted_deref, Hsbuy, Hsprice.
  destruct (is_buy order) eqn:Hside; simpl;
    rewrite ?inserted_bids, ?inserted_asks, Hside.
  - split; [|done]. by apply (level_remove_push_back _ greater_irrefl).
  - split; [done|]. by apply (level_remove_push_back _ less_irrefl).
Qed.

(** X9: [add_order] does not look for the id in the index.  When an order
    is added under an id that is already live (and rests), the index entry
    is overwritten with the new slot while the earlier order stays in its
    FIFO, untouched.  [cancel_order] of the id then removes the newer order
    only; after it the id is no longer in the index, so the earlier order is
    still resting in the book but can no longer be cancelled or amended. *)
Theorem add_order_duplicate_id now now1 now2 order h_old h p q ob :
  wf ob → uncrossed ob → rests order ob →
  order_lookup ob !! order_id order = Some h_old →
  last (free_list (pool ob)) = Some h →
  ∃ ob1 ob2,
    add_order now order ob = Returned tt ob1 [] ∧
    order_lookup ob1 !! order_id order = Some h ∧ h ≠ h_old ∧
    h_old ∈ book_handles ob1 ∧ deref ob1 h_old = deref ob h_old ∧
    cancel_order (order_id order) ob1 = Returned true ob2 [] ∧
    h ∉ book_handles ob2 ∧
    h_old ∈ book_handles ob2 ∧ deref ob2 h_old = deref ob h_old ∧
    cancel_order (order_id order) ob2 = Returned false ob2 [] ∧
    amend_order now1 now2 (order_id order) p q ob2 = Returned false ob2 [].
Proof.
  intros Hwf Hun Hrest Hold Hlast.
  set (ob0 := with_free_list (removelast (free_list (pool ob))) ob).
  set (ob1 := inserted now order h ob0).
  destruct (wf_lookup _ Hwf _ _ Hold) as [Hin _].
  assert (h ∉ book_handles ob) as Hfresh.
  { pose proof (wf_nodup _ Hwf) as Hnd.
    rewrite (last_removelast _ _ Hlast) in Hnd.
    apply NoDup_app in Hnd as (_ & Hdisj & _).
    intros Hh. apply (Hdisj _ Hh). rewrite elem_of_app, list_elem_of_singleton. auto. }
  assert (book_handles (cancelled (order_id order) h ob1) = book_handles ob) as Hback.
  { destruct (cancelled_inserted_sides now order h (order_id order) ob0) as [Hb Ha];
      [by eapply shaped_frame; [..|apply wf_shaped, Hwf]|done|].
    unfold book_handles. fold ob1 in Hb, Ha. by rewrite Hb, Ha. }
  assert (h ≠ h_old) as Hne by (by intros ->).
  assert (order_lookup ob1 !! order_id order = Some h) as Hnew.
  { unfold ob1. rewrite inserted_lookup. apply lookup_insert_eq. }
  assert (h_old ∈ book_handles ob1) as Hin1.
  { unfold ob1. rewrite inserted_handles. by right. }
  assert (order_lookup (cancelled (order_id order) h ob1) !! order_id order = None) as Hgone.
  { by rewrite cancelled_lookup, lookup_delete_eq. }
  exists ob1, (cancelled (order_id order) h ob1).
  split_and!; try done.
  - by apply add_order_rests.
  - unfold ob1. by rewrite inserted_deref_ne.
  - by rewrite cancel_order_unfold, Hnew.
  - by rewrite Hback.
  - by rewrite Hback.
  - rewrite cancelled_deref. unfold ob1. by rewrite inserted_deref_ne.
  - by rewrite cancel_order_unfold, Hgone.
  - by rewrite amend_order_unfold, Hgone.
Qed.

Lemma add_order_duplicate_id_witness :
  ∃ ob1 ob2,
    add_order 9 (mkOrder 3 true 10000 10 0) demo_book = Returned tt ob1 [] ∧
    order_lookup ob1 !! 3 = Some 1%nat ∧ 1%nat ≠ 7%nat ∧
    7%nat ∈ book_handles ob1 ∧ deref ob1 7 = deref demo_book 7 ∧
    cancel_order 3 ob1 = Returned true ob2 [] ∧
    1%nat ∉ book_handles ob2 ∧
    7%nat ∈ book_handles ob2 ∧ deref ob2 7 = deref demo_book 7 ∧
    cancel_order 3 ob2 = Returned false ob2 [] ∧
    amend_order 10 11 3 10010 20 ob2 = Returned false ob2 [].
Proof.
  apply (add_order_duplicate_id 9 10 11 (mkOrder 3 true 10000 10 0) 7%nat 1%nat
           10010 20 demo_book).
  - apply demo_book_wf.
  - apply demo_book_wf.
  - intros a Ha. vm_compute in Ha.
    repeat (apply elem_of_cons in Ha as [->|Ha]; [reflexivity|]).
    by apply elem_of_nil in Ha.
  - by vm_compute.
  - vm_compute. reflexivity.
Defined.

(** ** Quantities are conserved by matching *)

Lemma level_sum_app ob l1 l2 :
  level_sum ob (l1 ++ l2) = level_sum ob l1 + level_sum ob l2.
Proof.
  unfold level_sum. induction l1 as [|h l1 IH]; simpl; [done|]. rewrite IH. lia.
Qed.

Lemma level_sum_ext ob ob' l :
  (∀ g, g ∈ l → quantity (deref ob' g) = quantity (deref ob g)) →
  level_sum ob' l = level_sum ob l.
Proof.
  unfold level_sum. induction l as [|h l IH]; simpl; intros Hsame; [done|].
  rewrite Hsame by (by left). rewrite IH; [done|]. intros g Hg. apply Hsame. by right.
Qed.

Lemma level_sum_perm ob l1 l2 : l1 ≡ₚ l2 → level_sum ob l1 = level_sum ob l2.
Proof.
  unfold level_sum. induction 1; simpl; lia.
Qed.

(** One pass: the book loses the traded quantity on each side, and the
    traded quantity is positive. *)
Lemma try_match_iter_quantity ob t ob' :
  NoDup (slots ob) → quantities_positive ob →
  try_match_iter ob = Some (t, ob') →
  resting_quantity ob' + 2 * match_qty t = resting_quantity ob ∧ 0 < match_qty t.
Proof.
  intros Hnd0 Hpos Hit.
  apply try_match_iter_spec in Hit
    as (pb & hb & bt & br & pa & ha & at' & ar & Hb & Ha & _ & -> & Hrest).
  assert (hb ≠ ha) as Hne by eauto using heads_distinct.
  destruct (Hrest Hne) as (Hmem & _ & Hb' & Ha' & _). clear Hrest.
  cbv zeta in *. simpl.
  set (qb := quantity (deref ob hb)) in *.
  set (qa := quantity (deref ob ha)) in *.
  set (qb' := wrap64 (qb - _)) in *.
  set (qa' := wrap64 (qa - _)) in *.
  assert (Hbook : book_handles ob
                  = (hb :: bt ++ side_handles br) ++ (ha :: at' ++ side_handles ar)).
  { unfold book_handles. by rewrite Hb, Ha, !side_handles_cons. }
  assert (0 < qb < 2 ^ 64) as Hqb.
  { apply Hpos. rewrite Hbook. rewrite elem_of_app, elem_of_cons. auto. }
  assert (0 < qa < 2 ^ 64) as Hqa.
  { apply Hpos. rewrite Hbook. rewrite elem_of_app, !elem_of_cons. auto. }
  assert (qb' = qb - qb `min` qa) as Eb.
  { unfold qb', wrap64. apply Z.mod_small. lia. }
  assert (qa' = qa - qb `min` qa) as Ea.
  { unfold qa', wrap64. apply Z.mod_small. lia. }
  pose proof Hnd0 as Hnd. apply NoDup_app in Hnd as [Hnd _].
  rewrite Hbook in Hnd.
  apply NoDup_app in Hnd as (Hndb & Hdisj & Hnda).
  apply NoDup_cons in Hndb as [Hhb Hndb]. apply NoDup_cons in Hnda as [Hha Hnda].
  assert (Hqhb : quantity (deref ob' hb) = qb').
  { unfold deref. rewrite Hmem. rewrite fn_lookup_insert_ne by done.
    by rewrite fn_lookup_insert. }
  assert (Hqha : quantity (deref ob' ha) = qa').
  { unfold deref. rewrite Hmem. by rewrite fn_lookup_insert. }
  assert (Hother : ∀ l, hb ∉ l → ha ∉ l → level_sum ob' l = level_sum ob l).
  { intros l Hl1 Hl2. apply level_sum_ext. intros g Hg. unfold deref. rewrite Hmem.
    rewrite !fn_lookup_insert_ne; [done|by intros ->..]. }
  assert (Hrestb : level_sum ob' (bt ++ side_handles br) = level_sum ob (bt ++ side_handles br)).
  { apply Hother; [done|]. intros Hin. apply (Hdisj ha); [by right|by left]. }
  assert (Hresta : level_sum ob' (at' ++ side_handles ar) = level_sum ob (at' ++ side_handles ar)).
  { apply Hother; [|done]. intros Hin. apply (Hdisj hb); [by left|by right]. }
  split; [|lia].
  unfold resting_quantity. rewrite Hbook. unfold book_handles. rewrite Hb', Ha'.
  destruct (qb' =? 0) eqn:E1, (qa' =? 0) eqn:E2; cbv iota;
    rewrite ?Hb, ?Ha, ?erase_if_empty_handles, ?side_handles_cons, !level_sum_app;
    change (level_sum ?o (?x :: ?l)) with (quantity (deref o x) + level_sum o l);
    rewrite ?level_sum_app, ?Hqhb, ?Hqha;
    rewrite !level_sum_app in Hrestb, Hresta;
    fold qb qa; rewrite ?Z.eqb_eq, ?Z.eqb_neq in *; lia.
Qed.

(** The loop: what has left the book is twice what was traded. *)
Lemma try_match_loop_quantity fuel ob ob' out :
  NoDup (slots ob) → quantities_positive ob →
  try_match_loop fuel ob = Returned tt ob' out →
  resting_quantity ob' + 2 * traded out = resting_quantity ob ∧
  Forall (λ t, 0 < match_qty t) out.
Proof.
  revert ob out. induction fuel as [|fuel IH]; intros ob out Hwf Hpos; [done|]. simpl.
  destruct (try_match_iter ob) as [[t ob1]|] eqn:Hit.
  - unfold bind, emit.
    destruct (try_match_loop fuel ob1) as [[] ob2 out2| |] eqn:Hrun; try done.
    intros [= <- <-].
    destruct (try_match_iter_quantity _ _ _ Hwf Hpos Hit) as [Hq Hm].
    destruct (IH ob1 out2) as [Hq2 Hall]; try done.
    { by eapply try_match_iter_distinct. }
    { by eapply try_match_iter_positive. }
    split; [simpl; lia|by constructor].
  - intros [= <- <-]. split; [simpl; lia|constructor].
Qed.

(** X10: matching conserves quantity.  When [add_order] brings an order of
    positive quantity into a consistent book of positive quantities and
    returns, every trade it printed has a positive quantity, and the
    quantity resting in the book afterwards plus twice the quantity traded
    (once for the buyer, once for the seller) is the quantity that rested
    before plus the quantity of the new order. *)
Theorem add_order_conserves_quantity now order ob ob' out :
  wf ob → quantities_positive ob →
  0 < quantity order < 2 ^ 64 →
  add_order now order ob = Returned tt ob' out →
  resting_quantity ob' + 2 * traded out = resting_quantity ob + quantity order ∧
  Forall (λ t, 0 < match_qty t) out.
Proof.
  intros Hwf Hpos Hq. rewrite add_order_unfold.
  destruct (last (free_list (pool ob))) as [h|] eqn:Hlast; [|done].
  intros Hrun. unfold try_match in Hrun.
  apply try_match_loop_quantity in Hrun as [Hsum Hall];
    [|rewrite inserted_slots by done; apply (wf_nodup _ Hwf)
     |apply inserted_positive; try done; apply (wf_nodup _ Hwf)].
  split; [|done]. rewrite Hsum. unfold resting_quantity.
  rewrite (level_sum_perm _ _ _ (inserted_handles _ _ _ _)).
  change (level_sum ?o (?x :: ?l)) with (quantity (deref o x) + level_sum o l).
  rewrite inserted_deref.
  destruct (stamped_fields now order) as (_ & _ & _ & ->).
  change (book_handles (with_free_list _ ob)) with (book_handles ob).
  rewrite (level_sum_ext ob _ (book_handles ob)); [lia|].
  intros g Hg. rewrite inserted_deref_ne; [done|]. intros <-.
  pose proof (wf_nodup _ Hwf) as Hnd. rewrite (last_removelast _ _ Hlast) in Hnd.
  apply NoDup_app in Hnd as (_ & Hdisj & _).
  apply (Hdisj _ Hg). rewrite elem_of_app, list_elem_of_singleton. auto.
Qed.

Lemma fifo_resting_wf :
  wf fifo_resting ∧ uncrossed fifo_resting ∧ quantities_positive fifo_resting ∧
  no_nan_level fifo_resting.
Proof.
  assert (Forall op_numeric (take 3 fifo_ops)) as Hnum by (by repeat constructor).
  destruct (exec_positive (take 3 fifo_ops) (empty_book 5))
    as (ob & Hex & Hwf & Hpos); try done.
  - apply new_book_wf.
  - apply new_book_uncrossed.
  - apply new_book_no_nan.
  - by intros h ?%elem_of_nil.
  - repeat constructor; simpl; lia.
  - assert (ob = fifo_resting) as -> by (unfold fifo_resting, after; by rewrite Hex).
    destruct (exec_wf (take 3 fifo_ops) (empty_book 5) fifo_resting)
      as (_ & Hun & Hnan); try done.
    + apply new_book_wf.
    + apply new_book_uncrossed.
    + apply new_book_no_nan.
Qed.

Lemma fifo_crossed_wf : wf fifo_crossed ∧ quantities_positive fifo_crossed.
Proof.
  destruct fifo_resting_wf as (Hwf & _ & Hpos & Hnan).
  split.
  - by apply (inserted_wf 4 fifo_sell 1%nat fifo_resting).
  - apply (inserted_positive 4 fifo_sell 1%nat fifo_resting);
      [apply (wf_nodup _ Hwf)|done|reflexivity|simpl; lia].
Qed.

Lemma add_order_conserves_quantity_witness :
  resting_quantity (after [Add 4 fifo_sell] fifo_resting)
  + 2 * traded [mkTrade 100 95 20 23; mkTrade 150 95 21 23]
  = resting_quantity fifo_resting + quantity fifo_sell ∧
  Forall (λ t, 0 < match_qty t) [mkTrade 100 95 20 23; mkTrade 150 95 21 23].
Proof.
  apply (add_order_conserves_quantity 4 fifo_sell fifo_resting
           (after [Add 4 fifo_sell] fifo_resting)
           [mkTrade 100 95 20 23; mkTrade 150 95 21 23]).
  - apply fifo_resting_wf.
  - apply fifo_resting_wf.
  - simpl. lia.
  - vm_compute. reflexivity.
Defined.

(** ** What a match does to the two orders *)

(** X11: in a pass of the matching loop on a consistent book with positive
    quantities, the traded quantity is the smaller of the two heads'
    quantities.  The head with the larger quantity stays at the head of its
    FIFO, still first in the queue, with its quantity reduced by the trade;
    a head whose quantity is used up leaves the book, its id leaves the
    index and its slot goes to the free list.  No other order is written
    to. *)
Theorem try_match_iter_fills ob t ob' b a :
  wf ob → quantities_positive ob →
  try_match_iter ob = Some (t, ob') →
  best_bid_head ob = Some b → best_ask_head ob = Some a →
  match_qty t = quantity (deref ob b) `min` quantity (deref ob a) ∧
  (quantity (deref ob a) < quantity (deref ob b) →
   best_bid_head ob' = Some b ∧
   quantity (deref ob' b) = quantity (deref ob b) - quantity (deref ob a)) ∧
  (quantity (deref ob b) < quantity (deref ob a) →
   best_ask_head ob' = Some a ∧
   quantity (deref ob' a) = quantity (deref ob a) - quantity (deref ob b)) ∧
  (quantity (deref ob b) <= quantity (deref ob a) →
   b ∉ book_handles ob' ∧ b ∈ free_list (pool ob') ∧
   order_lookup ob' !! order_id (deref ob b) = None) ∧
  (quantity (deref ob a) <= quantity (deref ob b) →
   a ∉ book_handles ob' ∧ a ∈ free_list (pool ob') ∧
   order_lookup ob' !! order_id (deref ob a) = None) ∧
  (∀ g, g ≠ b → g ≠ a → deref ob' g = deref ob g).
Proof.
  intros Hwf Hpos Hit Hbh Hah.
  pose proof (try_match_iter_wf _ _ _ Hwf Hit) as Hwf'.
  pose proof Hit as Hmemory.
  apply try_match_iter_spec in Hit
    as (pb & hb & bt & br & pa & ha & at' & ar & Hb & Ha & _ & -> & Hrest).
  unfold best_bid_head in Hbh. unfold best_ask_head in Hah.
  rewrite Hb in Hbh. rewrite Ha in Hah. injection Hbh as <-. injection Hah as <-.
  assert (hb ≠ ha) as Hne by eauto using wf_heads_distinct.
  destruct (Hrest Hne) as (Hmem & _ & Hb' & Ha' & Hfl & Hlk). clear Hrest.
  cbv zeta in *. simpl.
  set (qb := quantity (deref ob hb)) in *.
  set (qa := quantity (deref ob ha)) in *.
  set (qb' := wrap64 (qb - _)) in *.
  set (qa' := wrap64 (qa - _)) in *.
  assert (0 < qb < 2 ^ 64) as Hqb.
  { apply Hpos. unfold book_handles. rewrite Hb, side_handles_cons.
    rewrite !elem_of_app, elem_of_cons. auto. }
  assert (0 < qa < 2 ^ 64) as Hqa.
  { apply Hpos. unfold book_handles. rewrite Ha, side_handles_cons.
    rewrite !elem_of_app, elem_of_cons. auto. }
  assert (qb' = qb - qb `min` qa) as Eb.
  { unfold qb', wrap64. apply Z.mod_small. lia. }
  assert (qa' = qa - qb `min` qa) as Ea.
  { unfold qa', wrap64. apply Z.mod_small. lia. }
  assert (Hqhb : quantity (deref ob' hb) = qb').
  { unfold deref. rewrite Hmem. rewrite fn_lookup_insert_ne by done.
    by rewrite fn_lookup_insert. }
  assert (Hqha : quantity (deref ob' ha) = qa').
  { unfold deref. rewrite Hmem. by rewrite fn_lookup_insert. }
  assert (Hfree : ∀ g, g ∈ free_list (pool ob') → g ∉ book_handles ob').
  { intros g Hf Hg. pose proof (wf_nodup _ Hwf') as Hnd.
    apply NoDup_app in Hnd as (_ & Hdisj & _). by apply (Hdisj g). }
  split_and!.
  - done.
  - intros Hlt. split; [|lia].
    unfold best_bid_head. rewrite Hb'.
    destruct (Z.eqb_spec qb' 0); [lia|]. by rewrite Hb.
  - intros Hlt. split; [|lia].
    unfold best_ask_head. rewrite Ha'.
    destruct (Z.eqb_spec qa' 0); [lia|]. by rewrite Ha.
  - intros Hle.
    assert ((qb' =? 0) = true) as E by lia. rewrite E in *.
    assert (hb ∈ free_list (pool ob')) as Hin.
    { rewrite Hfl, !elem_of_app, list_elem_of_singleton. auto. }
    split_and!; [by apply Hfree|done|].
    rewrite Hlk. destruct (qa' =? 0); simpl.
    + destruct (decide (order_id (deref ob ha) = order_id (deref ob hb))) as [->|Hd].
      * apply lookup_delete_eq.
      * rewrite lookup_delete_ne by done. apply lookup_delete_eq.
    + apply lookup_delete_eq.
  - intros Hle.
    assert ((qa' =? 0) = true) as E by lia. rewrite E in *.
    assert (ha ∈ free_list (pool ob')) as Hin.
    { rewrite Hfl, !elem_of_app, list_elem_of_singleton. auto. }
    split_and!; [by apply Hfree|done|].
    rewrite Hlk. apply lookup_delete_eq.
  - intros g Hgb Hga. unfold deref. rewrite Hmem.
    by rewrite !fn_lookup_insert_ne by done.
Qed.

Lemma try_match_iter_fills_witness :
  match_qty (mkTrade 100 95 20 23)
  = quantity (deref fifo_crossed 4) `min` quantity (deref fifo_crossed 1) ∧
  (quantity (deref fifo_crossed 1) < quantity (deref fifo_crossed 4) →
   best_bid_head fifo_matched
   = Some 4%nat ∧
   quantity (deref fifo_matched 4)
   = quantity (deref fifo_crossed 4) - quantity (deref fifo_crossed 1)) ∧
  (quantity (deref fifo_crossed 4) < quantity (deref fifo_crossed 1) →
   best_ask_head fifo_matched
   = Some 1%nat ∧
   quantity (deref fifo_matched 1)
   = quantity (deref fifo_crossed 1) - quantity (deref fifo_crossed 4)) ∧
  (quantity (deref fifo_crossed 4) <= quantity (deref fifo_crossed 1) →
   4%nat ∉ book_handles fifo_matched ∧
   4%nat ∈ free_list (pool fifo_matched) ∧
   order_lookup fifo_matched
     !! order_id (deref fifo_crossed 4) = None) ∧
  (quantity (deref fifo_crossed 1) <= quantity (deref fifo_crossed 4) →
   1%nat ∉ book_handles fifo_matched ∧
   1%nat ∈ free_list (pool fifo_matched) ∧
   order_lookup fifo_matched
     !! order_id (deref fifo_crossed 1) = None) ∧
  (∀ g, g ≠ 4%nat → g ≠ 1%nat →
        deref fifo_matched g
        = deref fifo_crossed g).
Proof.
  apply (try_match_iter_fills fifo_crossed (mkTrade 100 95 20 23) fifo_matched
           4%nat 1%nat).
  - apply fifo_crossed_wf.
  - apply fifo_crossed_wf.
  - vm_compute. reflexivity.
  - reflexivity.
  - reflexivity.
Defined.

(** ** Whom a new order trades with, and at what price *)

(** X12: a match happens only between a bid and an ask whose limits cross,
    and its price lies within them: on a consistent book without a NaN key
    the price of every trade is at least the limit of the sell order and at
    most the limit of the buy order. *)
Theorem trade_within_limits ob t ob' b a :
  wf ob → no_nan_level ob →
  try_match_iter ob = Some (t, ob') →
  best_bid_head ob = Some b → best_ask_head ob = Some a →
  (price (deref ob a) <= match_price t)%D ∧ (match_price t <= price (deref ob b))%D.
Proof.
  intros Hwf [Hnb Hna] Hit Hbh Hah.
  apply try_match_iter_spec in Hit
    as (pb & hb & bt & br & pa & ha & at' & ar & Hb & Ha & Hcross & -> & _).
  unfold best_bid_head in Hbh. unfold best_ask_head in Hah.
  rewrite Hb in Hbh. rewrite Ha in Hah. injection Hbh as <-. injection Hah as <-.
  destruct Hwf as [_ _ Hbok Haok _ _].
  rewrite Hb in Hbok. rewrite Ha in Haok.
  apply Forall_cons in Hbok as [[_ Hbq] _]. apply Forall_cons in Haok as [[_ Haq] _].
  apply Forall_cons in Hbq as [[Hpb _] _]. apply Forall_cons in Haq as [[Hpa _] _].
  simpl in *. rewrite Hpb, Hpa.
  assert (pb ≠ NaN) as Hb1 by (intros ->; apply Hnb; rewrite Hb; by left).
  assert (pa ≠ NaN) as Ha1 by (intros ->; apply Hna; rewrite Ha; by left).
  destruct (_ <? _); split;
    auto using double_le_refl, double_nlt_le.
Qed.

Lemma trade_within_limits_witness :
  (price (deref tie_crossed 1) <= match_price (mkTrade 10 100 2 1))%D ∧
  (match_price (mkTrade 10 100 2 1) <= price (deref tie_crossed 0))%D.
Proof.
  apply (trade_within_limits tie_crossed (mkTrade 10 100 2 1) tie_matched 0%nat 1%nat).
  - apply tie_crossed_wf.
  - apply (inserted_no_nan 0 tie_buy 0%nat tie_resting); [done|apply tie_resting_wf].
  - vm_compute. reflexivity.
  - reflexivity.
  - reflexivity.
Defined.

(** The loop, with a property of the trades it prints. *)
Lemma try_match_loop_trades (I : OrderBook -> Prop) (T : Trade -> Prop) :
  (∀ ob t ob', wf ob → I ob → try_match_iter ob = Some (t, ob') → I ob' ∧ T t) →
  ∀ fuel ob ob' out,
    wf ob → I ob →
    try_match_loop fuel ob = Returned tt ob' out →
    Forall T out ∧ I ob'.
Proof.
  intros Hstep. induction fuel as [|fuel IH]; intros ob ob' out Hwf HI; [done|]. simpl.
  destruct (try_match_iter ob) as [[t ob1]|] eqn:Hit.
  - unfold bind, emit.
    destruct (try_match_loop fuel ob1) as [[] ob2 out2| |] eqn:Hrun; try done.
    intros [= <- <-]. destruct (Hstep _ _ _ Hwf HI Hit) as [HI1 HT].
    destruct (IH ob1 ob2 out2) as [Hall HI2]; try done.
    { by eapply try_match_iter_wf. }
    split; [by constructor|done].
  - intros [= <- <-]. split; [constructor|done].
Qed.

Lemma level_push_back_elem before p h m k q g :
  (k, q) ∈ level_push_back before p h m → g ∈ q →
  g = h ∨ ∃ q0, (k, q0) ∈ m ∧ g ∈ q0.
Proof.
  induction m as [|[k0 q0] rest IH]; simpl.
  - intros [=]%list_elem_of_singleton Hg. subst.
    apply list_elem_of_singleton in Hg. auto.
  - destruct (before k0 p); [|destruct (before p k0)]; intros Hin Hg.
    + apply elem_of_cons in Hin as [[= -> ->]|Hin].
      * right. exists q0. split; [by left|done].
      * destruct (IH Hin Hg) as [?|(q1 & ? & ?)]; [by left|].
        right. exists q1. split; [by right|done].
    + apply elem_of_cons in Hin as [[= -> ->]|Hin].
      * apply list_elem_of_singleton in Hg. auto.
      * right. by exists q.
    + apply elem_of_cons in Hin as [[= -> ->]|Hin].
      * apply elem_of_app in Hg as [Hg|Hg].
        -- right. exists q0. split; [by left|done].
        -- apply list_elem_of_singleton in Hg. auto.
      * right. exists q. split; [by right|done].
Qed.

Lemma erase_if_empty_elem k0 q0 h0 rest k q g :
  (k, q) ∈ erase_if_empty k0 q0 rest → g ∈ q →
  ∃ q1, (k, q1) ∈ (k0, h0 :: q0) :: rest ∧ g ∈ q1.
Proof.
  destruct q0 as [|x q0]; simpl; intros Hin Hg.
  - exists q. split; [by right|done].
  - apply elem_of_cons in Hin as [[= -> ->]|Hin].
    + exists (h0 :: x :: q0). split; [by left|by right].
    + exists q. split; [by right|done].
Qed.

Lemma try_match_iter_sides ob t ob' :
  wf ob → try_match_iter ob = Some (t, ob') →
  (∀ k q g, (k, q) ∈ bids ob' → g ∈ q → ∃ q1, (k, q1) ∈ bids ob ∧ g ∈ q1) ∧
  (∀ k q g, (k, q) ∈ asks ob' → g ∈ q → ∃ q1, (k, q1) ∈ asks ob ∧ g ∈ q1) ∧
  (∀ k, k ∈ (bids ob').*1 → k ∈ (bids ob).*1) ∧
  (∀ k, k ∈ (asks ob').*1 → k ∈ (asks ob).*1).
Proof.
  intros Hwf Hit.
  apply try_match_iter_spec in Hit
    as (pb & hb & bt & br & pa & ha & at' & ar & Hb & Ha & _ & _ & Hrest).
  assert (hb ≠ ha) as Hne by eauto using wf_heads_distinct.
  destruct (Hrest Hne) as (_ & _ & Hb' & Ha' & _). clear Hrest. cbv zeta in *.
  split_and!; rewrite ?Hb', ?Ha'; clear Hb' Ha'.
  - intros k q g. destruct (_ =? 0); [|intros; by exists q].
    rewrite Hb. apply erase_if_empty_elem.
  - intros k q g. destruct (_ =? 0); [|intros; by exists q].
    rewrite Ha. apply erase_if_empty_elem.
  - intros k. destruct (_ =? 0); [|done].
    rewrite Hb. intros [->|Hk]%erase_if_empty_keys; csimpl; rewrite elem_of_cons; auto.
  - intros k. destruct (_ =? 0); [|done].
    rewrite Ha. intros [->|Hk]%erase_if_empty_keys; csimpl; rewrite elem_of_cons; auto.
Qed.

Lemma try_match_iter_buyer h i p ob t ob' :
  wf ob →
  others_below h ob ∧ order_id (deref ob h) = i ∧ price (deref ob h) = p ∧
  no_nan_level ob →
  try_match_iter ob = Some (t, ob') →
  (others_below h ob' ∧ order_id (deref ob' h) = i ∧ price (deref ob' h) = p ∧
   no_nan_level ob') ∧
  (buy_id t = i ∧ (match_price t <= p)%D).
Proof.
  intros Hwf (Hothers & Hi & Hp & Hnan) Hit.
  pose proof (try_match_iter_no_nan _ _ _ Hit Hnan) as Hnan'.
  destruct Hnan as [Hnb Hna].
  destruct (try_match_iter_sides _ _ _ Hwf Hit) as (Hbsub & _ & _ & Haksub).
  pose proof Hit as Hspec.
  apply try_match_iter_spec in Hspec
    as (pb & hb & bt & br & pa & ha & at' & ar & Hb & Ha & Hcross & -> & _).
  assert (hb ≠ ha) as Hne by eauto using wf_heads_distinct.
  destruct (try_match_iter_memory ob _ ob' h Hit) as (Hid' & _ & Hprice' & _).
  { unfold best_bid_head, best_ask_head. rewrite Hb, Ha. congruence. }
  assert (hb = h) as ->.
  { destruct (decide (hb = h)) as [|Hd]; [done|]. exfalso.
    assert (pb < pa)%D; [|congruence].
    apply (Hothers pb (hb :: bt) hb); [rewrite Hb; by left|by left|done|].
    rewrite Ha. csimpl. by left. }
  assert (pb ≠ NaN) as Hb1 by (intros ->; apply Hnb; rewrite Hb; by left).
  assert (pa ≠ NaN) as Ha1 by (intros ->; apply Hna; rewrite Ha; by left).
  destruct Hwf as [_ _ Hbok Haok _ _].
  rewrite Hb in Hbok. rewrite Ha in Haok.
  apply Forall_cons in Hbok as [[_ Hbq] _]. apply Forall_cons in Haok as [[_ Haq] _].
  apply Forall_cons in Hbq as [[Hpb _] _]. apply Forall_cons in Haq as [[Hpa _] _].
  simpl in *. split_and!.
  - intros k q g Hkq Hg Hgh a Hain.
    destruct (Hbsub _ _ _ Hkq Hg) as (q1 & Hkq1 & Hg1).
    apply (Hothers k q1 g); auto.
  - congruence.
  - congruence.
  - done.
  - done.
  - rewrite Hpa, <- Hp, Hpb.
    destruct (_ <? _); auto using double_le_refl, double_nlt_le.
Qed.

Lemma try_match_iter_seller h i p ob t ob' :
  wf ob →
  others_above h ob ∧ order_id (deref ob h) = i ∧ price (deref ob h) = p ∧
  no_nan_level ob →
  try_match_iter ob = Some (t, ob') →
  (others_above h ob' ∧ order_id (deref ob' h) = i ∧ price (deref ob' h) = p ∧
   no_nan_level ob') ∧
  (sell_id t = i ∧ (p <= match_price t)%D).
Proof.
  intros Hwf (Hothers & Hi & Hp & Hnan) Hit.
  pose proof (try_match_iter_no_nan _ _ _ Hit Hnan) as Hnan'.
  destruct Hnan as [Hnb Hna].
  destruct (try_match_iter_sides _ _ _ Hwf Hit) as (_ & Hasub & Hbksub & _).
  pose proof Hit as Hspec.
  apply try_match_iter_spec in Hspec
    as (pb & hb & bt & br & pa & ha & at' & ar & Hb & Ha & Hcross & -> & _).
  assert (hb ≠ ha) as Hne by eauto using wf_heads_distinct.
  destruct (try_match_iter_memory ob _ ob' h Hit) as (Hid' & _ & Hprice' & _).
  { unfold best_bid_head, best_ask_head. rewrite Hb, Ha. congruence. }
  assert (ha = h) as ->.
  { destruct (decide (ha = h)) as [|Hd]; [done|]. exfalso.
    assert (pb < pa)%D; [|congruence].
    apply (Hothers pa (ha :: at') ha); [rewrite Ha; by left|by left|done|].
    rewrite Hb. csimpl. by left. }
  assert (pb ≠ NaN) as Hb1 by (intros ->; apply Hnb; rewrite Hb; by left).
  assert (pa ≠ NaN) as Ha1 by (intros ->; apply Hna; rewrite Ha; by left).
  destruct Hwf as [_ _ Hbok Haok _ _].
  rewrite Hb in Hbok. rewrite Ha in Haok.
  apply Forall_cons in Hbok as [[_ Hbq] _]. apply Forall_cons in Haok as [[_ Haq] _].
  apply Forall_cons in Hbq as [[Hpb _] _]. apply Forall_cons in Haq as [[Hpa _] _].
  simpl in *. split_and!.
  - intros k q g Hkq Hg Hgh b Hbin.
    destruct (Hasub _ _ _ Hkq Hg) as (q1 & Hkq1 & Hg1).
    apply (Hothers k q1 g); auto.
  - congruence.
  - congruence.
  - done.
  - done.
  - rewrite Hpb, <- Hp, Hpa.
    destruct (_ <? _); auto using double_le_refl, double_nlt_le.
Qed.

Lemma elem_of_keys (k : double) (q : list handle) (m : side_book) : (k, q) ∈ m → k ∈ m.*1.
Proof. intros Hin. apply list_elem_of_fmap. by exists (k, q). Qed.

(** X13: every trade that [add_order] prints has the new order as one of
    its two parties, and is priced within the new order's limit.  On a
    consistent, uncrossed book without a NaN key, when [add_order] of a buy
    order whose price is not NaN returns, every trade it printed names the
    new order as the buyer and has a price at most its limit; for a sell
    order every trade names it as the seller and has a price at least its
    limit.  Orders that were resting never trade with one another. *)
Theorem add_order_trades_with_incoming now order ob ob' out :
  wf ob → uncrossed ob → no_nan_level ob → price order ≠ NaN →
  add_order now order ob = Returned tt ob' out →
  Forall (λ t, if is_buy order
               then buy_id t = order_id order ∧ (match_price t <= price order)%D
               else sell_id t = order_id order ∧ (price order <= match_price t)%D) out.
Proof.
  intros Hwf Hun Hnan Hnum. rewrite add_order_unfold.
  destruct (last (free_list (pool ob))) as [h|] eqn:Hlast; [|done].
  set (ob1 := inserted now order h _).
  assert (wf ob1) as Hwf1 by (by apply inserted_wf).
  assert (no_nan_level ob1) as Hnan1 by (by apply inserted_no_nan).
  destruct (stamped_fields now order) as (Hsid & _ & Hsprice & _).
  assert (order_id (deref ob1 h) = order_id order) as Hid.
  { unfold ob1. by rewrite inserted_deref. }
  assert (price (deref ob1 h) = price order) as Hprice.
  { unfold ob1. by rewrite inserted_deref. }
  unfold try_match. intros Hrun.
  destruct (is_buy order) eqn:Hside.
  - eapply (try_match_loop_trades _ _ (try_match_iter_buyer h _ _)); [exact Hwf1| |exact Hrun].
    split_and!; try done.
    intros k q g Hkq Hg Hgh a Ha. unfold ob1 in Hkq, Ha.
    rewrite inserted_bids, Hside in Hkq. rewrite inserted_asks, Hside in Ha.
    destruct (level_push_back_elem _ _ _ _ _ _ _ Hkq Hg) as [?|(q0 & Hkq0 & _)]; [done|].
    apply Hun; [by eapply elem_of_keys|done].
  - eapply (try_match_loop_trades _ _ (try_match_iter_seller h _ _)); [exact Hwf1| |exact Hrun].
    split_and!; try done.
    intros k q g Hkq Hg Hgh b Hb. unfold ob1 in Hkq, Hb.
    rewrite inserted_asks, Hside in Hkq. rewrite inserted_bids, Hside in Hb.
    destruct (level_push_back_elem _ _ _ _ _ _ _ Hkq Hg) as [?|(q0 & Hkq0 & _)]; [done|].
    apply Hun; [done|by eapply elem_of_keys].
Qed.

Lemma add_order_trades_with_incoming_witness :
  Forall (λ t, if is_buy fifo_sell
               then buy_id t = order_id fifo_sell ∧ (match_price t <= price fifo_sell)%D
               else sell_id t = order_id fifo_sell ∧ (price fifo_sell <= match_price t)%D)
         [mkTrade 100 95 20 23; mkTrade 150 95 21 23].
Proof.
  apply (add_order_trades_with_incoming 4 fifo_sell fifo_resting
           (after [Add 4 fifo_sell] fifo_resting)).
  - apply fifo_resting_wf.
  - apply fifo_resting_wf.
  - apply fifo_resting_wf.
  - done.
  - vm_compute. reflexivity.
Defined.

(** ** The snapshot and the printout *)

Lemma level_sum_side ob m :
  level_sum ob (side_handles m) = foldr (λ l acc, level_sum ob l.2 + acc) 0 m.
Proof.
  induction m as [|[k q] rest IH]; [done|].
  rewrite side_handles_cons, level_sum_app, IH. done.
Qed.

Lemma level_sum_nonneg ob l :
  (∀ g, g ∈ l → 0 <= quantity (deref ob g)) → 0 <= level_sum ob l.
Proof.
  unfold level_sum. induction l as [|h l IH]; simpl; intros Hq; [done|].
  assert (0 <= quantity (deref ob h)) by (apply Hq; by left).
  assert (0 <= foldr (λ h acc, quantity (deref ob h) + acc) 0 l); [|lia].
  apply IH. intros g Hg. apply Hq. by right.
Qed.

Lemma snapshot_total_exact ob m :
  (∀ g, g ∈ side_handles m → 0 <= quantity (deref ob g)) →
  level_sum ob (side_handles m) < 2 ^ 64 →
  snapshot_total (level_report ob <$> m) = level_sum ob (side_handles m).
Proof.
  induction m as [|[k q] rest IH]; [done|].
  rewrite side_handles_cons, level_sum_app. intros Hq Hlt. csimpl.
  assert (0 <= level_sum ob q).
  { apply level_sum_nonneg. intros g Hg. apply Hq. rewrite elem_of_app. auto. }
  assert (0 <= level_sum ob (side_handles rest)).
  { apply level_sum_nonneg. intros g Hg. apply Hq. rewrite elem_of_app. auto. }
  unfold snapshot_total in *. rewrite IH; [|intros g Hg; apply Hq; rewrite elem_of_app; auto|lia].
  unfold wrap64. rewrite Z.mod_small by lia. done.
Qed.

(** X14: [get_snapshot] with depth 0 returns two empty lists, and with a
    depth that is at least the number of levels of both sides it returns
    every level of the book, best first. *)
Theorem get_snapshot_depth_bounds depth bids_out asks_out ob :
  (length (bids ob) <= Z.to_nat depth)%nat →
  (length (asks ob) <= Z.to_nat depth)%nat →
  depth < 2 ^ 64 →
  returned (get_snapshot 0 bids_out asks_out ob) = Some ([], []) ∧
  returned (get_snapshot depth bids_out asks_out ob)
  = Some (level_report ob <$> bids ob, level_report ob <$> asks ob).
Proof.
  intros Hb Ha Hd. rewrite !get_snapshot_unfold. simpl.
  rewrite !snapshot_side_spec by lia. rewrite !Z.sub_0_r. simpl.
  by rewrite !take_ge by done.
Qed.

Lemma get_snapshot_depth_bounds_witness :
  returned (get_snapshot 0 [] [] demo_book) = Some ([], []) ∧
  returned (get_snapshot 5 [] [] demo_book)
  = Some (level_report demo_book <$> bids demo_book,
          level_report demo_book <$> asks demo_book).
Proof.
  apply (get_snapshot_depth_bounds 5 [] [] demo_book).
  - vm_compute. lia.
  - vm_compute. lia.
  - lia.
Defined.

(** X15: when the quantities in the book are positive and add up to less
    than [2^64], the totals of a snapshot that is deep enough to show every
    level of both sides add up to the quantity resting in the book. *)
Theorem get_snapshot_totals depth bids_out asks_out ob :
  quantities_positive ob →
  resting_quantity ob < 2 ^ 64 →
  (length (bids ob) <= Z.to_nat depth)%nat →
  (length (asks ob) <= Z.to_nat depth)%nat →
  depth < 2 ^ 64 →
  ∃ bl al,
    returned (get_snapshot depth bids_out asks_out ob) = Some (bl, al) ∧
    snapshot_total bl + snapshot_total al = resting_quantity ob.
Proof.
  intros Hpos Hlt Hb Ha Hd. do 2 eexists. split.
  { rewrite get_snapshot_unfold. simpl.
    rewrite !snapshot_side_spec by lia. rewrite !Z.sub_0_r. simpl.
    by rewrite !take_ge by done. }
  unfold resting_quantity, book_handles in *. rewrite level_sum_app in *.
  assert (Hqb : ∀ g, g ∈ side_handles (bids ob) → 0 <= quantity (deref ob g)).
  { intros g Hg. assert (0 < quantity (deref ob g) < 2 ^ 64); [|lia].
    apply Hpos. unfold book_handles. rewrite elem_of_app. auto. }
  assert (Hqa : ∀ g, g ∈ side_handles (asks ob) → 0 <= quantity (deref ob g)).
  { intros g Hg. assert (0 < quantity (deref ob g) < 2 ^ 64); [|lia].
    apply Hpos. unfold book_handles. rewrite elem_of_app. auto. }
  pose proof (level_sum_nonneg _ _ Hqb). pose proof (level_sum_nonneg _ _ Hqa).
  rewrite !snapshot_total_exact by (done || lia). done.
Qed.

Lemma get_snapshot_totals_witness :
  ∃ bl al,
    returned (get_snapshot 5 [] [] fifo_resting) = Some (bl, al) ∧
    snapshot_total bl + snapshot_total al = resting_quantity fifo_resting.
Proof.
  apply (get_snapshot_totals 5 [] [] fifo_resting).
  - apply fifo_resting_wf.
  - by vm_compute.
  - vm_compute. lia.
  - vm_compute. lia.
  - lia.
Defined.

Lemma StronglySorted_reverse {A} (R : A -> A -> Prop) (l : list A) :
  StronglySorted R l → StronglySorted (flip R) (reverse l).
Proof.
  induction 1 as [|x l _ IH Hall]; [constructor|].
  rewrite reverse_cons. apply StronglySorted_app_2; [|done|repeat constructor].
  intros y z Hy ->%list_elem_of_singleton. rewrite elem_of_reverse in Hy.
  rewrite Forall_forall in Hall. unfold flip. by apply Hall.
Qed.

Lemma rows_Row (levels : list PriceLevel) : rows (Row <$> levels) = levels.
Proof. unfold rows. induction levels as [|l levels IH]; csimpl; [done|]. by rewrite IH. Qed.

Lemma rows_printout (al bl : list PriceLevel) :
  rows ([Blank; Banner; AsksTitle; ColumnTitles; Dashes]
        ++ (Row <$> al) ++ [Equals] ++ (Row <$> bl)
        ++ [Dashes; BidsTitle; Equals; Blank])
  = al ++ bl.
Proof.
  unfold rows. rewrite !omap_app.
  fold (rows (Row <$> al)) (rows (Row <$> bl)). rewrite !rows_Row.
  simpl. by rewrite app_nil_r.
Qed.

Lemma print_book_unfold depth ob :
  print_book depth ob =
  Returned ([Blank; Banner; AsksTitle; ColumnTitles; Dashes]
            ++ (Row <$> reverse (snapshot_side ob depth 0 (asks ob) []))
            ++ [Equals]
            ++ (Row <$> snapshot_side ob depth 0 (bids ob) [])
            ++ [Dashes; BidsTitle; Equals; Blank]) ob [].
Proof. done. Qed.

(** X16: [print_book] changes nothing in the book.  Between its fixed lines
    it writes one row per level of the snapshot of the given depth: the ask
    levels from the highest shown price down to the best ask, then the bid
    levels from the best bid down.  On a book whose sides are ordered and
    uncrossed the prices of the rows strictly decrease from the first row
    to the last. *)
Theorem print_book_ladder depth ob :
  keys_sorted greater (bids ob) → keys_sorted less (asks ob) →
  uncrossed ob →
  0 <= depth < 2 ^ 64 →
  ∃ ls,
    print_book depth ob = Returned ls ob [] ∧
    rows ls = reverse (level_report ob <$> take (Z.to_nat depth) (asks ob))
              ++ (level_report ob <$> take (Z.to_nat depth) (bids ob)) ∧
    (length ls = 10 + Z.to_nat depth `min` length (asks ob)
                    + Z.to_nat depth `min` length (bids ob))%nat ∧
    StronglySorted (λ x y, (y < x)%D) (level_price <$> rows ls).
Proof.
  intros Hbs Has Hun Hd. eexists. split; [apply print_book_unfold|].
  rewrite !snapshot_side_spec by lia. rewrite Z.sub_0_r, !app_nil_l.
  rewrite rows_printout. split_and!.
  - done.
  - rewrite !length_app, !length_fmap, length_reverse, !length_fmap, !length_take.
    simpl. lia.
  - rewrite fmap_app, fmap_reverse, !level_report_prices.
    apply (keys_sorted_take _ (Z.to_nat depth)) in Hbs, Has.
    unfold keys_sorted in Hbs, Has.
    apply StronglySorted_app_2.
    + intros a b Ha Hb. rewrite elem_of_reverse in Ha.
      rewrite fmap_take in Ha, Hb.
      apply Hun; eapply subseteq_take; eauto.
    + apply StronglySorted_reverse in Has.
      eapply StronglySorted_weaken; [|exact Has]. by unfold flip, less.
    + eapply StronglySorted_weaken; [|exact Hbs]. by unfold greater.
Qed.

Lemma print_book_ladder_witness :
  ∃ ls,
    print_book 2 demo_book = Returned ls demo_book [] ∧
    rows ls = reverse (level_report demo_book <$> take (Z.to_nat 2) (asks demo_book))
              ++ (level_report demo_book <$> take (Z.to_nat 2) (bids demo_book)) ∧
    (length ls = 10 + Z.to_nat 2 `min` length (asks demo_book)
                    + Z.to_nat 2 `min` length (bids demo_book))%nat ∧
    StronglySorted (λ x y, (y < x)%D) (level_price <$> rows ls).
Proof.
  destruct demo_book_wf as ([Hbs Has _ _ _ _] & Hun & _).
  apply (print_book_ladder 2 demo_book); [exact Hbs|exact Has|exact Hun|lia].
Defined.

(** ** The index and the FIFOs *)

Lemma try_match_iter_indexed ob t ob' :
  wf ob → indexed ob → try_match_iter ob = Some (t, ob') → indexed ob'.
Proof.
  intros Hwf Hidx Hit h Hh.
  apply try_match_iter_spec in Hit
    as (pb & hb & bt & br & pa & ha & at' & ar & Hb & Ha & _ & _ & Hrest).
  assert (hb ≠ ha) as Hne by eauto using wf_heads_distinct.
  destruct (Hrest Hne) as (Hmem & _ & Hb' & Ha' & _ & Hlk). clear Hrest.
  cbv zeta in *.
  set (qb' := wrap64 (quantity (deref ob hb) - _)) in *.
  set (qa' := wrap64 (quantity (deref ob ha) - _)) in *.
  assert (Hbook : book_handles ob
                  = (hb :: bt ++ side_handles br) ++ (ha :: at' ++ side_handles ar)).
  { unfold book_handles. by rewrite Hb, Ha, !side_handles_cons. }
  pose proof (wf_nodup _ Hwf) as Hnd. apply NoDup_app in Hnd as [Hnd _].
  rewrite Hbook in Hnd.
  apply NoDup_app in Hnd as (Hndb & Hdisj & Hnda).
  apply NoDup_cons in Hndb as [Hhb _]. apply NoDup_cons in Hnda as [Hha _].
  assert (Hids : ∀ g, order_id (deref ob' g) = order_id (deref ob g)).
  { intros g. unfold deref. rewrite Hmem.
    destruct (decide (g = ha)) as [->|]; [by rewrite fn_lookup_insert|].
    rewrite fn_lookup_insert_ne by done.
    destruct (decide (g = hb)) as [->|]; [by rewrite fn_lookup_insert|].
    by rewrite fn_lookup_insert_ne by done. }
  assert (Hb_in : hb ∈ book_handles ob).
  { rewrite Hbook, elem_of_app, elem_of_cons. auto. }
  assert (Ha_in : ha ∈ book_handles ob).
  { rewrite Hbook, elem_of_app, !elem_of_cons. auto. }
  assert (Hin : h ∈ book_handles ob ∧
                (qb' =? 0 = true → h ≠ hb) ∧ (qa' =? 0 = true → h ≠ ha)).
  { unfold book_handles in Hh. rewrite Hb', Ha' in Hh. rewrite Hbook.
    pose proof (Hdisj hb) as Hdb. pose proof (Hdisj h) as Hdh.
    rewrite !elem_of_app, !elem_of_cons, ?elem_of_app in *.
    destruct (qb' =? 0), (qa' =? 0);
      rewrite ?Hb, ?Ha, ?erase_if_empty_handles, ?side_handles_cons in Hh;
      rewrite ?elem_of_app, ?elem_of_cons, ?elem_of_app in Hh;
      split_and!; try done; try (intros _ ->); intuition auto. }
  destruct Hin as (Hin & Hnb & Hna).
  assert (Hinj : ∀ g, g ∈ book_handles ob → h ≠ g →
                      order_id (deref ob g) ≠ order_id (deref ob h)).
  { intros g Hg Hhg Heq. apply Hidx in Hg. apply Hidx in Hin. congruence. }
  rewrite Hids, Hlk.
  destruct (qb' =? 0), (qa' =? 0); simpl;
    rewrite ?lookup_delete_ne by auto; by apply Hidx.
Qed.

Lemma inserted_indexed now order h ob :
  wf ob → indexed ob → fresh_id order ob →
  last (free_list (pool ob)) = Some h →
  indexed (inserted now order h (with_free_list (removelast (free_list (pool ob))) ob)).
Proof.
  intros Hwf Hidx Hfresh Hlast g Hg.
  rewrite inserted_handles in Hg. rewrite inserted_lookup.
  destruct (decide (g = h)) as [->|Hne].
  - rewrite inserted_deref. destruct (stamped_fields now order) as (-> & _).
    apply lookup_insert_eq.
  - apply elem_of_cons in Hg as [?|Hg]; [done|].
    rewrite inserted_deref_ne by done.
    change (deref (with_free_list _ ob) g) with (deref ob g).
    change (order_lookup (with_free_list _ ob)) with (order_lookup ob).
    apply Hidx in Hg. rewrite lookup_insert_ne; [done|].
    unfold fresh_id in Hfresh. congruence.
Qed.

Lemma cancelled_indexed id h ob :
  wf ob → indexed ob → order_lookup ob !! id = Some h → indexed (cancelled id h ob).
Proof.
  intros Hwf Hidx Hid g Hg. destruct (wf_lookup _ Hwf _ _ Hid) as [Hin _].
  rewrite cancelled_handles in Hg by done.
  apply list_elem_of_filter in Hg as [Hne Hg].
  rewrite cancelled_deref, cancelled_lookup. apply Hidx in Hg.
  rewrite lookup_delete_ne; [done|]. congruence.
Qed.

Lemma store_quantity_indexed h q ob :
  indexed ob → indexed (store h (set_quantity q (deref ob h)) ob).
Proof.
  intros Hidx g Hg.
  assert (order_id (deref (store h (set_quantity q (deref ob h)) ob) g)
          = order_id (deref ob g)) as ->.
  { unfold deref, store, with_memory. simpl.
    destruct (decide (g = h)) as [->|]; [by rewrite fn_lookup_insert|].
    by rewrite fn_lookup_insert_ne by done. }
  by apply Hidx.
Qed.

Lemma exec_indexed garbage pool_size ops :
  Forall op_numeric ops →
  ops_ok fresh_id ops (new_book garbage pool_size) →
  ∃ ob,
    exec ops (new_book garbage pool_size) = Some ob ∧ wf ob ∧ uncrossed ob ∧ indexed ob.
Proof.
  intros Hnum Hops.
  apply (exec_preserves indexed fresh_id); try done.
  - intros ob t ob'. apply try_match_iter_indexed.
  - apply inserted_indexed.
  - apply cancelled_indexed.
  - intros h q ob _. apply store_quantity_indexed.
  - intros id h now p q ob Hwf _ Hid. destruct (wf_lookup _ Hwf _ _ Hid) as [_ Hidh].
    unfold fresh_id. rewrite cancelled_lookup. simpl. rewrite Hidh.
    apply lookup_delete_eq.
  - apply new_book_wf.
  - apply new_book_uncrossed.
  - apply new_book_no_nan.
  - by intros h ?%elem_of_nil.
Qed.

(** The slots the index points to are the slots in the FIFOs. *)
Lemma index_values ob :
  wf ob → indexed ob → (map_to_list (order_lookup ob)).*2 ≡ₚ book_handles ob.
Proof.
  intros Hwf Hidx. apply NoDup_Permutation.
  - apply NoDup_fmap_2_strong; [|apply NoDup_map_to_list].
    intros [i1 h1] [i2 h2] H1 H2 Heq. simpl in Heq. subst.
    apply elem_of_map_to_list in H1, H2.
    destruct (wf_lookup _ Hwf _ _ H1) as [_ <-].
    by destruct (wf_lookup _ Hwf _ _ H2) as [_ <-].
  - pose proof (wf_nodup _ Hwf) as Hnd. by apply NoDup_app in Hnd as [Hnd _].
  - intros h. rewrite list_elem_of_fmap. split.
    + intros ([i g] & -> & Hin). apply elem_of_map_to_list in Hin.
      by destruct (wf_lookup _ Hwf _ _ Hin).
    + intros Hh. exists (order_id (deref ob h), h). split; [done|].
      apply elem_of_map_to_list. by apply Hidx.
Qed.

Lemma deallocate_all_spec entries ob :
  ∃ ob',
    deallocate_all entries ob = Returned tt ob' [] ∧
    free_list (pool ob') = free_list (pool ob) ++ entries.*2 ∧
    memory (pool ob') = memory (pool ob) ∧
    capacity (pool ob') = capacity (pool ob) ∧
    bids ob' = bids ob ∧ asks ob' = asks ob ∧ order_lookup ob' = order_lookup ob.
Proof.
  revert ob. induction entries as [|[i h] rest IH]; intros ob; csimpl.
  - exists ob. by rewrite app_nil_r.
  - unfold deallocate. rewrite bind_modify.
    destruct (IH (with_free_list (free_list (pool ob) ++ [h]) ob))
      as (ob' & -> & Hfl & Hmem & Hcap & Hb & Ha & Hlk).
    exists ob'. split_and!; try done. rewrite Hfl. simpl. by rewrite <- app_assoc.
Qed.

Lemma demo_ops_fresh : ops_ok fresh_id demo_ops (empty_book 10).
Proof.
  unfold demo_ops.
  repeat (split; [by vm_compute|];
          intros ? Hrun; vm_compute in Hrun; injection Hrun as <-).
  done.
Qed.

Lemma demo_book_indexed : indexed demo_book.
Proof.
  destruct (exec_indexed (λ _, blank) 10 demo_ops demo_ops_numeric demo_ops_fresh)
    as (ob & Hex & _ & _ & Hidx).
  assert (ob = demo_book) as ->; [|done].
  unfold demo_book, after. fold (empty_book 10) in Hex. by rewrite Hex.
Qed.

(** X17: when no price passed to a sequence of public calls on a new book
    is NaN and every [add_order] of the sequence brings an id that is not
    live at the time of the call, the index and the FIFOs hold the same
    orders afterwards: every order of a FIFO is found in the index under its
    own id, no two orders of the FIFOs have the same id, and the index has
    as many entries as there are orders in the FIFOs. *)
Theorem fresh_ids_keep_index garbage pool_size ops :
  Forall op_numeric ops →
  ops_ok fresh_id ops (new_book garbage pool_size) →
  ∃ ob,
    exec ops (new_book garbage pool_size) = Some ob ∧
    (∀ h, h ∈ book_handles ob →
          order_lookup ob !! order_id (deref ob h) = Some h) ∧
    (∀ g h, g ∈ book_handles ob → h ∈ book_handles ob →
            order_id (deref ob g) = order_id (deref ob h) → g = h) ∧
    size (order_lookup ob) = book_size ob.
Proof.
  intros Hnum Hops.
  destruct (exec_indexed garbage pool_size ops Hnum Hops)
    as (ob & Hex & Hwf & _ & Hidx).
  exists ob. split_and!; try done.
  - intros g h Hg Hh Heq. apply Hidx in Hg, Hh. congruence.
  - unfold book_size. rewrite <- (index_values ob) by done.
    by rewrite length_fmap, length_map_to_list.
Qed.

Lemma fresh_ids_keep_index_witness :
  ∃ ob,
    exec demo_ops (new_book (λ _, blank) 10) = Some ob ∧
    (∀ h, h ∈ book_handles ob →
          order_lookup ob !! order_id (deref ob h) = Some h) ∧
    (∀ g h, g ∈ book_handles ob → h ∈ book_handles ob →
            order_id (deref ob g) = order_id (deref ob h) → g = h) ∧
    size (order_lookup ob) = book_size ob.
Proof.
  apply (fresh_ids_keep_index (λ _, blank) 10 demo_ops);
    [exact demo_ops_numeric|exact demo_ops_fresh].
Defined.

(** X18: on a consistent book whose FIFO orders are all in the index, the
    loop of the destructor hands every resting order's slot back to the
    pool, each once: afterwards the free list holds every slot that was in a
    FIFO or in the free list, none twice.  It prints nothing and leaves the
    two sides, the index and the orders as they were. *)
Theorem destroy_returns_every_slot ob :
  wf ob → indexed ob →
  ∃ ob',
    destroy ob = Returned tt ob' [] ∧
    free_list (pool ob') ≡ₚ book_handles ob ++ free_list (pool ob) ∧
    NoDup (free_list (pool ob')) ∧
    (length (free_list (pool ob')) = book_size ob + length (free_list (pool ob)))%nat ∧
    bids ob' = bids ob ∧ asks ob' = asks ob ∧ order_lookup ob' = order_lookup ob ∧
    (∀ g, deref ob' g = deref ob g).
Proof.
  intros Hwf Hidx. unfold destroy. rewrite bind_get.
  destruct (deallocate_all_spec (map_to_list (order_lookup ob)) ob)
    as (ob' & -> & Hfl & Hmem & _ & Hb & Ha & Hlk).
  assert (free_list (pool ob') ≡ₚ book_handles ob ++ free_list (pool ob)) as Hperm.
  { rewrite Hfl, index_values by done. solve_Permutation. }
  exists ob'. split_and!; try done.
  - rewrite Hperm. apply (wf_nodup _ Hwf).
  - by rewrite Hperm, length_app.
  - intros g. unfold deref. by rewrite Hmem.
Qed.

Lemma destroy_returns_every_slot_witness :
  ∃ ob',
    destroy demo_book = Returned tt ob' [] ∧
    free_list (pool ob') ≡ₚ book_handles demo_book ++ free_list (pool demo_book) ∧
    NoDup (free_list (pool ob')) ∧
    (length (free_list (pool ob'))
     = book_size demo_book + length (free_list (pool demo_book)))%nat ∧
    bids ob' = bids demo_book ∧ asks ob' = asks demo_book ∧
    order_lookup ob' = order_lookup demo_book ∧
    (∀ g, deref ob' g = deref demo_book g).
Proof.
  apply (destroy_returns_every_slot demo_book);
    [apply demo_book_wf|apply demo_book_indexed].
Defined.

(** ** The matching loop as a whole *)

(** X19: on a consistent book [try_match] returns with the book uncrossed,
    and it has then nothing left to do: run again on the book it left, it
    returns at once with the same book and no trade.  On a book that is
    already uncrossed it changes nothing and prints nothing. *)
Theorem try_match_settles ob :
  wf ob →
  ∃ ob' out,
    try_match ob = Returned tt ob' out ∧
    wf ob' ∧ uncrossed ob' ∧
    try_match ob' = Returned tt ob' [] ∧
    (uncrossed ob → ob' = ob ∧ out = []).
Proof.
  intros Hwf.
  destruct (try_match_inv (λ _, True) ob) as (ob' & out & Hrun & Hwf' & _ & Hend & _);
    try done.
  exists ob', out. split_and!; try done.
  - by apply try_match_iter_None_uncrossed.
  - unfold try_match. simpl. by rewrite Hend.
  - intros Hun. apply uncrossed_iter_None in Hun.
    unfold try_match in Hrun. simpl in Hrun. rewrite Hun in Hrun.
    by injection Hrun as <- <-.
Qed.

Lemma try_match_settles_witness :
  ∃ ob' out,
    try_match tie_crossed = Returned tt ob' out ∧
    wf ob' ∧ uncrossed ob' ∧
    try_match ob' = Returned tt ob' [] ∧
    (uncrossed tie_crossed → ob' = tie_crossed ∧ out = []).
Proof.
  apply (try_match_settles tie_crossed). apply tie_crossed_wf.
Defined.

(** ** Prices that are not numbers *)

Lemma keys_sorted_nan before (m : side_book) :
  (∀ k, before k NaN = false ∧ before NaN k = false) →
  keys_sorted before m → NaN ∈ m.*1 → m.*1 = [NaN].
Proof.
  intros Hnan. unfold keys_sorted. destruct (m.*1) as [|x l]; [by intros _ ?%elem_of_nil|].
  intros Hs Hin. apply StronglySorted_inv in Hs as [_ Hall].
  apply elem_of_cons in Hin as [<-|Hin].
  - destruct l as [|y l]; [done|]. apply Forall_cons in Hall as [Hy _].
    destruct (Hnan y) as [_ Hf]. congruence.
  - rewrite Forall_forall in Hall. specialize (Hall _ Hin).
    destruct (Hnan x) as [Hf _]. congruence.
Qed.

(** X20: whatever the prices passed, NaN included, when every call of a
    sequence of public calls on a new book has come back, the keys of each
    side are in strict comparator order, no level is empty, and a key NaN,
    if a side has one, is the only key of that side. *)
Theorem sides_ordered_after garbage pool_size ops ob :
  exec ops (new_book garbage pool_size) = Some ob →
  keys_sorted greater (bids ob) ∧ keys_sorted less (asks ob) ∧
  Forall (λ l, l.2 ≠ []) (bids ob) ∧ Forall (λ l, l.2 ≠ []) (asks ob) ∧
  (NaN ∈ (bids ob).*1 → (bids ob).*1 = [NaN]) ∧
  (NaN ∈ (asks ob).*1 → (asks ob).*1 = [NaN]).
Proof.
  intros Hex.
  destruct (exec_shaped ops (new_book garbage pool_size) ob) as [[Hbs Has Hbn Han] _];
    [apply wf_shaped, new_book_wf|apply new_book_uncrossed|done|].
  split_and!; try done.
  - apply (keys_sorted_nan greater); [|done]. intros k. unfold greater. by destruct k.
  - apply (keys_sorted_nan less); [|done]. intros k. unfold less. by destruct k.
Qed.

Lemma sides_ordered_after_witness :
  keys_sorted greater (bids nan_book) ∧ keys_sorted less (asks nan_book) ∧
  Forall (λ l, l.2 ≠ []) (bids nan_book) ∧ Forall (λ l, l.2 ≠ []) (asks nan_book) ∧
  (NaN ∈ (bids nan_book).*1 → (bids nan_book).*1 = [NaN]) ∧
  (NaN ∈ (asks nan_book).*1 → (asks nan_book).*1 = [NaN]).
Proof.
  apply (sides_ordered_after (λ _, blank) 3 nan_ops nan_book).
  vm_compute. reflexivity.
Defined.

(** X21: an order whose price is NaN is queued in the best level of its
    side, whatever the price of that level.  When the other side is empty
    and the pool has a free slot, [add_order] of such an order returns
    without a trade; its slot is at the tail of the FIFO of the first level
    of its side, whose key is unchanged, or, on an empty side, alone in a new
    level with key NaN.  The other levels are as they were. *)
Theorem add_order_nan_price now order h ob :
  price order = NaN →
  (if is_buy order then asks ob else bids ob) = [] →
  last (free_list (pool ob)) = Some h →
  ∃ ob',
    add_order now order ob = Returned tt ob' [] ∧
    (if is_buy order then bids ob' else asks ob')
    = match (if is_buy order then bids ob else asks ob) with
      | [] => [(NaN, [h])]
      | (k, q) :: rest => (k, q ++ [h]) :: rest
      end ∧
    (if is_buy order then asks ob' else bids ob') = [].
Proof.
  intros Hp Hother Hlast. eexists. split.
  - apply add_order_rests; [| |done].
    + intros b a Hb Ha. destruct (is_buy order); rewrite Hother in *;
        [by apply elem_of_nil in Ha|by apply elem_of_nil in Hb].
    + unfold rests. destruct (is_buy order); rewrite Hother;
        by intros ? ?%elem_of_nil.
  - rewrite inserted_bids, inserted_asks, Hp.
    change (bids (with_free_list _ ob)) with (bids ob).
    change (asks (with_free_list _ ob)) with (asks ob).
    destruct (is_buy order); split; try done.
    + destruct (bids ob) as [|[k q] rest]; [done|]. simpl. unfold greater. by destruct k.
    + destruct (asks ob) as [|[k q] rest]; [done|]. simpl. unfold less. by destruct k.
Qed.

Lemma add_order_nan_price_witness :
  ∃ ob',
    add_order 9 (mkOrder 40 true NaN 10 0) fifo_resting = Returned tt ob' [] ∧
    bids ob' = match bids fifo_resting with
               | [] => [(NaN, [1%nat])]
               | (k, q) :: rest => (k, q ++ [1%nat]) :: rest
               end ∧
    asks ob' = [].
Proof.
  apply (add_order_nan_price 9 (mkOrder 40 true NaN 10 0) 1%nat fifo_resting);
    [reflexivity|reflexivity|vm_compute; reflexivity].
Defined.
